(** * Term-based coordinator election and full-state replication

    A shallow embedding of [server.js]: the node registry ([databases]),
    the tracked [coordinator], the process-wide [globalTerm], the per-node
    Mongoose [models], and the functions [connectDBs], [getHighestTerm],
    [syncDataFromMaster], [canBecomeMaster], [electCoordinator], [monitor]
    and the three request handlers.

    JavaScript objects of the [databases] array are shared and mutated in
    place; a reference to one of them (the [coordinator] variable, the loop
    variables [db], [other], [slave], [master]) is modelled by its position in
    the array.  Asynchronous code is modelled without interleaving: every
    function runs to completion, as the coordination loop assumes.  The
    MongoDB servers are the environment: every storage call may fail, which
    the [oracle] of the world decides, one boolean per call; a call that
    fails changes nothing.  Each node has its own database, selected by the
    node's id, and [models[id]] is bound to it.  JavaScript numbers that hold
    ids, terms and dates are integers here. *)

From stdpp Require Import gmap strings list sorting.

Local Open Scope Z_scope.

(** ** Data model *)

Inductive Role := Unknown | Master | Slave.

#[global] Instance Role_eq_dec : EqDecision Role.
Proof. solve_decision. Defined.

(** One element of [databases]:
    [{ id, name, uri, role, alive, connection, term }].  The [uri] only selects
    the store; [connection] is [true] for a connection object, [false] for
    [null]. *)
Record Db := mkDb {
  db_id : Z;
  db_name : string;
  db_role : Role;
  db_alive : bool;
  db_connection : bool;
  db_term : Z
}.

(** A document of the [Test] collection ([testSchema] plus MongoDB's [_id]). *)
Record Doc := mkDoc {
  doc_id : Z;
  doc_data : string;
  doc_createdAt : Z
}.

(** The contents of one MongoDB database: the [Test] collection and the
    [term] of the [Metadata] document with key ["term"], if present. *)
Record Store := mkStore {
  Test : list Doc;
  Metadata : option Z
}.

Definition empty_store : Store := mkStore [] None.

(** The process state and its environment. *)
Record World := mkWorld {
  databases : list Db;
  coordinator : option nat;
  globalTerm : Z;
  models : gset Z;
  stores : gmap Z Store;
  nextId : Z;
  oracle : list bool
}.

Definition store_of (w : World) (k : Z) : Store :=
  default empty_store (stores w !! k).

Definition with_databases (f : list Db → list Db) (w : World) : World :=
  mkWorld (f (databases w)) (coordinator w) (globalTerm w) (models w)
          (stores w) (nextId w) (oracle w).

Definition with_coordinator (c : option nat) (w : World) : World :=
  mkWorld (databases w) c (globalTerm w) (models w)
          (stores w) (nextId w) (oracle w).

Definition with_globalTerm (t : Z) (w : World) : World :=
  mkWorld (databases w) (coordinator w) t (models w)
          (stores w) (nextId w) (oracle w).

Definition with_models (s : gset Z) (w : World) : World :=
  mkWorld (databases w) (coordinator w) (globalTerm w) s
          (stores w) (nextId w) (oracle w).

Definition with_store (k : Z) (f : Store → Store) (w : World) : World :=
  mkWorld (databases w) (coordinator w) (globalTerm w) (models w)
          (<[k := f (store_of w k)]> (stores w)) (nextId w) (oracle w).

Definition with_nextId (n : Z) (w : World) : World :=
  mkWorld (databases w) (coordinator w) (globalTerm w) (models w)
          (stores w) n (oracle w).

Definition with_oracle (o : list bool) (w : World) : World :=
  mkWorld (databases w) (coordinator w) (globalTerm w) (models w)
          (stores w) (nextId w) o.

Definition set_role_db (r : Role) (d : Db) : Db :=
  mkDb (db_id d) (db_name d) r (db_alive d) (db_connection d) (db_term d).

Definition set_alive_db (b : bool) (d : Db) : Db :=
  mkDb (db_id d) (db_name d) (db_role d) b (db_connection d) (db_term d).

Definition set_connection_db (b : bool) (d : Db) : Db :=
  mkDb (db_id d) (db_name d) (db_role d) (db_alive d) b (db_term d).

Definition set_term_db (t : Z) (d : Db) : Db :=
  mkDb (db_id d) (db_name d) (db_role d) (db_alive d) (db_connection d) t.

(** ** The monad of [async] functions: state and exceptions *)

Inductive Res (A : Type) := Ok (a : A) | Throw.
Arguments Ok {A} a.
Arguments Throw {A}.

Definition M (A : Type) : Type := World → Res A * World.

#[global] Instance M_ret : MRet M := λ A a w, (Ok a, w).

#[global] Instance M_bind : MBind M := λ A B f m w,
  match m w with
  | (Ok a, w') => f a w'
  | (Throw, w') => (Throw, w')
  end.

Definition get : M World := λ w, (Ok w, w).
Definition modify (f : World → World) : M unit := λ w, (Ok tt, f w).
Definition throw {A} : M A := λ w, (Throw, w).

(** [try { body } catch (err) { handler }] *)
Definition try_catch {A} (body handler : M A) : M A := λ w,
  match body w with
  | (Ok a, w') => (Ok a, w')
  | (Throw, w') => handler w'
  end.

(** [for (const x of l) { body }] *)
Fixpoint for_each {A} (l : list A) (body : A → M unit) : M unit :=
  match l with
  | [] => mret tt
  | x :: l' => body x;; for_each l' body
  end.

(** ** The storage adapter (Mongoose calls) *)

(** One call to a server: it fails when the environment says so. *)
Definition attempt : M unit := λ w,
  match oracle w with
  | [] => (Ok tt, w)
  | true :: o => (Ok tt, with_oracle o w)
  | false :: o => (Throw, with_oracle o w)
  end.

(** Using [models[k]] when it is [undefined] raises a TypeError. *)
Definition has_models (w : World) (k : Z) : bool := bool_decide (k ∈ models w).

Definition require_models (k : Z) : M unit :=
  w ← get; if has_models w k then mret tt else throw.

(** A new ObjectId; the driver never issues the same one twice. *)
Definition fresh_id : M Z := λ w, (Ok (nextId w), with_nextId (nextId w + 1) w).

(** [models[k].Metadata.findOne({ key: "term" })] *)
Definition Metadata_findOne (k : Z) : M (option Z) :=
  require_models k;; attempt;; w ← get; mret (Metadata (store_of w k)).

(** [new models[k].Metadata({ key: "term", term: t }).save()] *)
Definition Metadata_save (k : Z) (t : Z) : M unit :=
  require_models k;; attempt;;
  modify (with_store k (λ s, mkStore (Test s) (Some t))).

(** [models[k].Metadata.updateOne({ key: "term" }, { term: t }, { upsert })]:
    without a matching document and without [upsert] nothing is written. *)
Definition Metadata_updateOne (k : Z) (t : Z) (upsert : bool) : M unit :=
  require_models k;; attempt;;
  modify (with_store k (λ s,
    match Metadata s with
    | Some _ => mkStore (Test s) (Some t)
    | None => if upsert then mkStore (Test s) (Some t) else s
    end)).

(** [models[k].Test.find({})] *)
Definition Test_find (k : Z) : M (list Doc) :=
  require_models k;; attempt;; w ← get; mret (Test (store_of w k)).

(** [models[k].Test.find({}).limit(n)] *)
Definition Test_find_limit (k : Z) (n : nat) : M (list Doc) :=
  require_models k;; attempt;; w ← get; mret (take n (Test (store_of w k))).

(** [models[k].Test.deleteMany({})] *)
Definition Test_deleteMany (k : Z) : M unit :=
  require_models k;; attempt;;
  modify (with_store k (λ s, mkStore [] (Metadata s))).

(** Documents built from plain [{ data, createdAt }] objects get new ids. *)
Fixpoint new_docs (l : list (string * Z)) : M (list Doc) :=
  match l with
  | [] => mret []
  | (d, c) :: l' =>
      i ← fresh_id; ds ← new_docs l'; mret (mkDoc i d c :: ds)
  end.

(** [models[k].Test.insertMany(l)] *)
Definition Test_insertMany (k : Z) (l : list (string * Z)) : M unit :=
  require_models k;;
  ds ← new_docs l;
  attempt;;
  modify (with_store k (λ s, mkStore (Test s ++ ds) (Metadata s))).

(** [new models[k].Test({ data, createdAt }).save()]: the new document gets
    its [_id] when it is constructed. *)
Definition Test_create (k : Z) (data : string) (createdAt : Z) : M Doc :=
  require_models k;;
  i ← fresh_id;
  attempt;;
  modify (with_store k (λ s, mkStore (Test s ++ [mkDoc i data createdAt]) (Metadata s)));;
  mret (mkDoc i data createdAt).

(** [new models[k].Test(d).save()] for an object [d] that carries its [_id]. *)
Definition Test_save (k : Z) (d : Doc) : M Doc :=
  require_models k;; attempt;;
  modify (with_store k (λ s, mkStore (Test s ++ [d]) (Metadata s)));;
  mret d.

Fixpoint update_first (i : Z) (data : string) (l : list Doc) : list Doc :=
  match l with
  | [] => []
  | d :: l' =>
      if bool_decide (doc_id d = i) then mkDoc (doc_id d) data (doc_createdAt d) :: l'
      else d :: update_first i data l'
  end.

(** [models[k].Test.findByIdAndUpdate(i, { data }, { new: true })] *)
Definition Test_findByIdAndUpdate (k : Z) (i : Z) (data : string) : M (option Doc) :=
  require_models k;; attempt;;
  w ← get;
  match list_find (λ d, doc_id d = i) (Test (store_of w k)) with
  | Some (_, d) =>
      modify (with_store k (λ s, mkStore (update_first i data (Test s)) (Metadata s)));;
      mret (Some (mkDoc (doc_id d) data (doc_createdAt d)))
  | None => mret None
  end.

(** ** The registry: reading and mutating the shared descriptors *)

(** Reading a field of [databases[i]]; a missing element is [undefined], and
    reading a property of [undefined] raises a TypeError. *)
Definition get_db (i : nat) : M Db :=
  w ← get;
  match databases w !! i with
  | Some d => mret d
  | None => throw
  end.

Definition set_role (i : nat) (r : Role) : M unit :=
  modify (with_databases (alter (set_role_db r) i)).

Definition set_alive (i : nat) (b : bool) : M unit :=
  modify (with_databases (alter (set_alive_db b) i)).

Definition set_connection (i : nat) (b : bool) : M unit :=
  modify (with_databases (alter (set_connection_db b) i)).

Definition set_term (i : nat) (t : Z) : M unit :=
  modify (with_databases (alter (set_term_db t) i)).

Definition alive_at (w : World) (i : nat) : bool :=
  match databases w !! i with
  | Some d => db_alive d
  | None => false
  end.

Definition id_at (w : World) (i : nat) : Z :=
  match databases w !! i with
  | Some d => db_id d
  | None => 0
  end.

(** The positions of the whole array, in order: [for (let db of databases)]. *)
Definition indices (w : World) : list nat := seq 0 (length (databases w)).

(** ** [getHighestTerm] (server.js, lines 154-157) *)

Definition max_list (l : list Z) : Z :=
  match l with
  | [] => 0
  | t :: ts => foldl Z.max t ts
  end.

Definition getHighestTerm (w : World) : Z :=
  let aliveDbs := filter (λ d, db_alive d = true) (databases w) in
  max_list (db_term <$> aliveDbs).

(** ** [syncDataFromMaster] (lines 159-182) *)

Definition projection (d : Doc) : string * Z := (doc_data d, doc_createdAt d).

Definition syncDataFromMaster (i m : nat) : M unit :=
  db ← get_db i;
  master ← get_db m;
  if bool_decide (db_id db = db_id master) then mret tt
  else
    w ← get;
    if negb (has_models w (db_id db)) || negb (has_models w (db_id master)) then mret tt
    else
      masterData ← Test_find (db_id master);
      Test_deleteMany (db_id db);;
      match masterData with
      | [] => mret tt
      | _ :: _ => Test_insertMany (db_id db) (projection <$> masterData)
      end;;
      master' ← get_db m;
      set_term i (db_term master');;
      Metadata_updateOne (db_id db) (db_term master') false.

(** ** [canBecomeMaster] (lines 184-195) *)

(** [databases.find((d) => d.id === coordinator?.id)] *)
Definition find_coordinator (w : World) : option nat :=
  c ← coordinator w;
  cdb ← databases w !! c;
  fst <$> list_find (λ d, db_id d = db_id cdb) (databases w).

Definition canBecomeMaster (i : nat) : M bool :=
  w ← get;
  let highestTerm := getHighestTerm w in
  db ← get_db i;
  if bool_decide (db_term db < highestTerm) then
    match find_coordinator w with
    | Some m => syncDataFromMaster i m
    | None => mret tt
    end;;
    mret false
  else mret true.

(** ** [electCoordinator] (lines 197-227) *)

(** [.sort((a, b) => b.id - a.id)]: a stable sort by descending id. *)
Fixpoint insert_desc (key : nat → Z) (x : nat) (l : list nat) : list nat :=
  match l with
  | [] => [x]
  | y :: l' => if bool_decide (key x < key y) then y :: insert_desc key x l' else x :: l
  end.

Definition sort_desc (key : nat → Z) (l : list nat) : list nat :=
  foldr (insert_desc key) [] l.

(** [databases.filter((db) => db.alive).sort((a, b) => b.id - a.id)] *)
Definition aliveDbs_of (w : World) : list nat :=
  sort_desc (id_at w) (filter (λ i, alive_at w i = true) (indices w)).

(** The inner loop [for (const other of aliveDbs)] of a won election. *)
Definition demote (db other : nat) : M unit :=
  o ← get_db other;
  d ← get_db db;
  if bool_decide (db_id o ≠ db_id d) then
    set_role other Slave;;
    w ← get;
    set_term other (globalTerm w);;
    Metadata_updateOne (db_id o) (globalTerm w) true;;
    syncDataFromMaster other db
  else mret tt.

Definition promote (aliveDbs : list nat) (db : nat) : M unit :=
  modify (with_coordinator (Some db));;
  set_role db Master;;
  w ← get;
  set_term db (globalTerm w);;
  d ← get_db db;
  Metadata_updateOne (db_id d) (globalTerm w) true;;
  for_each aliveDbs (demote db).

(** The outer loop [for (const db of aliveDbs)], from the candidates still to
    be checked. *)
Fixpoint elect_loop (aliveDbs cands : list nat) : M unit :=
  match cands with
  | [] => modify (with_coordinator None)
  | db :: rest =>
      ok ← canBecomeMaster db;
      if ok : bool then promote aliveDbs db
      else elect_loop aliveDbs rest
  end.

Definition electCoordinator : M unit :=
  modify (λ w, with_globalTerm (globalTerm w + 1) w);;
  w ← get;
  elect_loop (aliveDbs_of w) (aliveDbs_of w).

(** ** [connectDBs] (lines 76-149) *)

(** [createConnection] followed by [waitForConnection]. *)
Definition connect (i : nat) : M unit :=
  attempt;; set_connection i true.

(** [models[db.id] = { Test: ..., Metadata: ... }] *)
Definition set_models (k : Z) : M unit :=
  modify (λ w, with_models ({[k]} ∪ models w) w).

(** A master is known and [db] is not alive: reconnect and resynchronise. *)
Definition reconnect_and_sync (i m : nat) : M unit :=
  try_catch
    (db ← get_db i;
     connect i;;
     set_models (db_id db);;
     Metadata_findOne (db_id db);;
     set_alive i true;;
     syncDataFromMaster i m)
    (set_alive i false;; set_connection i false).

(** A master is known and [db] is alive: only reconnect. *)
Definition check_connection (i : nat) : M unit :=
  try_catch
    (connect i)
    (set_alive i false;; set_connection i false;; set_role i Unknown).

(** No master is known: connect afresh and read the term from storage. *)
Definition fresh_connect (i : nat) : M unit :=
  try_catch
    (db ← get_db i;
     connect i;;
     set_models (db_id db);;
     Metadata_findOne (db_id db);;
     set_alive i true;;
     meta ← Metadata_findOne (db_id db);
     t ← match meta with
         | Some t => mret t
         | None => Metadata_save (db_id db) 0;; mret 0
         end;
     set_term i t)
    (set_alive i false;; set_connection i false;; set_role i Unknown).

Definition connectDBs : M unit :=
  w ← get;
  match list_find (λ d, db_role d = Master) (databases w) with
  | Some (m, _) =>
      for_each (indices w) (λ i,
        db ← get_db i;
        if db_alive db then check_connection i else reconnect_and_sync i m)
  | None => for_each (indices w) fresh_connect
  end.

(** ** [monitor] (lines 230-243): the start of the process and one tick of
    the interval *)

Definition coordinator_alive (w : World) : bool :=
  match coordinator w with
  | Some c => alive_at w c
  | None => false
  end.

Definition boot : M unit :=
  connectDBs;; electCoordinator.

Definition tick : M unit :=
  connectDBs;;
  w ← get;
  if negb (coordinator_alive w) then electCoordinator else mret tt.

(** ** The request handlers (lines 247-332) *)

Inductive Response :=
| BadRequest                       (* 400 "Data is required" *)
| NoCoordinator                    (* 500 "No coordinator available" *)
| ServerError                      (* 500 with the message of the exception *)
| Created (name : string) (term : Z)  (* 201 *)
| NotFound                         (* 404 "Document not found in master" *)
| Updated (updated : Doc)          (* 200 *)
| Unavailable                      (* 404 "Database not found or not alive" *)
| ReadOk (from : string) (role : Role) (term : Z) (data : list (string * Z)).

(** [!data] for the [data] field of the request body. *)
Definition falsy (data : option string) : bool :=
  match data with
  | None => true
  | Some s => bool_decide (s = EmptyString)
  end.

(** The [data] field of a request that has passed the [!data] test. *)
Definition payload (data : option string) : string := default EmptyString data.

(** [databases.filter((d) => d.alive && d.id !== coordinator.id)] *)
Definition slaves_of (w : World) (c : nat) : list nat :=
  filter (λ j, alive_at w j = true ∧ id_at w j ≠ id_at w c) (indices w).

Definition propagate_write (savedDoc : Doc) (s : nat) : M unit :=
  slave ← get_db s;
  w ← get;
  if has_models w (db_id slave) then
    try_catch (Test_save (db_id slave) savedDoc;; mret tt) (set_alive s false)
  else mret tt.

(** [app.post("/api/write")] with [now] the value of [new Date()]. *)
Definition write (data : option string) (now : Z) : M Response :=
  if falsy data then mret BadRequest
  else
    w ← get;
    if negb (coordinator_alive w) then mret NoCoordinator
    else
      try_catch
        (let c := default 0%nat (coordinator w) in
         cdb ← get_db c;
         savedDoc ← Test_create (db_id cdb) (payload data) now;
         w1 ← get;
         for_each (slaves_of w1 c) (propagate_write savedDoc);;
         cdb' ← get_db c;
         mret (Created (db_name cdb') (db_term cdb')))
        (mret ServerError).

Definition propagate_update (i : Z) (data : string) (s : nat) : M unit :=
  try_catch
    (slave ← get_db s;
     w ← get;
     if has_models w (db_id slave) then
       Test_findByIdAndUpdate (db_id slave) i data;; mret tt
     else mret tt)
    (set_alive s false).

(** [app.put("/api/update/:id")] *)
Definition update (i : Z) (data : option string) : M Response :=
  if falsy data then mret BadRequest
  else
    w ← get;
    if negb (coordinator_alive w) then mret NoCoordinator
    else
      try_catch
        (let c := default 0%nat (coordinator w) in
         cdb ← get_db c;
         updatedDoc ← Test_findByIdAndUpdate (db_id cdb) i (payload data);
         match updatedDoc with
         | None => mret NotFound
         | Some u =>
             w1 ← get;
             for_each (slaves_of w1 c) (propagate_update i (payload data));;
             mret (Updated u)
         end)
        (mret ServerError).

(** [app.get("/api/read/:dbId")] *)
Definition read (dbId : Z) : M Response :=
  w ← get;
  match list_find (λ d, db_id d = dbId) (databases w) with
  | None => mret Unavailable
  | Some (_, db) =>
      if negb (db_alive db) then mret Unavailable
      else
        try_catch
          (docs ← Test_find_limit (db_id db) 10;
           mret (ReadOk (db_name db) (db_role db) (db_term db) (projection <$> docs)))
          (mret ServerError)
  end.

(** ** The initial state and the reachable states *)

(** The array [databases] as the source declares it. *)
Definition new_db (k : Z) (n : string) : Db := mkDb k n Unknown false false 0.

Definition databases0 : list Db := [new_db 2 "db3"; new_db 1 "db2"].

(** What the process finds when it starts: the contents of the servers, the
    next ObjectId and the failures to come. *)
Definition initial (dbs : list (Z * string)) (st : gmap Z Store) (n : Z) (o : list bool) : World :=
  mkWorld ((λ p, new_db p.1 p.2) <$> dbs) None 0 ∅ st n o.

Inductive Request :=
| ReqTick
| ReqWrite (data : option string) (now : Z)
| ReqUpdate (i : Z) (data : option string)
| ReqRead (dbId : Z).

Definition handle (r : Request) (w : World) : World :=
  match r with
  | ReqTick => (tick w).2
  | ReqWrite data now => (write data now w).2
  | ReqUpdate i data => (update i data w).2
  | ReqRead dbId => (read dbId w).2
  end.

(** States between two runs: after [monitor] has started, after every tick
    of the interval and after every request.  Between two runs the
    environment may decide anew which storage calls will fail. *)
Inductive reachable (dbs : list (Z * string)) : World → Prop :=
| reach_boot st n o : reachable dbs (boot (initial dbs st n o)).2
| reach_env w o : reachable dbs w → reachable dbs (with_oracle o w)
| reach_step w r : reachable dbs w → reachable dbs (handle r w).

(** * Vocabulary of the specification

    Relations between the state before and after a run, invariants, and the
    concrete scenarios used below. *)

(** A run keeps the relation [R], whatever its outcome. *)
Definition steps {A} (R : relation World) (m : M A) : Prop := ∀ w, R w (m w).2.

(** The fields of a descriptor that only [connectDBs], the election and the
    handlers change. *)
Definition db_static (d : Db) : Z * string * Role * bool :=
  (db_id d, db_name d, db_role d, db_alive d).

(** A quiet run touches only terms, connections, stores, the ObjectId counter
    and the oracle. *)
Definition quiet : relation World := λ w w',
  coordinator w' = coordinator w ∧
  globalTerm w' = globalTerm w ∧
  models w' = models w ∧
  db_static <$> databases w' = db_static <$> databases w.

(** Every descriptor with role master is the tracked coordinator, and it is
    alive. *)
Definition Inv (w : World) : Prop :=
  ∀ i d, databases w !! i = Some d → db_role d = Master →
         coordinator w = Some i ∧ db_alive d = true.

(** No descriptor has the role master. *)
Definition NoMaster (w : World) : Prop :=
  ∀ i d, databases w !! i = Some d → db_role d ≠ Master.

(** [databases[i].role] *)
Definition role_at (w : World) (i : nat) : Role :=
  match databases w !! i with
  | Some d => db_role d
  | None => Unknown
  end.

(** A run that keeps the coordinator and the invariant. *)
Definition keepsI : relation World := λ w w',
  coordinator w' = coordinator w ∧ (Inv w → Inv w').

(** The same for a descriptor [j] that is known not to be the master: it may
    be marked dead. *)
Definition keepsN (j : nat) : relation World := λ w w',
  coordinator w' = coordinator w ∧
  (Inv w ∧ role_at w j ≠ Master → Inv w' ∧ role_at w' j ≠ Master).

(** A replica is not the coordinator: marking it dead keeps the invariant. *)
Definition keepsC (s : nat) : relation World := λ w w',
  coordinator w' = coordinator w ∧
  (Inv w ∧ coordinator w ≠ Some s → Inv w').

(** The ids and names of [databases0]. *)
Definition cfg0 : list (Z * string) := [(2, "db3"); (1, "db2")].

(** What a run does to a descriptor [db] it never promotes: the role of [db]
    stays, or becomes slave, and [db] does not become the coordinator. *)
Definition passes_over (db : nat) : relation World := λ w w',
  (role_at w' db = role_at w db ∨ role_at w' db = Slave) ∧
  (coordinator w' = Some db → coordinator w = Some db).

(** A node that comes back with term 1 while the other alive node holds
    term 3. *)
Definition w_stale : World :=
  mkWorld [mkDb 2 "db3" Unknown true true 1; mkDb 1 "db2" Unknown true true 3]
          None 3 {[2; 1]} ∅ 0 [].

(** A replica that connects for the first time while a master is known: its
    database holds no term document yet.  The master holds one record. *)
Definition w_rejoin : World :=
  mkWorld [mkDb 2 "db3" Master true true 1; mkDb 1 "db2" Unknown true true 0]
          (Some 0%nat) 1 {[2; 1]}
          {[2 := mkStore [mkDoc 7 "a" 5] (Some 1)]} 100 [].

(** Both databases hold the persisted term 5 of an earlier process. *)
Definition st_restart : gmap Z Store :=
  {[2 := mkStore [] (Some 5); 1 := mkStore [] (Some 5)]}.

(** Both nodes are up when the process starts; the first ten storage calls
    succeed and the eleventh, the bulk insert into the replica during the
    election, fails. *)
Definition w_fail : World :=
  initial cfg0
    {[2 := mkStore [mkDoc 7 "a" 5] (Some 0); 1 := mkStore [mkDoc 8 "old" 3] (Some 0)]}
    100 (replicate 10 true ++ [false]).

(** The process before any node has been elected. *)
Definition w_idle : World := initial cfg0 ∅ 0 [].

(** What the propagation loop may change: it marks descriptors dead, it
    leaves the coordinator's database [kc] alone, and every other database
    is as before or has received the write ([Φ]). *)
Definition told (Φ : Store → Prop) (kc : Z) : relation World := λ w w',
  (∀ j d, databases w !! j = Some d →
     ∃ d', databases w' !! j = Some d' ∧ (d' = d ∨ d' = set_alive_db false d)) ∧
  coordinator w' = coordinator w ∧
  models w' = models w ∧
  store_of w' kc = store_of w kc ∧
  (∀ k, store_of w' k = store_of w k ∨ Φ (store_of w' k)).

(** One pass of the loop body for the replica [s]: it returns normally, and
    either the replica's database has received the write, or the replica is
    marked dead. *)
Definition replica_step (Φ : Store → Prop) (s : nat) (body : M unit) : Prop :=
  ∀ w d, databases w !! s = Some d →
    ∃ w', body w = (Ok tt, w') ∧
      coordinator w' = coordinator w ∧ models w' = models w ∧
      (∀ k, k ≠ db_id d → store_of w' k = store_of w k) ∧
      ((databases w' = databases w ∧
        (if has_models w (db_id d) then Φ (store_of w' (db_id d))
         else store_of w' (db_id d) = store_of w (db_id d))) ∨
       (databases w' = alter (set_alive_db false) s (databases w) ∧
        store_of w' (db_id d) = store_of w (db_id d))).

(** The record with id [i], if the collection has one, carries [data]. *)
Definition has_payload (i : Z) (data : string) (S : Store) : Prop :=
  update_first i data (Test S) = Test S.

(** Storage calls leave the registry, the coordinator and the models as they
    are. *)
Definition storage_only : relation World := λ w w',
  databases w' = databases w ∧ coordinator w' = coordinator w ∧
  globalTerm w' = globalTerm w ∧ models w' = models w.

(** Scenario B starts here: db3 is the coordinator at term 1, db2 its
    replica. *)
Definition w_settled : World := (boot (initial cfg0 ∅ 0 [])).2.

(** The id and the liveness flag of a descriptor. *)
Definition db_frame (d : Db) : Z * bool := (db_id d, db_alive d).

(** A run that changes neither the ids nor the liveness flags. *)
Definition same_nodes : relation World := λ w w',
  db_frame <$> databases w' = db_frame <$> databases w.

(** The election does not leave the coordinator it has set. *)
Definition tracks (c : nat) : relation World := λ w w',
  coordinator w = Some c → coordinator w' = Some c.

(** The winner [c] with database [kc] holds the new term [g]. *)
Definition promoted (c : nat) (g kc : Z) (w : World) : Prop :=
  coordinator w = Some c ∧ globalTerm w = g ∧
  (∃ cdb, databases w !! c = Some cdb ∧ db_id cdb = kc ∧
          db_role cdb = Master ∧ db_term cdb = g) ∧
  Metadata (store_of w kc) = Some g ∧ has_models w kc = true.

(** The node [j] is a slave at term [g] with a copy of the records of [kc]. *)
Definition demoted (g kc : Z) (j : nat) (w : World) : Prop :=
  ∃ d, databases w !! j = Some d ∧ db_role d = Slave ∧ db_term d = g ∧
       Metadata (store_of w (db_id d)) = Some g ∧
       projection <$> Test (store_of w (db_id d)) =
         projection <$> Test (store_of w kc).

(** Scenario A: two nodes, both alive, terms 0 and 0. *)
Definition w_connected : World := (connectDBs (initial cfg0 ∅ 0 [])).2.

(** [alive] becomes [true] only after [models[db.id]] has been assigned. *)
Definition alive_have_models (w : World) : Prop :=
  ∀ i d, databases w !! i = Some d → db_alive d = true → has_models w (db_id d) = true.

(** A run that defines models and marks descriptors dead, but revives none
    except possibly [i]. *)
Definition revives (i : option nat) : relation World := λ w w',
  db_id <$> databases w' = db_id <$> databases w ∧
  models w ⊆ models w' ∧
  (∀ j, Some j ≠ i → alive_at w' j = true → alive_at w j = true).

(** Scenario D starts from a settled cluster with one record: the
    coordinator db3 does not answer at the next tick, the replica db2 does. *)
Definition w_written : World := (write (Some "r") 9 w_settled).2.

Definition w_failover : World := (tick (with_oracle [false; true] w_written)).2.

(** Scenario C: a second record is written while db3 is down, then db3 comes
    back at the next tick. *)
Definition w_rejoined : World := (tick (write (Some "s") 10 w_failover).2).2.

(** * More of the program *)

(** ** [app.get("/api/status")] (lines 334-346) *)

Record StatusEntry := mkStatus {
  st_id : Z;
  st_name : string;
  st_alive : bool;
  st_role : Role;
  st_term : Z;
  st_isCoordinator : bool
}.

(** [coordinator?.id === db.id] *)
Definition is_coordinator (w : World) (d : Db) : bool :=
  match coordinator w ≫= (λ c, databases w !! c) with
  | Some cdb => bool_decide (db_id cdb = db_id d)
  | None => false
  end.

Definition status (w : World) : list StatusEntry :=
  (λ d, mkStatus (db_id d) (db_name d) (db_alive d) (db_role d) (db_term d)
                 (is_coordinator w d)) <$> databases w.

(** The part of [fresh_connect] that reads the term, creating the term
    document when there is none. *)
Definition read_term (i : nat) (k : Z) : M unit :=
  meta ← Metadata_findOne k;
  t ← match meta with
      | Some t => mret t
      | None => Metadata_save k 0;; mret 0
      end;
  set_term i t.

(** ** The write handler of [server_1.js] (lines 142-170)

    The earlier server shares the registry, the models and the coordinator
    with [server.js]; its write handler logs a failed copy and leaves the
    replica as it is. *)

Module Server1.

Definition propagate_write (savedDoc : Doc) (s : nat) : M unit :=
  slave ← get_db s;
  w ← get;
  if has_models w (db_id slave) then
    try_catch (Test_save (db_id slave) savedDoc;; mret tt) (mret tt)
  else mret tt.

Definition write (data : option string) (now : Z) : M Response :=
  if falsy data then mret BadRequest
  else
    w ← get;
    if negb (coordinator_alive w) then mret NoCoordinator
    else
      try_catch
        (let c := default 0%nat (coordinator w) in
         cdb ← get_db c;
         savedDoc ← Test_create (db_id cdb) (payload data) now;
         w1 ← get;
         for_each (slaves_of w1 c) (propagate_write savedDoc);;
         cdb' ← get_db c;
         mret (Created (db_name cdb') (db_term cdb')))
        (mret ServerError).

End Server1.

(** * Vocabulary of the further properties *)

(** [databases[i].term] *)
Definition term_at (w : World) (i : nat) : Z :=
  match databases w !! i with
  | Some d => db_term d
  | None => 0
  end.

(** A run that leaves [globalTerm] as it is. *)
Definition same_globalTerm : relation World := λ w w',
  globalTerm w' = globalTerm w.

(** A run that only consumes answers of the environment. *)
Definition only_oracle : relation World := λ w w',
  w' = with_oracle (oracle w') w.

(** A run that changes no store other than the one of node [k]. *)
Definition touches_only (k : Z) : relation World := λ w w',
  ∀ k', k' ≠ k → store_of w' k' = store_of w k'.

(** A run that changes roles only by resetting them to unknown. *)
Definition resets_roles : relation World := λ w w',
  ∀ i, role_at w' i = role_at w i ∨ role_at w' i = Unknown.

(** A run that leaves the registry and the term document of node [k] as they
    are. *)
Definition keeps_terms (k : Z) : relation World := λ w w',
  databases w' = databases w ∧ Metadata (store_of w' k) = Metadata (store_of w k).

(** A run that leaves the descriptor [c] as it is. *)
Definition keeps_node (c : nat) : relation World := λ w w',
  databases w' !! c = databases w !! c.

(** A descriptor without its liveness flag. *)
Definition but_alive (d : Db) : Z * string * Role * bool * Z :=
  (db_id d, db_name d, db_role d, db_connection d, db_term d).

(** Two states that differ at most in the liveness flags of the registry. *)
Definition same_but_liveness : relation World := λ w w',
  but_alive <$> databases w' = but_alive <$> databases w ∧
  coordinator w' = coordinator w ∧ globalTerm w' = globalTerm w ∧
  models w' = models w ∧ stores w' = stores w ∧ nextId w' = nextId w ∧
  oracle w' = oracle w.

(** A turn of the connection loop at [j] leaves the other descriptors and the
    id of [j] as they are. *)
Definition only_node (j : nat) : relation World := λ w w',
  (∀ i, i ≠ j → databases w' !! i = databases w !! i) ∧ id_at w' j = id_at w j.

(** No term document is lost or changed. *)
Definition meta_grows : relation World := λ w w',
  ∀ k t, Metadata (store_of w k) = Some t → Metadata (store_of w' k) = Some t.

(** Node [i], if alive, holds the term of its term document. *)
Definition term_persisted (w : World) (i : nat) : Prop :=
  alive_at w i = true → Metadata (store_of w (id_at w i)) = Some (term_at w i).

(** The id and the creation time of a record. *)
Definition identity (d : Doc) : Z * Z := (doc_id d, doc_createdAt d).

(** A run that only appends records and leaves every term document as it is. *)
Definition only_appends : relation World := λ w w',
  ∀ k, Test (store_of w k) `prefix_of` Test (store_of w' k) ∧
       Metadata (store_of w' k) = Metadata (store_of w k).

(** A run that keeps the records of every database in place, with their ids
    and creation times, and leaves every term document as it is. *)
Definition keeps_records : relation World := λ w w',
  ∀ k, identity <$> Test (store_of w' k) = identity <$> Test (store_of w k) ∧
       Metadata (store_of w' k) = Metadata (store_of w k).

(** The configuration of a descriptor: what [databases] declares and no code
    assigns. *)
Definition config (d : Db) : Z * string := (db_id d, db_name d).

Definition same_config : relation World := λ w w',
  config <$> databases w' = config <$> databases w.

(** Every call is answered from now on, the models of the databases in [S]
    are defined, and the registry holds the nodes with the ids [ids]. *)
Definition calm (S : gset Z) (ids : list Z) (w : World) : Prop :=
  oracle w = [] ∧ S ⊆ models w ∧ db_id <$> databases w = ids.

(** [m] returns normally from every state in [P], into a state in [P]. *)
Definition returns {A} (P : World → Prop) (m : M A) : Prop :=
  ∀ w, P w → ∃ a w', m w = (Ok a, w') ∧ P w'.

(** The positions [l] are nodes whose databases are in [S]. *)
Definition covered (S : gset Z) (ids : list Z) (l : list nat) : Prop :=
  ∀ j, j ∈ l → ∃ k, ids !! j = Some k ∧ k ∈ S.

(** * Reasoning about runs *)

(** The process starts from the array the source declares. *)
Lemma initial_databases0 st n o : databases (initial cfg0 st n o) = databases0.
Proof. reflexivity. Qed.

(** ** The scenarios of the specification, run on the model *)

(** The comparator [(a, b) => b.id - a.id] with a stable sort: equal ids keep
    their order. *)
Example sort_desc_stable :
  sort_desc (λ i, match i with 1%nat => 2 | _ => 1 end) [0; 1; 2]%nat = [1; 0; 2]%nat.
Proof. reflexivity. Qed.

(** Scenario A: two nodes, both alive, terms 0 and 0: the node with the
    higher id becomes master at term 1, the other is resynchronised to term 1
    with an empty record set. *)
Example scenario_A :
  boot (initial cfg0 ∅ 0 []) =
    (Ok tt, w_settled) ∧
  databases w_settled =
    [mkDb 2 "db3" Master true true 1; mkDb 1 "db2" Slave true true 1] ∧
  coordinator w_settled = Some 0%nat ∧
  store_of w_settled 1 = mkStore [] (Some 1).
Proof. vm_compute. repeat split; reflexivity. Qed.

(** Scenario D: the coordinator is found dead by the next tick; the election
    leaves it out and promotes the other node at term 2. *)
Example scenario_D :
  databases w_failover =
    [mkDb 2 "db3" Unknown false false 1; mkDb 1 "db2" Master true true 2] ∧
  coordinator w_failover = Some 1%nat ∧ globalTerm w_failover = 2.
Proof. vm_compute. repeat split; reflexivity. Qed.

(** Scenario C: the node that was down at term 1 comes back while the
    coordinator is at term 2: the tick resynchronises it, its term is 2 and
    its records carry the coordinator's payloads and creation times. *)
Example scenario_C :
  databases w_rejoined =
    [mkDb 2 "db3" Unknown true true 2; mkDb 1 "db2" Master true true 2] ∧
  coordinator w_rejoined = Some 1%nat ∧
  projection <$> Test (store_of w_rejoined 2) = [("r", 9); ("s", 10)] ∧
  projection <$> Test (store_of w_rejoined 1) = [("r", 9); ("s", 10)] ∧
  Metadata (store_of w_rejoined 2) = Some 2.
Proof. vm_compute. repeat split; reflexivity. Qed.

(** Scenario E: all nodes are down: no coordinator, and a write fails. *)
Example scenario_E :
  let w := (boot (initial cfg0 ∅ 0 [false; false])).2 in
  coordinator w = None ∧ (write (Some "r") 9 w).1 = Ok NoCoordinator.
Proof. vm_compute. repeat split; reflexivity. Qed.


Lemma bind_run {A B} (m : M A) (f : A → M B) (w : World) :
  (m ≫= f) w = match m w with
               | (Ok a, w') => f a w'
               | (Throw, w') => (Throw, w')
               end.
Proof. reflexivity. Qed.

Lemma bind_ok_inv {A B} (m : M A) (f : A → M B) (w w' : World) (b : B) :
  (m ≫= f) w = (Ok b, w') →
  ∃ a w1, m w = (Ok a, w1) ∧ f a w1 = (Ok b, w').
Proof.
  rewrite bind_run. destruct (m w) as [[a|] w1]; [eauto | discriminate].
Qed.

(** ** Relations kept by every run, whatever its outcome *)

Section Steps.
Context (R : relation World) `{!PreOrder R}.

Local Abbreviation steps := (steps R).

Lemma steps_ret {A} (a : A) : steps (mret a).
Proof. intros w. reflexivity. Qed.

Lemma steps_get : steps get.
Proof. intros w. reflexivity. Qed.

Lemma steps_throw {A} : steps (@throw A).
Proof. intros w. reflexivity. Qed.

Lemma steps_bind {A B} (m : M A) (f : A → M B) :
  steps m → (∀ a, steps (f a)) → steps (m ≫= f).
Proof.
  intros Hm Hf w. rewrite bind_run. specialize (Hm w).
  destruct (m w) as [[a|] w1]; simpl in *; [|done].
  etrans; [exact Hm | apply Hf].
Qed.

Lemma steps_try {A} (body handler : M A) :
  steps body → steps handler → steps (try_catch body handler).
Proof.
  intros Hb Hh w. unfold try_catch. specialize (Hb w).
  destruct (body w) as [[a|] w1]; simpl in *; [done|].
  etrans; [exact Hb | apply Hh].
Qed.

Lemma steps_for_each {A} (l : list A) (body : A → M unit) :
  (∀ x, steps (body x)) → steps (for_each l body).
Proof.
  intros Hb. induction l as [|x l IH]; simpl.
  - apply steps_ret.
  - apply steps_bind; auto.
Qed.

Lemma steps_modify (f : World → World) :
  (∀ w, R w (f w)) → steps (modify f).
Proof. intros Hf w. apply Hf. Qed.

Lemma steps_attempt :
  (∀ w o, R w (with_oracle o w)) → steps attempt.
Proof.
  intros Ho w. unfold attempt.
  destruct (oracle w) as [|[] o]; simpl; [reflexivity | apply Ho | apply Ho].
Qed.

Lemma steps_require_models k : steps (require_models k).
Proof.
  apply steps_bind; [apply steps_get|]. intros w.
  destruct (has_models w k); [apply steps_ret | apply steps_throw].
Qed.

Lemma steps_get_db i : steps (get_db i).
Proof.
  apply steps_bind; [apply steps_get|]. intros w.
  destruct (databases w !! i); [apply steps_ret | apply steps_throw].
Qed.

End Steps.

(** ** Runs that touch only terms, connections and stores *)

#[global] Instance quiet_preorder : PreOrder quiet.
Proof.
  split.
  - intros w. by repeat split.
  - intros w1 w2 w3 (?&?&?&?) (?&?&?&?). repeat split; congruence.
Qed.

Lemma fmap_alter_same {A B} (g : A → B) (f : A → A) (i : nat) (l : list A) :
  (∀ x, g (f x) = g x) → g <$> alter f i l = g <$> l.
Proof.
  intros Hg. revert i.
  induction l as [|x l IH]; intros [|i]; csimpl; [done | done | | ].
  - by rewrite Hg.
  - by rewrite IH.
Qed.

Ltac steps_with leaf :=
  repeat first
    [ solve [leaf]
    | simple apply steps_ret; apply _ | simple apply steps_get; apply _
    | simple apply steps_throw; apply _
    | simple apply steps_require_models; apply _
    | simple apply steps_get_db; apply _
    | simple apply steps_try; [apply _ | |]
    | simple apply steps_for_each; [apply _ | intros ?]
    | simple apply steps_bind; [apply _ | | intros ?]
    | progress cbv zeta
    | match goal with
      | |- steps _ (if ?b then _ else _) => destruct b
      | |- steps _ (match ?x with _ => _ end) => destruct x
      end ].

Create HintDb quiet.

Ltac steps_go := steps_with ltac:(auto with quiet nocore).

Lemma quiet_attempt : steps quiet attempt.
Proof. apply steps_attempt; [apply _|]. intros w o. by repeat split. Qed.

Lemma quiet_fresh_id : steps quiet fresh_id.
Proof. intros w. by repeat split. Qed.

Lemma quiet_with_store k f : steps quiet (modify (with_store k f)).
Proof. intros w. by repeat split. Qed.

Lemma quiet_set_term i t : steps quiet (set_term i t).
Proof.
  intros w. repeat split. simpl. by apply fmap_alter_same.
Qed.

Lemma quiet_set_connection i b : steps quiet (set_connection i b).
Proof.
  intros w. repeat split. simpl. by apply fmap_alter_same.
Qed.

Lemma quiet_new_docs l : steps quiet (new_docs l).
Proof.
  induction l as [|[d c] l IH]; simpl; steps_go; auto using quiet_fresh_id.
Qed.

#[global] Hint Resolve quiet_attempt quiet_fresh_id quiet_with_store
  quiet_set_term quiet_set_connection quiet_new_docs : quiet.

Lemma quiet_Metadata_findOne k : steps quiet (Metadata_findOne k).
Proof. unfold Metadata_findOne. steps_go. Qed.

Lemma quiet_Metadata_save k t : steps quiet (Metadata_save k t).
Proof. unfold Metadata_save. steps_go. Qed.

Lemma quiet_Metadata_updateOne k t u : steps quiet (Metadata_updateOne k t u).
Proof. unfold Metadata_updateOne. steps_go. Qed.

Lemma quiet_Test_find k : steps quiet (Test_find k).
Proof. unfold Test_find. steps_go. Qed.

Lemma quiet_Test_find_limit k n : steps quiet (Test_find_limit k n).
Proof. unfold Test_find_limit. steps_go. Qed.

Lemma quiet_Test_deleteMany k : steps quiet (Test_deleteMany k).
Proof. unfold Test_deleteMany. steps_go. Qed.

Lemma quiet_Test_insertMany k l : steps quiet (Test_insertMany k l).
Proof. unfold Test_insertMany. steps_go. Qed.

Lemma quiet_Test_create k d c : steps quiet (Test_create k d c).
Proof. unfold Test_create. steps_go. Qed.

Lemma quiet_Test_save k d : steps quiet (Test_save k d).
Proof. unfold Test_save. steps_go. Qed.

Lemma quiet_Test_findByIdAndUpdate k i d : steps quiet (Test_findByIdAndUpdate k i d).
Proof. unfold Test_findByIdAndUpdate. steps_go. Qed.

#[global] Hint Resolve quiet_Metadata_findOne quiet_Metadata_save
  quiet_Metadata_updateOne quiet_Test_find quiet_Test_find_limit
  quiet_Test_deleteMany quiet_Test_insertMany quiet_Test_create
  quiet_Test_save quiet_Test_findByIdAndUpdate : quiet.

Lemma quiet_syncDataFromMaster i m : steps quiet (syncDataFromMaster i m).
Proof. unfold syncDataFromMaster. steps_go. Qed.

Lemma quiet_canBecomeMaster i : steps quiet (canBecomeMaster i).
Proof.
  unfold canBecomeMaster. steps_go; auto using quiet_syncDataFromMaster.
Qed.

#[global] Hint Resolve quiet_syncDataFromMaster quiet_canBecomeMaster : quiet.

(** What a quiet run leaves as it was. *)
Lemma quiet_lookup w w' i d' :
  quiet w w' → databases w' !! i = Some d' →
  ∃ d, databases w !! i = Some d ∧ db_static d = db_static d'.
Proof.
  intros (_&_&_&H) Hd.
  assert (Hl : (db_static <$> databases w) !! i = Some (db_static d')).
  { rewrite <- H. rewrite list_lookup_fmap, Hd. done. }
  rewrite list_lookup_fmap in Hl.
  destruct (databases w !! i) as [d|]; [|done].
  exists d. split; [done|]. simpl in Hl. congruence.
Qed.

Lemma quiet_sym_lookup w w' i d :
  quiet w w' → databases w !! i = Some d →
  ∃ d', databases w' !! i = Some d' ∧ db_static d = db_static d'.
Proof.
  intros (_&_&_&H) Hd.
  assert (Hl : (db_static <$> databases w') !! i = Some (db_static d)).
  { rewrite H. rewrite list_lookup_fmap, Hd. done. }
  rewrite list_lookup_fmap in Hl.
  destruct (databases w' !! i) as [d'|]; [|done].
  exists d'. split; [done|]. simpl in Hl. congruence.
Qed.

Lemma quiet_length w w' : quiet w w' → length (databases w') = length (databases w).
Proof.
  intros (_&_&_&H). apply (f_equal length) in H. by rewrite !length_fmap in H.
Qed.

(** * C1: at most one master *)

Lemma steps_mono {A} (R R' : relation World) (m : M A) :
  (∀ w w', R w w' → R' w w') → steps R m → steps R' m.
Proof. intros H Hm w. apply H, Hm. Qed.

Lemma quiet_Inv w w' : quiet w w' → Inv w → Inv w'.
Proof.
  intros Hq HI i d' Hd' Hr.
  destruct (quiet_lookup _ _ _ _ Hq Hd') as (d & Hd & Hs).
  destruct Hq as (Hc & _). rewrite Hc.
  unfold db_static in Hs. simplify_eq.
  destruct (HI i d) as [? ?]; [done | congruence |]. split; congruence.
Qed.

Lemma quiet_NoMaster w w' : quiet w w' → NoMaster w → NoMaster w'.
Proof.
  intros Hq HN i d' Hd'.
  destruct (quiet_lookup _ _ _ _ Hq Hd') as (d & Hd & Hs).
  unfold db_static in Hs. simplify_eq. specialize (HN i d Hd). congruence.
Qed.

Lemma quiet_alive_at w w' i : quiet w w' → alive_at w' i = alive_at w i.
Proof.
  intros Hq. unfold alive_at.
  destruct (databases w' !! i) as [d'|] eqn:Hd'.
  - destruct (quiet_lookup _ _ _ _ Hq Hd') as (d & Hd & Hs).
    rewrite Hd. unfold db_static in Hs. by simplify_eq.
  - destruct (databases w !! i) as [d|] eqn:Hd; [|done].
    destruct (quiet_sym_lookup _ _ _ _ Hq Hd) as (d' & Hd'' & _). congruence.
Qed.

Lemma quiet_role_at w w' i : quiet w w' → role_at w' i = role_at w i.
Proof.
  intros Hq. unfold role_at.
  destruct (databases w' !! i) as [d'|] eqn:Hd'.
  - destruct (quiet_lookup _ _ _ _ Hq Hd') as (d & Hd & Hs).
    rewrite Hd. unfold db_static in Hs. by simplify_eq.
  - destruct (databases w !! i) as [d|] eqn:Hd; [|done].
    destruct (quiet_sym_lookup _ _ _ _ Hq Hd) as (d' & Hd'' & _). congruence.
Qed.

Lemma quiet_id_at w w' i : quiet w w' → id_at w' i = id_at w i.
Proof.
  intros Hq. unfold id_at.
  destruct (databases w' !! i) as [d'|] eqn:Hd'.
  - destruct (quiet_lookup _ _ _ _ Hq Hd') as (d & Hd & Hs).
    rewrite Hd. unfold db_static in Hs. by simplify_eq.
  - destruct (databases w !! i) as [d|] eqn:Hd; [|done].
    destruct (quiet_sym_lookup _ _ _ _ Hq Hd) as (d' & Hd'' & _). congruence.
Qed.

(** ** [connectDBs] keeps the invariant and the coordinator *)

Lemma lookup_alter_Some {A} (f : A → A) (i j : nat) (l : list A) (y : A) :
  alter f i l !! j = Some y →
  ∃ x, l !! j = Some x ∧ y = (if decide (i = j) then f x else x).
Proof.
  intros H. destruct (decide (i = j)) as [->|Hij].
  - rewrite list_lookup_alter_eq in H.
    destruct (l !! j) as [x|]; simplify_eq/=. eauto.
  - rewrite list_lookup_alter_ne in H by done. eauto.
Qed.

Lemma Inv_alter (f : Db → Db) (j : nat) (w : World) :
  Inv w →
  (∀ d, databases w !! j = Some d → db_role (f d) = Master →
        db_role d = Master ∧ db_alive (f d) = true) →
  Inv (with_databases (alter f j) w).
Proof.
  intros HI Hf i d' Hd' Hr. simpl in *.
  apply lookup_alter_Some in Hd' as (d & Hd & ->).
  destruct (decide (j = i)) as [->|_]; [|by apply HI].
  destruct (Hf d Hd Hr) as [Hm Ha]. split; [|done]. by apply (HI i d).
Qed.

Lemma role_at_alter (f : Db → Db) (j i : nat) (w : World) :
  (∀ d, db_role (f d) = db_role d) →
  role_at (with_databases (alter f j) w) i = role_at w i.
Proof.
  intros Hf. unfold role_at. simpl.
  destruct (decide (j = i)) as [->|Hij].
  - rewrite list_lookup_alter_eq. destruct (databases w !! i); simpl; auto.
  - by rewrite list_lookup_alter_ne.
Qed.

#[global] Instance keepsI_preorder : PreOrder keepsI.
Proof.
  split.
  - intros w. by split.
  - intros w1 w2 w3 [? ?] [? ?]. split; [congruence | auto].
Qed.

#[global] Instance keepsN_preorder j : PreOrder (keepsN j).
Proof.
  split.
  - intros w. by split.
  - intros w1 w2 w3 [? ?] [? ?]. split; [congruence | auto].
Qed.

Lemma quiet_keepsI w w' : quiet w w' → keepsI w w'.
Proof. intros Hq. split; [apply Hq | by apply quiet_Inv]. Qed.

Lemma quiet_keepsN j w w' : quiet w w' → keepsN j w w'.
Proof.
  intros Hq. split; [apply Hq|]. intros [HI Hr]. split; [by eapply quiet_Inv|].
  by rewrite (quiet_role_at _ _ _ Hq).
Qed.

Lemma keepsI_quiet {A} (m : M A) : steps quiet m → steps keepsI m.
Proof. apply steps_mono, quiet_keepsI. Qed.

Lemma keepsN_quiet {A} j (m : M A) : steps quiet m → steps (keepsN j) m.
Proof. apply steps_mono, quiet_keepsN. Qed.

Lemma keepsI_set_models k : steps keepsI (set_models k).
Proof. intros w. by split. Qed.

Lemma keepsN_set_models j k : steps (keepsN j) (set_models k).
Proof. intros w. by split. Qed.

Lemma keepsI_set_alive_true i : steps keepsI (set_alive i true).
Proof.
  intros w. split; [done|]. intros HI. apply Inv_alter; [done|].
  intros d Hd Hr. simpl in *. auto.
Qed.

Lemma keepsN_set_alive_true j i : steps (keepsN j) (set_alive i true).
Proof.
  intros w. split; [done|]. intros [HI Hr]. split.
  - apply Inv_alter; [done|]. intros d Hd Hr'. simpl in *. auto.
  - simpl. by rewrite role_at_alter.
Qed.

Lemma keepsI_set_role_slave i : steps keepsI (set_role i Slave).
Proof.
  intros w. split; [done|]. intros HI. apply Inv_alter; [done|].
  intros d Hd Hr. simpl in *. done.
Qed.

(** The handlers of the [catch] blocks, as single updates. *)
Lemma catch_unknown_run i w :
  (set_alive i false;; set_connection i false;; set_role i Unknown) w =
  (Ok tt, with_databases
            (alter (set_role_db Unknown ∘ set_connection_db false ∘ set_alive_db false) i) w).
Proof.
  unfold mbind, M_bind, set_alive, set_connection, set_role, modify, with_databases.
  simpl. by rewrite !list_alter_alter_eq.
Qed.

Lemma catch_dead_run i w :
  (set_alive i false;; set_connection i false) w =
  (Ok tt, with_databases (alter (set_connection_db false ∘ set_alive_db false) i) w).
Proof.
  unfold mbind, M_bind, set_alive, set_connection, set_role, modify, with_databases.
  simpl. by rewrite !list_alter_alter_eq.
Qed.

Lemma keepsI_catch_unknown i :
  steps keepsI (set_alive i false;; set_connection i false;; set_role i Unknown).
Proof.
  intros w. rewrite catch_unknown_run. split; [done|]. intros HI.
  apply Inv_alter; [done|]. intros d Hd Hr. simpl in *. done.
Qed.

Lemma keepsN_catch_dead i :
  steps (keepsN i) (set_alive i false;; set_connection i false).
Proof.
  intros w. rewrite catch_dead_run. split; [done|]. intros [HI Hr]. split.
  - apply Inv_alter; [done|]. intros d Hd Hr'. simpl in *.
    unfold role_at in Hr. by rewrite Hd in Hr.
  - simpl. by rewrite role_at_alter.
Qed.

Create HintDb keeps.

#[global] Hint Resolve keepsI_set_models keepsN_set_models keepsI_set_alive_true
  keepsN_set_alive_true keepsI_set_role_slave keepsI_catch_unknown
  keepsN_catch_dead : keeps.

Ltac keeps_leaf :=
  first [ solve [auto with keeps nocore]
        | apply keepsI_quiet; solve [auto with quiet nocore]
        | apply keepsN_quiet; solve [auto with quiet nocore] ].

Lemma quiet_connect i : steps quiet (connect i).
Proof. unfold connect. steps_go. Qed.

#[global] Hint Resolve quiet_connect : quiet.

Lemma keepsI_fresh_connect i : steps keepsI (fresh_connect i).
Proof. unfold fresh_connect. steps_with keeps_leaf. Qed.

Lemma keepsI_check_connection i : steps keepsI (check_connection i).
Proof. unfold check_connection. steps_with keeps_leaf. Qed.

Lemma keepsN_reconnect_and_sync i m : steps (keepsN i) (reconnect_and_sync i m).
Proof. unfold reconnect_and_sync. steps_with keeps_leaf. Qed.

Lemma keepsI_connectDBs : steps keepsI connectDBs.
Proof.
  unfold connectDBs. apply steps_bind; [apply _ | apply steps_get; apply _ |].
  intros w0. destruct (list_find _ _) as [[m dm]|].
  - apply steps_for_each; [apply _|]. intros i w. rewrite bind_run.
    unfold get_db. rewrite bind_run. simpl.
    destruct (databases w !! i) as [d|] eqn:Hd; simpl; [|reflexivity].
    destruct (db_alive d) eqn:Ha.
    + apply keepsI_check_connection.
    + destruct (keepsN_reconnect_and_sync i m w) as [Hc HN].
      split; [done|]. intros HI. apply HN. split; [done|].
      unfold role_at. rewrite Hd. intros Hr.
      destruct (HI i d Hd Hr). congruence.
  - apply steps_for_each; [apply _|]. intros i. apply keepsI_fresh_connect.
Qed.

(** ** The election establishes the invariant *)

Lemma NoMaster_Inv w : NoMaster w → Inv w.
Proof. intros HN i d Hd Hr. by destruct (HN i d Hd). Qed.

Lemma insert_desc_perm key x l : insert_desc key x l ≡ₚ x :: l.
Proof.
  induction l as [|y l IH]; simpl; [done|].
  case_bool_decide; [|done]. rewrite IH. apply Permutation_swap.
Qed.

Lemma sort_desc_perm key l : sort_desc key l ≡ₚ l.
Proof.
  induction l as [|x l IH]; simpl; [done|].
  rewrite insert_desc_perm. by rewrite IH.
Qed.

Lemma elem_of_aliveDbs w i : i ∈ aliveDbs_of w ↔ alive_at w i = true.
Proof.
  unfold aliveDbs_of. rewrite sort_desc_perm, list_elem_of_filter.
  split; [by intros [? _]|]. intros Ha. split; [done|].
  unfold indices. apply elem_of_seq. split; [lia|]. simpl.
  unfold alive_at in Ha. destruct (databases w !! i) eqn:Hd; [|done].
  by apply lookup_lt_Some in Hd.
Qed.

Lemma NoDup_aliveDbs w : NoDup (aliveDbs_of w).
Proof.
  unfold aliveDbs_of. rewrite sort_desc_perm.
  apply NoDup_filter, NoDup_seq.
Qed.

Lemma keepsI_demote db other : steps keepsI (demote db other).
Proof. unfold demote. steps_with keeps_leaf. Qed.

Lemma Inv_promote aliveDbs db w :
  NoMaster w → alive_at w db = true → Inv (promote aliveDbs db w).2.
Proof.
  intros HN Ha.
  set (w2 := with_databases (alter (set_role_db Master) db) (with_coordinator (Some db) w)).
  set (rest := (w ← get;
                set_term db (globalTerm w);;
                d ← get_db db;
                Metadata_updateOne (db_id d) (globalTerm w) true;;
                for_each aliveDbs (demote db)) : M unit).
  assert (Hrun : promote aliveDbs db w = rest w2) by reflexivity.
  rewrite Hrun.
  assert (Hrest : steps keepsI rest).
  { unfold rest. steps_with ltac:(first [apply keepsI_demote | keeps_leaf]). }
  apply Hrest. clear Hrun Hrest rest.
  intros i d' Hd' Hr. simpl in *.
  apply lookup_alter_Some in Hd' as (d & Hd & ->).
  destruct (decide (db = i)) as [->|_].
  - split; [done|]. simpl. unfold alive_at in Ha. by rewrite Hd in Ha.
  - by destruct (HN i d Hd).
Qed.

Lemma Inv_elect_loop aliveDbs cands w :
  NoMaster w → (∀ c, c ∈ cands → alive_at w c = true) →
  Inv (elect_loop aliveDbs cands w).2.
Proof.
  revert w. induction cands as [|db rest IH]; intros w HN Ha; simpl.
  - by apply NoMaster_Inv.
  - rewrite bind_run. pose proof (quiet_canBecomeMaster db w) as Hq.
    destruct (canBecomeMaster db w) as [[[]|] w1]; simpl in *.
    + apply Inv_promote; [by eapply quiet_NoMaster|].
      rewrite (quiet_alive_at _ _ _ Hq). apply Ha. apply list_elem_of_here.
    + apply IH; [by eapply quiet_NoMaster|]. intros c Hc.
      rewrite (quiet_alive_at _ _ _ Hq). apply Ha. by apply list_elem_of_further.
    + apply NoMaster_Inv. by eapply quiet_NoMaster.
Qed.

Lemma Inv_electCoordinator w : NoMaster w → Inv (electCoordinator w).2.
Proof.
  intros HN. unfold electCoordinator. rewrite !bind_run. simpl.
  apply Inv_elect_loop; [done|]. intros c Hc. by apply elem_of_aliveDbs.
Qed.

Lemma Inv_dead_coordinator w : Inv w → coordinator_alive w = false → NoMaster w.
Proof.
  intros HI Hc i d Hd Hr. destruct (HI i d Hd Hr) as [Hco Ha].
  unfold coordinator_alive, alive_at in Hc. rewrite Hco, Hd in Hc. congruence.
Qed.

Lemma Inv_tick w : Inv w → Inv (tick w).2.
Proof.
  intros HI. unfold tick. rewrite bind_run.
  destruct (keepsI_connectDBs w) as [_ Hk]. specialize (Hk HI).
  destruct (connectDBs w) as [[[]|] w1]; simpl in *; [|done].
  rewrite bind_run. simpl.
  destruct (coordinator_alive w1) eqn:Hc; simpl; [done|].
  by apply Inv_electCoordinator, Inv_dead_coordinator.
Qed.

Lemma Inv_boot w : NoMaster w → coordinator w = None → Inv (boot w).2.
Proof.
  intros HN Hnone. unfold boot. rewrite bind_run.
  destruct (keepsI_connectDBs w) as [Hco Hk]. specialize (Hk (NoMaster_Inv _ HN)).
  destruct (connectDBs w) as [[[]|] w1]; simpl in *; [|done].
  apply Inv_electCoordinator, Inv_dead_coordinator; [done|].
  unfold coordinator_alive. by rewrite Hco, Hnone.
Qed.

(** ** The request handlers keep the invariant *)

#[global] Instance keepsC_preorder s : PreOrder (keepsC s).
Proof.
  split.
  - intros w. by split; [|intros []].
  - intros w1 w2 w3 [E1 H1] [E2 H2]. split; [congruence|].
    intros [HI Hc]. apply H2. split; [auto | congruence].
Qed.

Lemma keepsC_quiet {A} s (m : M A) : steps quiet m → steps (keepsC s) m.
Proof.
  apply steps_mono. intros w w' Hq. split; [apply Hq|].
  intros [HI _]. by eapply quiet_Inv.
Qed.

Lemma keepsC_set_alive_false s : steps (keepsC s) (set_alive s false).
Proof.
  intros w. split; [done|]. intros [HI Hc]. apply Inv_alter; [done|].
  intros d Hd Hr. simpl in *. destruct (HI s d Hd Hr). congruence.
Qed.

Ltac keepsC_leaf :=
  first [ apply keepsC_set_alive_false
        | apply keepsC_quiet; solve [auto with quiet nocore] ].

Lemma keepsC_propagate_write doc s : steps (keepsC s) (propagate_write doc s).
Proof. unfold propagate_write. steps_with keepsC_leaf. Qed.

Lemma keepsC_propagate_update i data s : steps (keepsC s) (propagate_update i data s).
Proof. unfold propagate_update. steps_with keepsC_leaf. Qed.

Lemma slaves_of_ne w c s : s ∈ slaves_of w c → s ≠ c.
Proof.
  unfold slaves_of. rewrite list_elem_of_filter. intros [[_ Hne] _] ->. done.
Qed.

(** The propagation loop of both handlers. *)
Lemma keepsI_propagate (body : nat → M unit) (l : list nat) (c : nat) :
  (∀ s, steps (keepsC s) (body s)) → (∀ s, s ∈ l → s ≠ c) →
  ∀ w, coordinator w = Some c → Inv w → Inv (for_each l body w).2.
Proof.
  intros Hb. induction l as [|s l IH]; intros Hl w Hc HI; simpl; [done|].
  rewrite bind_run. destruct (Hb s w) as [Hco Hk].
  assert (HI1 : Inv (body s w).2).
  { apply Hk. split; [done|]. rewrite Hc. intros [= Heq].
    by apply (Hl s); [apply list_elem_of_here|]. }
  destruct (body s w) as [[[]|] w1]; simpl in *; [|done].
  apply IH; [|congruence|done]. intros s' Hs'. apply Hl. by apply list_elem_of_further.
Qed.

Lemma coordinator_alive_Some w :
  coordinator_alive w = true → ∃ c, coordinator w = Some c.
Proof. unfold coordinator_alive. destruct (coordinator w); [eauto | done]. Qed.

Lemma Inv_write data now w : Inv w → Inv (write data now w).2.
Proof.
  intros HI. unfold write. destruct (falsy data); [done|].
  rewrite bind_run. simpl.
  destruct (coordinator_alive w) eqn:Hca; simpl; [|done].
  destruct (coordinator_alive_Some _ Hca) as [c Hc]. rewrite Hc. simpl.
  unfold try_catch.
  match goal with |- Inv (match ?m w with _ => _ end).2 =>
    assert (HI' : Inv (m w).2); [|by destruct (m w) as [[?|] ?]] end.
  rewrite bind_run. pose proof (steps_get_db quiet c w) as Hq0.
  destruct (get_db c w) as [[cdb|] w0]; simpl in *; [|by eapply quiet_Inv].
  rewrite bind_run. pose proof (quiet_Test_create (db_id cdb) (payload data) now w0) as Hq1.
  assert (Hq : quiet w (Test_create (db_id cdb) (payload data) now w0).2) by (by etrans).
  destruct (Test_create _ _ _ w0) as [[doc|] w1]; simpl in *; [|by eapply quiet_Inv].
  rewrite bind_run. simpl. rewrite bind_run.
  assert (HI1 : Inv (for_each (slaves_of w1 c) (propagate_write doc) w1).2).
  { apply (keepsI_propagate _ _ c).
    - apply keepsC_propagate_write.
    - intros s. apply slaves_of_ne.
    - destruct Hq as [-> _]. done.
    - by eapply quiet_Inv. }
  destruct (for_each _ _ w1) as [[[]|] w2]; simpl in *; [|done].
  rewrite bind_run. pose proof (steps_get_db quiet c w2) as Hq2.
  destruct (get_db c w2) as [[cdb'|] w3]; simpl in *; by eapply quiet_Inv.
Qed.

Lemma Inv_update i data w : Inv w → Inv (update i data w).2.
Proof.
  intros HI. unfold update. destruct (falsy data); [done|].
  rewrite bind_run. simpl.
  destruct (coordinator_alive w) eqn:Hca; simpl; [|done].
  destruct (coordinator_alive_Some _ Hca) as [c Hc]. rewrite Hc. simpl.
  unfold try_catch.
  match goal with |- Inv (match ?m w with _ => _ end).2 =>
    assert (HI' : Inv (m w).2); [|by destruct (m w) as [[?|] ?]] end.
  rewrite bind_run. pose proof (steps_get_db quiet c w) as Hq0.
  destruct (get_db c w) as [[cdb|] w0]; simpl in *; [|by eapply quiet_Inv].
  rewrite bind_run.
  pose proof (quiet_Test_findByIdAndUpdate (db_id cdb) i (payload data) w0) as Hq1.
  assert (Hq : quiet w (Test_findByIdAndUpdate (db_id cdb) i (payload data) w0).2) by (by etrans).
  destruct (Test_findByIdAndUpdate _ _ _ w0) as [[[u|]|] w1]; simpl in *;
    [|by eapply quiet_Inv..].
  rewrite bind_run. simpl. rewrite bind_run.
  assert (HI1 : Inv (for_each (slaves_of w1 c) (propagate_update i (payload data)) w1).2).
  { apply (keepsI_propagate _ _ c).
    - apply keepsC_propagate_update.
    - intros s. apply slaves_of_ne.
    - destruct Hq as [-> _]. done.
    - by eapply quiet_Inv. }
  by destruct (for_each _ _ w1) as [[[]|] w2].
Qed.

Lemma quiet_read dbId : steps quiet (read dbId).
Proof. unfold read. steps_go. Qed.

Lemma Inv_handle r w : Inv w → Inv (handle r w).
Proof.
  destruct r; simpl.
  - apply Inv_tick.
  - apply Inv_write.
  - apply Inv_update.
  - intros HI. eapply quiet_Inv; [apply quiet_read | done].
Qed.

Lemma NoMaster_initial dbs st n o : NoMaster (initial dbs st n o).
Proof.
  intros i d Hd. simpl in Hd. rewrite list_lookup_fmap in Hd.
  destruct (dbs !! i); simplify_eq/=. done.
Qed.

Lemma reachable_Inv dbs w : reachable dbs w → Inv w.
Proof.
  induction 1 as [st n o | w o Hw IH | w r Hw IH].
  - apply Inv_boot; [apply NoMaster_initial | done].
  - exact IH.
  - apply Inv_handle. exact IH.
Qed.

(** ** C1 *)



(** * C2: a stale candidate is rejected *)

#[global] Instance passes_over_preorder db : PreOrder (passes_over db).
Proof.
  split.
  - intros w. split; auto.
  - intros w1 w2 w3 [H1 C1] [H2 C2]. split; [|auto].
    destruct H2 as [->| ->]; auto.
Qed.

Lemma passes_over_quiet {A} db (m : M A) : steps quiet m → steps (passes_over db) m.
Proof.
  apply steps_mono. intros w w' Hq. split.
  - left. by apply quiet_role_at.
  - destruct Hq as [-> _]. done.
Qed.

Lemma role_at_set_role w i j r :
  role_at (with_databases (alter (set_role_db r) i) w) j =
  if decide (i = j) then (if decide (j < length (databases w))%nat then r else Unknown)
  else role_at w j.
Proof.
  unfold role_at. simpl. destruct (decide (i = j)) as [->|Hij].
  - rewrite list_lookup_alter_eq. destruct (databases w !! j) eqn:Hd; simpl.
    + apply lookup_lt_Some in Hd. by rewrite decide_True.
    + apply lookup_ge_None in Hd. rewrite decide_False; [done | lia].
  - by rewrite list_lookup_alter_ne.
Qed.

Lemma passes_over_set_role_slave db other : steps (passes_over db) (set_role other Slave).
Proof.
  intros w. split; [|done]. simpl. rewrite role_at_set_role.
  destruct (decide (other = db)) as [->|]; [|by left].
  case_decide; [by right|]. left. unfold role_at.
  rewrite lookup_ge_None_2; [done | lia].
Qed.

Lemma passes_over_set_role_other db x r : x ≠ db → steps (passes_over db) (set_role x r).
Proof.
  intros Hx w. split; [|done]. simpl. rewrite role_at_set_role.
  rewrite decide_False by done. by left.
Qed.

Lemma passes_over_set_coordinator db c :
  c ≠ Some db → steps (passes_over db) (modify (with_coordinator c)).
Proof. intros Hc w. split; [by left|]. simpl. done. Qed.

Lemma passes_over_demote db x other : steps (passes_over db) (demote x other).
Proof.
  unfold demote.
  steps_with ltac:(first [ apply passes_over_set_role_slave
                         | apply passes_over_quiet; solve [auto with quiet nocore] ]).
Qed.

Lemma passes_over_promote db aliveDbs x :
  x ≠ db → steps (passes_over db) (promote aliveDbs x).
Proof.
  intros Hx. unfold promote.
  steps_with ltac:(first [ apply passes_over_demote
                         | apply passes_over_set_role_other; assumption
                         | apply passes_over_set_coordinator; congruence
                         | apply passes_over_quiet; solve [auto with quiet nocore] ]).
Qed.

Lemma passes_over_elect_loop db aliveDbs rest :
  db ∉ rest → steps (passes_over db) (elect_loop aliveDbs rest).
Proof.
  induction rest as [|x rest IH]; intros Hn; simpl.
  - by apply passes_over_set_coordinator.
  - apply not_elem_of_cons in Hn as [Hx Hn].
    apply steps_bind; [apply _ | apply passes_over_quiet; auto with quiet |].
    intros [].
    + by apply passes_over_promote.
    + by apply IH.
Qed.

(** The check of a stale candidate. *)
Lemma canBecomeMaster_stale db d w :
  databases w !! db = Some d → db_term d < getHighestTerm w →
  canBecomeMaster db w =
    (match find_coordinator w with
     | Some m => syncDataFromMaster db m
     | None => mret tt
     end;; mret false) w.
Proof.
  intros Hd Hlt. unfold canBecomeMaster. rewrite bind_run. simpl.
  unfold get_db. rewrite !bind_run. simpl. rewrite Hd. simpl.
  by rewrite bool_decide_eq_true_2.
Qed.

Lemma find_coordinator_Some w c cdb :
  coordinator w = Some c → databases w !! c = Some cdb →
  ∃ m, find_coordinator w = Some m ∧ id_at w m = db_id cdb.
Proof.
  intros Hc Hd. unfold find_coordinator. rewrite Hc. simpl. rewrite Hd. simpl.
  destruct (list_find (λ d, db_id d = db_id cdb) (databases w)) as [[m dm]|] eqn:Hf.
  - apply list_find_Some in Hf as (Hm & Hid & _). exists m. split; [done|].
    unfold id_at. by rewrite Hm.
  - apply list_find_None in Hf. rewrite Forall_forall in Hf.
    destruct (Hf cdb); [|done]. eapply list_elem_of_lookup_2, Hd.
Qed.

(** C2: a candidate whose term is below the highest term of the alive nodes
    when it is checked is rejected: [canBecomeMaster] does not return [true],
    it runs [syncDataFromMaster] from the tracked coordinator when there is
    one, and the remainder of the election pass never makes this candidate
    master nor coordinator. *)
Theorem C2_stale_candidate_rejected
    (aliveDbs rest : list nat) (db : nat) (d : Db) (w : World) :
  databases w !! db = Some d →
  db_term d < getHighestTerm w →
  db ∉ rest →
  (∀ w1, canBecomeMaster db w ≠ (Ok true, w1)) ∧
  (∀ c cdb, coordinator w = Some c → databases w !! c = Some cdb →
     ∃ m, id_at w m = db_id cdb ∧
          canBecomeMaster db w = (syncDataFromMaster db m;; mret false) w) ∧
  (coordinator w = None → canBecomeMaster db w = (Ok false, w)) ∧
  (elect_loop aliveDbs (db :: rest) w =
     (canBecomeMaster db;; elect_loop aliveDbs rest) w) ∧
  (let w' := (elect_loop aliveDbs (db :: rest) w).2 in
   (role_at w' db = role_at w db ∨ role_at w' db = Slave) ∧
   (coordinator w' = Some db → coordinator w = Some db)).
Proof.
  intros Hd Hlt Hn. pose proof (canBecomeMaster_stale db d w Hd Hlt) as Hrun.
  assert (Hno : ∀ w1, canBecomeMaster db w ≠ (Ok true, w1)).
  { intros w1. rewrite Hrun, bind_run. destruct (find_coordinator w) as [m|].
    - destruct (syncDataFromMaster db m w) as [[[]|] w2]; unfold mret, M_ret; congruence.
    - unfold mret, M_ret. congruence. }
  assert (Hloop : elect_loop aliveDbs (db :: rest) w =
                  (canBecomeMaster db;; elect_loop aliveDbs rest) w).
  { simpl. rewrite !bind_run.
    destruct (canBecomeMaster db w) as [[[]|] w1] eqn:Hc; [|done..].
    by destruct (Hno w1). }
  split; [exact Hno|]. split; [|split; [|split; [exact Hloop|]]].
  - intros c cdb Hc Hcd.
    destruct (find_coordinator_Some w c cdb Hc Hcd) as (m & Hm & Hid).
    exists m. split; [done|]. by rewrite Hrun, Hm.
  - intros Hc. rewrite Hrun. unfold find_coordinator. by rewrite Hc.
  - rewrite Hloop.
    assert (Hs : steps (passes_over db) (canBecomeMaster db;; elect_loop aliveDbs rest)).
    { apply steps_bind; [apply _ | apply passes_over_quiet; auto with quiet |].
      intros _. by apply passes_over_elect_loop. }
    apply Hs.
Qed.

Lemma C2_witness : canBecomeMaster 0 w_stale = (Ok false, w_stale).
Proof.
  destruct (C2_stale_candidate_rejected [0; 1]%nat [1%nat] 0%nat
              (mkDb 2 "db3" Unknown true true 1) w_stale) as (_ & _ & Hnone & _).
  - reflexivity.
  - vm_compute. reflexivity.
  - apply not_elem_of_cons. split; [discriminate | apply not_elem_of_nil].
  - apply Hnone. reflexivity.
Defined.

(** * Successful storage calls *)

Lemma ret_run {A} (a : A) (w : World) : (mret a : M A) w = (Ok a, w).
Proof. reflexivity. Qed.

Lemma store_of_with_store k f w k' :
  store_of (with_store k f w) k' =
  if decide (k = k') then f (store_of w k) else store_of w k'.
Proof.
  unfold store_of at 1. simpl. case_decide as Hk.
  - subst. by rewrite lookup_insert_eq.
  - by rewrite lookup_insert_ne.
Qed.

Lemma store_of_with_oracle o w k : store_of (with_oracle o w) k = store_of w k.
Proof. reflexivity. Qed.

Lemma store_of_with_nextId n w k : store_of (with_nextId n w) k = store_of w k.
Proof. reflexivity. Qed.

Lemma store_of_with_databases f w k : store_of (with_databases f w) k = store_of w k.
Proof. reflexivity. Qed.

Lemma store_of_with_coordinator c w k : store_of (with_coordinator c w) k = store_of w k.
Proof. reflexivity. Qed.

Lemma store_of_with_globalTerm t w k : store_of (with_globalTerm t w) k = store_of w k.
Proof. reflexivity. Qed.

Lemma store_of_with_models s w k : store_of (with_models s w) k = store_of w k.
Proof. reflexivity. Qed.

Create Rewrite HintDb world.

#[global] Hint Rewrite -> store_of_with_store store_of_with_oracle store_of_with_nextId
  store_of_with_databases store_of_with_coordinator store_of_with_globalTerm
  store_of_with_models : world.

Lemma attempt_ok w w' : attempt w = (Ok tt, w') → ∃ o, w' = with_oracle o w.
Proof.
  unfold attempt. destruct (oracle w) as [|[] o] eqn:Ho; intros [= <-].
  - exists []. destruct w; simpl in *. by subst.
  - by exists o.
Qed.

Lemma require_models_ok k w w' :
  require_models k w = (Ok tt, w') → w' = w ∧ has_models w k = true.
Proof.
  unfold require_models. rewrite bind_run. simpl.
  destruct (has_models w k); [|discriminate]. by intros [= <-].
Qed.

(** A storage call that returns: the models were defined, the server
    answered, and the call had the given effect. *)
Lemma call_ok {A} k (eff : M A) w w' a :
  (require_models k;; attempt;; eff) w = (Ok a, w') →
  has_models w k = true ∧ ∃ o, eff (with_oracle o w) = (Ok a, w').
Proof.
  intros H. apply bind_ok_inv in H as ([] & w1 & H1 & H).
  apply require_models_ok in H1 as [-> Hm]. split; [done|].
  apply bind_ok_inv in H as ([] & w2 & H2 & H).
  apply attempt_ok in H2 as [o ->]. by exists o.
Qed.

Lemma new_docs_run l w :
  ∃ ds, new_docs l w = (Ok ds, with_nextId (nextId w + Z.of_nat (length l)) w) ∧
        projection <$> ds = l ∧
        doc_id <$> ds = (λ n : nat, nextId w + Z.of_nat n) <$> seq 0 (length l).
Proof.
  revert w. induction l as [|[d c] l IH]; intros w; simpl.
  - exists []. split; [|done]. rewrite ret_run. f_equal.
    destruct w; unfold with_nextId; simpl. f_equal. lia.
  - rewrite bind_run. simpl.
    destruct (IH (with_nextId (nextId w + 1) w)) as (ds & Hds & Hp & Hi).
    rewrite bind_run, Hds, ret_run. eexists. split; [|split].
    + f_equal. unfold with_nextId. simpl. f_equal. lia.
    + csimpl. by rewrite Hp.
    + csimpl. rewrite Hi. csimpl. f_equal; [lia|].
      rewrite <- fmap_S_seq, <- list_fmap_compose. apply list_fmap_ext.
      intros ? n ?. simpl. lia.
Qed.

(** ** What a successful [syncDataFromMaster] does *)

Lemma sync_skip_same_id i m w db master :
  databases w !! i = Some db → databases w !! m = Some master →
  db_id db = db_id master →
  syncDataFromMaster i m w = (Ok tt, w).
Proof.
  intros Hi Hm He. unfold syncDataFromMaster, get_db.
  rewrite !bind_run. simpl. rewrite Hi. simpl. rewrite !bind_run. simpl.
  rewrite Hm. simpl. by rewrite bool_decide_eq_true_2.
Qed.

Lemma sync_skip_no_models i m w db master :
  databases w !! i = Some db → databases w !! m = Some master →
  has_models w (db_id db) && has_models w (db_id master) = false →
  syncDataFromMaster i m w = (Ok tt, w).
Proof.
  intros Hi Hm He. unfold syncDataFromMaster, get_db.
  rewrite !bind_run. simpl. rewrite Hi. simpl. rewrite !bind_run. simpl.
  rewrite Hm. simpl. case_bool_decide; [done|]. rewrite bind_run. simpl.
  by destruct (has_models w (db_id db)), (has_models w (db_id master)).
Qed.

Lemma sync_ok i m w w' db master :
  databases w !! i = Some db → databases w !! m = Some master →
  db_id db ≠ db_id master →
  has_models w (db_id db) = true → has_models w (db_id master) = true →
  syncDataFromMaster i m w = (Ok tt, w') →
  databases w' = alter (set_term_db (db_term master)) i (databases w) ∧
  coordinator w' = coordinator w ∧
  globalTerm w' = globalTerm w ∧
  models w' = models w ∧
  (∀ k, k ≠ db_id db → store_of w' k = store_of w k) ∧
  projection <$> (Test (store_of w' (db_id db))) =
    projection <$> (Test (store_of w (db_id master))) ∧
  Metadata (store_of w' (db_id db)) =
    match Metadata (store_of w (db_id db)) with
    | Some _ => Some (db_term master)
    | None => None
    end.
Proof.
  intros Hi Hm Hne Hmi Hmm. unfold syncDataFromMaster, get_db.
  rewrite !bind_run. simpl. rewrite Hi. simpl. rewrite !bind_run. simpl.
  rewrite Hm. simpl. rewrite bool_decide_eq_false_2 by done.
  rewrite bind_run. simpl. rewrite Hmi, Hmm. simpl. intros H.
  apply bind_ok_inv in H as (masterData & w1 & H1 & H).
  apply call_ok in H1 as (_ & o1 & H1). rewrite bind_run in H1. simpl in H1.
  injection H1 as <- <-.
  apply bind_ok_inv in H as ([] & w2 & H2 & H).
  apply call_ok in H2 as (_ & o2 & H2). injection H2 as <-.
  apply bind_ok_inv in H as ([] & w3 & H3 & H).
  change (store_of (with_oracle o1 w) (db_id master))
    with (store_of w (db_id master)) in H3.
  assert (H3' : ∃ ds o n, projection <$> ds = projection <$> (Test (store_of w (db_id master))) ∧
      w3 = with_store (db_id db) (λ s, mkStore (Test s ++ ds) (Metadata s))
             (with_oracle o (with_nextId n
               (with_store (db_id db) (λ s, mkStore [] (Metadata s))
                 (with_oracle o2 (with_oracle o1 w)))))).
  { destruct (Test (store_of w (db_id master))) as [|d0 l0] eqn:Hl.
    - rewrite ret_run in H3. injection H3 as <-. exists [], o2, (nextId w). split; [done|].
      unfold with_store, with_oracle, with_nextId, store_of. simpl.
      rewrite lookup_insert_eq. simpl. by rewrite insert_insert_eq.
    - unfold Test_insertMany in H3.
      apply bind_ok_inv in H3 as ([] & w4 & H4 & H3).
      apply require_models_ok in H4 as [-> _].
      apply bind_ok_inv in H3 as (ds & w5 & H5 & H3).
      destruct (new_docs_run (projection <$> (d0 :: l0))
                  (with_store (db_id db) (λ s, mkStore [] (Metadata s))
                     (with_oracle o2 (with_oracle o1 w)))) as (ds' & Hrun & Hp & _).
      rewrite Hrun in H5. injection H5 as <- <-.
      apply bind_ok_inv in H3 as ([] & w6 & H6 & H3).
      apply attempt_ok in H6 as [o ->]. injection H3 as <-.
      eexists ds', o, _. split; [done|]. reflexivity. }
  destruct H3' as (ds & o & n & Hp & ->). clear H3.
  rewrite !bind_run in H. simpl in H. rewrite Hm, ret_run in H.
  apply bind_ok_inv in H as ([] & w4 & H4 & H). injection H4 as <-.
  apply call_ok in H as (_ & o3 & H). injection H as <-.
  simpl. repeat split.
  - intros k Hk. autorewrite with world. by rewrite !decide_False by congruence.
  - autorewrite with world. rewrite !decide_True by done.
    destruct (Metadata (store_of w (db_id db))); simpl; done.
  - autorewrite with world. rewrite !decide_True by done.
    destruct (Metadata (store_of w (db_id db))); simpl; done.
Qed.

(** * C5: what a successful synchronisation copies *)

(** C5, as stated, fails: the records inserted into the target do not keep
    the identity of the source's records, and the term is not persisted when
    the target has no term document. *)
Lemma C5_counterexample :
  let w' := (syncDataFromMaster 1 0 w_rejoin).2 in
  (syncDataFromMaster 1 0 w_rejoin).1 = Ok tt ∧
  doc_id <$> Test (store_of w' 1) ≠ doc_id <$> Test (store_of w_rejoin 2) ∧
  Metadata (store_of w' 1) ≠ Some 1.
Proof. vm_compute. repeat split; discriminate. Qed.

(** C5 (amended): a synchronisation of [db] from a [master] with another id,
    both with their models defined, that returns normally has read all the
    records of the master and has replaced the records of [db] by copies with
    the same payload and creation time, in the same order; the master's
    records are untouched; then the term of [db] is the master's term, and it
    is persisted when the database of [db] holds a term document. *)
Theorem C5_sync_copies_payload_and_time (i m : nat) (w w' : World) (db master : Db) :
  databases w !! i = Some db → databases w !! m = Some master →
  db_id db ≠ db_id master →
  has_models w (db_id db) = true → has_models w (db_id master) = true →
  syncDataFromMaster i m w = (Ok tt, w') →
  projection <$> Test (store_of w' (db_id db)) =
    projection <$> Test (store_of w (db_id master)) ∧
  Test (store_of w' (db_id master)) = Test (store_of w (db_id master)) ∧
  databases w' !! i = Some (set_term_db (db_term master) db) ∧
  (is_Some (Metadata (store_of w (db_id db))) →
   Metadata (store_of w' (db_id db)) = Some (db_term master)).
Proof.
  intros Hi Hm Hne Hmi Hmm Hrun.
  destruct (sync_ok i m w w' db master Hi Hm Hne Hmi Hmm Hrun)
    as (Hd & _ & _ & _ & Hk & Hp & Ht).
  split; [exact Hp|]. split; [by rewrite Hk|]. split.
  - rewrite Hd, list_lookup_alter_eq, Hi. done.
  - intros [t Hmeta]. by rewrite Ht, Hmeta.
Qed.

Lemma C5_witness :
  projection <$> Test (store_of (syncDataFromMaster 1 0 w_rejoin).2 1) =
    projection <$> Test (store_of w_rejoin 2).
Proof.
  apply (C5_sync_copies_payload_and_time 1 0 w_rejoin (syncDataFromMaster 1 0 w_rejoin).2
           (mkDb 1 "db2" Unknown true true 0) (mkDb 2 "db3" Master true true 1));
    first [reflexivity | discriminate | vm_compute; reflexivity].
Defined.

(** * C9: synchronising twice *)

(** C9, as stated, fails: the second synchronisation deletes the copies and
    inserts new ones, with new identities. *)
Lemma C9_counterexample :
  let w1 := (syncDataFromMaster 1 0 w_rejoin).2 in
  let w2 := (syncDataFromMaster 1 0 w1).2 in
  (syncDataFromMaster 1 0 w_rejoin).1 = Ok tt ∧
  (syncDataFromMaster 1 0 w1).1 = Ok tt ∧
  Test (store_of w2 1) ≠ Test (store_of w1 1).
Proof. vm_compute. repeat split; discriminate. Qed.

Lemma sync_ok_lookups i m w w' :
  syncDataFromMaster i m w = (Ok tt, w') →
  ∃ db master, databases w !! i = Some db ∧ databases w !! m = Some master.
Proof.
  unfold syncDataFromMaster, get_db. rewrite !bind_run. simpl.
  destruct (databases w !! i) as [db|]; [|discriminate]. simpl.
  rewrite !bind_run. simpl.
  destruct (databases w !! m) as [master|]; [|discriminate]. eauto.
Qed.

(** C9 (amended): two synchronisations in a row that both return normally
    leave, after the second, records with the same payloads and creation
    times, in the same order, as after the first. *)
Theorem C9_resync_idempotent_up_to_identity (i m : nat) (w w1 w2 : World) (db : Db) :
  databases w !! i = Some db →
  syncDataFromMaster i m w = (Ok tt, w1) →
  syncDataFromMaster i m w1 = (Ok tt, w2) →
  projection <$> Test (store_of w2 (db_id db)) =
    projection <$> Test (store_of w1 (db_id db)).
Proof.
  intros Hi H1 H2.
  destruct (sync_ok_lookups _ _ _ _ H1) as (db' & master & Hi' & Hm).
  assert (db' = db) as -> by congruence.
  destruct (decide (db_id db = db_id master)) as [He|Hne].
  { rewrite (sync_skip_same_id i m w db master Hi Hm He) in H1.
    injection H1 as <-.
    rewrite (sync_skip_same_id i m w db master Hi Hm He) in H2. by injection H2 as <-. }
  destruct (has_models w (db_id db) && has_models w (db_id master)) eqn:Hmod.
  2:{ rewrite (sync_skip_no_models i m w db master Hi Hm Hmod) in H1.
      injection H1 as <-.
      rewrite (sync_skip_no_models i m w db master Hi Hm Hmod) in H2.
      by injection H2 as <-. }
  apply andb_true_iff in Hmod as [Hmi Hmm].
  destruct (sync_ok i m w w1 db master Hi Hm Hne Hmi Hmm H1)
    as (Hd1 & _ & _ & Hmo1 & Hk1 & Hp1 & _).
  assert (Him : i ≠ m) by (intros ->; congruence).
  assert (Hi1 : databases w1 !! i = Some (set_term_db (db_term master) db)).
  { by rewrite Hd1, list_lookup_alter_eq, Hi. }
  assert (Hm1 : databases w1 !! m = Some master).
  { by rewrite Hd1, list_lookup_alter_ne. }
  assert (Hmi1 : has_models w1 (db_id db) = true).
  { unfold has_models in *. by rewrite Hmo1. }
  assert (Hmm1 : has_models w1 (db_id master) = true).
  { unfold has_models in *. by rewrite Hmo1. }
  destruct (sync_ok i m w1 w2 _ master Hi1 Hm1 Hne Hmi1 Hmm1 H2)
    as (_ & _ & _ & _ & _ & Hp2 & _).
  simpl in Hp2. rewrite Hp2, Hp1.
  rewrite Hk1; [done | congruence].
Qed.

Lemma C9_witness :
  projection <$> Test (store_of (syncDataFromMaster 1 0 (syncDataFromMaster 1 0 w_rejoin).2).2 1) =
    projection <$> Test (store_of (syncDataFromMaster 1 0 w_rejoin).2 1).
Proof.
  apply (C9_resync_idempotent_up_to_identity 1 0 w_rejoin
           (syncDataFromMaster 1 0 w_rejoin).2
           (syncDataFromMaster 1 0 (syncDataFromMaster 1 0 w_rejoin).2).2
           (mkDb 1 "db2" Unknown true true 0));
    vm_compute; reflexivity.
Defined.

(** * C3: terms across a restart *)

(** C3 fails on the code: a process that starts on databases whose persisted
    term is 5 counts [globalTerm] from 0 again; its first election gives the
    winner term 1, below the recorded 5, and overwrites both persisted
    terms with 1. *)
Theorem C3_restart_lowers_terms :
  let w0 := initial cfg0 st_restart 0 [] in
  let w := (boot w0).2 in
  Metadata (store_of w0 2) = Some 5 ∧ Metadata (store_of w0 1) = Some 5 ∧
  (boot w0).1 = Ok tt ∧
  coordinator w = Some 0%nat ∧ globalTerm w = 1 ∧
  databases w = [mkDb 2 "db3" Master true true 1; mkDb 1 "db2" Slave true true 1] ∧
  Metadata (store_of w 2) = Some 1 ∧ Metadata (store_of w 1) = Some 1.
Proof. vm_compute. repeat split; reflexivity. Qed.

(** * C6: a storage failure in the middle of a synchronisation *)

(** In the rejoin pass of [connectDBs] a failure is caught: the pass returns
    normally ... *)
Lemma reconnect_and_sync_returns i m w : (reconnect_and_sync i m w).1 = Ok tt.
Proof.
  unfold reconnect_and_sync, try_catch.
  match goal with |- (match ?b w with _ => _ end).1 = _ =>
    destruct (b w) as [[[]|] w1] end; [done|].
  by rewrite catch_dead_run.
Qed.

(** ... and the node that was being synchronised is left marked not alive.
    The election has no such handler (see [election_keeps_liveness] below). *)
Lemma rejoin_failure_marks_dead i m w w1 d :
  databases w !! i = Some d →
  (connect i;; set_models (db_id d);; Metadata_findOne (db_id d);;
   set_alive i true;; syncDataFromMaster i m) w = (Throw, w1) →
  alive_at (reconnect_and_sync i m w).2 i = false.
Proof.
  intros Hd Hthrow. unfold reconnect_and_sync, try_catch.
  unfold get_db. rewrite !bind_run. simpl. rewrite Hd, ret_run.
  rewrite Hthrow, catch_dead_run. unfold alive_at. simpl.
  rewrite list_lookup_alter_eq. by destruct (databases w1 !! i).
Qed.

(** C6 fails on the code: the synchronisation of the replica inside
    [electCoordinator] throws after the delete; the exception leaves the
    election, the replica stays alive with role slave, its term is already
    the new term, in memory and persisted, and its records are gone. *)
Theorem C6_failed_sync_in_election :
  let w := (boot w_fail).2 in
  (boot w_fail).1 = Throw ∧
  coordinator w = Some 0%nat ∧
  databases w !! 1%nat = Some (mkDb 1 "db2" Slave true true 1) ∧
  Metadata (store_of w 1) = Some 1 ∧
  Test (store_of w 1) = [] ∧
  Test (store_of w 2) = [mkDoc 7 "a" 5].
Proof. vm_compute. repeat split; reflexivity. Qed.

(** * C10: reads are bounded *)

(** C10: a read that returns records returns at most ten of them, the first
    ten of the node's collection, each reduced to its payload and creation
    time; the node is a configured one and alive. *)
Theorem C10_read_at_most_ten (dbId : Z) (w : World)
    (from : string) (role : Role) (term : Z) (data : list (string * Z)) :
  (read dbId w).1 = Ok (ReadOk from role term data) →
  (length data ≤ 10)%nat ∧
  data = projection <$> take 10 (Test (store_of w dbId)) ∧
  ∃ i db, databases w !! i = Some db ∧ db_id db = dbId ∧ db_alive db = true ∧
          from = db_name db ∧ role = db_role db ∧ term = db_term db.
Proof.
  unfold read. rewrite bind_run. simpl.
  destruct (list_find _ _) as [[i db]|] eqn:Hf; [|discriminate].
  apply list_find_Some in Hf as (Hi & Hid & _).
  destruct (db_alive db) eqn:Ha; simpl; [|discriminate].
  unfold try_catch. rewrite bind_run.
  destruct (Test_find_limit (db_id db) 10 w) as [[docs|] w1] eqn:Hr;
    rewrite ?ret_run; simpl; [|discriminate].
  intros [= <- <- <- <-].
  apply call_ok in Hr as (_ & o & Hr). rewrite bind_run in Hr. simpl in Hr.
  injection Hr as <- _. autorewrite with world. subst dbId.
  split; [|split; [done|]].
  - rewrite length_fmap, length_take. lia.
  - exists i, db. by repeat split.
Qed.

Lemma C10_witness :
  (length [("a", 5)] ≤ 10)%nat.
Proof.
  apply (C10_read_at_most_ten 2 w_rejoin "db3" Master 1 [("a", 5)]).
  vm_compute. reflexivity.
Defined.

(** * The write and update handlers, step by step *)

Lemma coordinator_alive_lookup w c cdb :
  coordinator w = Some c → databases w !! c = Some cdb →
  coordinator_alive w = db_alive cdb.
Proof. intros Hc Hd. unfold coordinator_alive, alive_at. by rewrite Hc, Hd. Qed.

Lemma get_db_run i w d : databases w !! i = Some d → get_db i w = (Ok d, w).
Proof. intros Hd. unfold get_db. rewrite bind_run. simpl. by rewrite Hd. Qed.

(** With an alive coordinator and a payload, [write] is the local commit
    followed by the propagation loop. *)
Lemma write_run data now w c cdb :
  falsy data = false → coordinator w = Some c → databases w !! c = Some cdb →
  db_alive cdb = true →
  write data now w =
    match Test_create (db_id cdb) (payload data) now w with
    | (Ok doc, w1) =>
        match for_each (slaves_of w1 c) (propagate_write doc) w1 with
        | (Ok _, w2) =>
            match databases w2 !! c with
            | Some cdb' => (Ok (Created (db_name cdb') (db_term cdb')), w2)
            | None => (Ok ServerError, w2)
            end
        | (Throw, w2) => (Ok ServerError, w2)
        end
    | (Throw, w1) => (Ok ServerError, w1)
    end.
Proof.
  intros Hf Hc Hd Ha. unfold write. rewrite Hf, bind_run. simpl.
  rewrite (coordinator_alive_lookup w c cdb Hc Hd), Ha. simpl.
  unfold try_catch. rewrite Hc. simpl.
  rewrite bind_run, (get_db_run c w cdb Hd), bind_run.
  destruct (Test_create _ _ _ w) as [[doc|] w1]; [|reflexivity].
  rewrite bind_run. simpl. rewrite bind_run.
  destruct (for_each _ _ w1) as [[[]|] w2]; [|reflexivity].
  unfold get_db. rewrite !bind_run. simpl.
  destruct (databases w2 !! c); reflexivity.
Qed.

Lemma update_run i data w c cdb :
  falsy data = false → coordinator w = Some c → databases w !! c = Some cdb →
  db_alive cdb = true →
  update i data w =
    match Test_findByIdAndUpdate (db_id cdb) i (payload data) w with
    | (Ok (Some u), w1) =>
        match for_each (slaves_of w1 c) (propagate_update i (payload data)) w1 with
        | (Ok _, w2) => (Ok (Updated u), w2)
        | (Throw, w2) => (Ok ServerError, w2)
        end
    | (Ok None, w1) => (Ok NotFound, w1)
    | (Throw, w1) => (Ok ServerError, w1)
    end.
Proof.
  intros Hf Hc Hd Ha. unfold update. rewrite Hf, bind_run. simpl.
  rewrite (coordinator_alive_lookup w c cdb Hc Hd), Ha. simpl.
  unfold try_catch. rewrite Hc. simpl.
  rewrite bind_run, (get_db_run c w cdb Hd), bind_run.
  destruct (Test_findByIdAndUpdate _ _ _ w) as [[[u|]|] w1]; [|reflexivity..].
  rewrite bind_run. simpl. rewrite bind_run.
  destruct (for_each _ _ w1) as [[[]|] w2]; reflexivity.
Qed.

Lemma aliveDbs_all_dead w :
  (∀ d, d ∈ databases w → db_alive d = false) → aliveDbs_of w = [].
Proof.
  intros Hall. apply elem_of_nil_inv. intros i Hi.
  apply elem_of_aliveDbs in Hi. unfold alive_at in Hi.
  destruct (databases w !! i) as [d|] eqn:Hd; [|done].
  rewrite (Hall d) in Hi; [done|]. by eapply list_elem_of_lookup_2.
Qed.

(** * C8: [write] and [update] need an alive coordinator *)

(** C8, as stated, fails: a request with an empty payload is answered with
    "Data is required", not with the missing-coordinator error, also when no
    coordinator exists. *)
Lemma C8_counterexample :
  coordinator w_idle = None ∧
  (write (Some EmptyString) 0 w_idle).1 = Ok BadRequest ∧
  (update 7 (Some EmptyString) w_idle).1 = Ok BadRequest ∧
  (write (Some EmptyString) 0 w_idle).1 ≠ Ok NoCoordinator.
Proof. vm_compute. repeat split; discriminate. Qed.

(** C8 (amended): [write] and [update] reject a request whose payload is
    missing or empty with "Data is required", whether a coordinator exists or
    not.  For a request that carries a non-empty payload, they answer with the
    missing-coordinator error and leave the world as it is when no
    coordinator is tracked or the tracked one is not alive; with an alive
    coordinator, once the local commit has succeeded the handler runs the
    propagation loop from the state after the commit.  When every node is
    down the election leaves no coordinator, and a write after it fails with
    the missing-coordinator error. *)
Theorem C8_no_coordinator_no_commit (data : option string) (now i : Z) (w : World) :
  (falsy data = true →
     write data now w = (Ok BadRequest, w) ∧ update i data w = (Ok BadRequest, w)) ∧
  (falsy data = false →
   (coordinator_alive w = false →
      write data now w = (Ok NoCoordinator, w) ∧
      update i data w = (Ok NoCoordinator, w)) ∧
   (∀ c cdb, coordinator w = Some c → databases w !! c = Some cdb →
      db_alive cdb = true →
      (∀ doc w1, Test_create (db_id cdb) (payload data) now w = (Ok doc, w1) →
         Test (store_of w1 (db_id cdb)) = Test (store_of w (db_id cdb)) ++ [doc] ∧
         doc_data doc = payload data ∧ doc_createdAt doc = now ∧
         (write data now w).2 =
           (for_each (slaves_of w1 c) (propagate_write doc) w1).2) ∧
      (∀ u w1, Test_findByIdAndUpdate (db_id cdb) i (payload data) w = (Ok (Some u), w1) →
         Test (store_of w1 (db_id cdb)) =
           update_first i (payload data) (Test (store_of w (db_id cdb))) ∧
         doc_id u = i ∧ doc_data u = payload data ∧
         (update i data w).2 =
           (for_each (slaves_of w1 c) (propagate_update i (payload data)) w1).2)) ∧
   ((∀ d, d ∈ databases w → db_alive d = false) →
      ∃ w', electCoordinator w = (Ok tt, w') ∧ coordinator w' = None ∧
            write data now w' = (Ok NoCoordinator, w'))).
Proof.
  split; [intros Hf; unfold write, update; by rewrite Hf|].
  intros Hf. split; [|split].
  - intros Hc. unfold write, update. rewrite Hf, !bind_run. simpl.
    by rewrite Hc.
  - intros c cdb Hc Hd Ha. split.
    + intros doc w1 Hcreate.
      rewrite (write_run data now w c cdb Hf Hc Hd Ha), Hcreate.
      split; [|split; [|split]].
      * unfold Test_create in Hcreate.
        apply bind_ok_inv in Hcreate as ([] & w2 & H2 & Hcreate).
        apply require_models_ok in H2 as [-> _].
        rewrite bind_run in Hcreate. simpl in Hcreate.
        apply bind_ok_inv in Hcreate as ([] & w3 & H3 & Hcreate).
        apply attempt_ok in H3 as [o ->].
        rewrite bind_run in Hcreate. simpl in Hcreate. injection Hcreate as <- <-.
        autorewrite with world. by rewrite decide_True.
      * unfold Test_create in Hcreate.
        apply bind_ok_inv in Hcreate as ([] & w2 & H2 & Hcreate).
        rewrite bind_run in Hcreate. simpl in Hcreate.
        apply bind_ok_inv in Hcreate as ([] & w3 & H3 & Hcreate).
        rewrite bind_run in Hcreate. simpl in Hcreate. by injection Hcreate as <- _.
      * unfold Test_create in Hcreate.
        apply bind_ok_inv in Hcreate as ([] & w2 & H2 & Hcreate).
        rewrite bind_run in Hcreate. simpl in Hcreate.
        apply bind_ok_inv in Hcreate as ([] & w3 & H3 & Hcreate).
        rewrite bind_run in Hcreate. simpl in Hcreate. by injection Hcreate as <- _.
      * destruct (for_each _ _ w1) as [[[]|] w2]; [|done]. simpl.
        by destruct (databases w2 !! c).
    + intros u w1 Hupd.
      rewrite (update_run i data w c cdb Hf Hc Hd Ha), Hupd.
      apply call_ok in Hupd as (_ & o & Hupd).
      rewrite bind_run in Hupd. simpl in Hupd.
      destruct (list_find _ _) as [[j d]|] eqn:Hfind; [|discriminate].
      apply list_find_Some in Hfind as (_ & Hid & _).
      rewrite bind_run in Hupd. simpl in Hupd. injection Hupd as <- <-.
      split; [|split; [done|split; [done|]]].
      * autorewrite with world. by rewrite decide_True.
      * by destruct (for_each _ _ _) as [[[]|] w2].
  - intros Hall.
    assert (Hnil : aliveDbs_of (with_globalTerm (globalTerm w + 1) w) = [])
      by (by apply aliveDbs_all_dead).
    exists (with_coordinator None (with_globalTerm (globalTerm w + 1) w)).
    split; [|split; [done|]].
    + unfold electCoordinator. rewrite bind_run. cbn -[aliveDbs_of].
      rewrite bind_run. cbn -[aliveDbs_of]. by rewrite Hnil.
    + unfold write. by rewrite Hf.
Qed.

Lemma C8_witness :
  write (Some "x") 0 w_idle = (Ok NoCoordinator, w_idle) ∧
  update 7 (Some "x") w_idle = (Ok NoCoordinator, w_idle).
Proof.
  destruct (C8_no_coordinator_no_commit (Some "x") 0 7 w_idle) as [_ H].
  destruct H as [H _]; [reflexivity|]. apply H. reflexivity.
Defined.

(** * The propagation loop of [write] and [update] *)

#[global] Instance told_preorder Φ kc : PreOrder (told Φ kc).
Proof.
  split.
  - intros w. split; [|by auto]. intros j d Hd. eauto.
  - intros w1 w2 w3 (Hd1 & ? & ? & ? & Hs1) (Hd2 & ? & ? & ? & Hs2).
    split; [|split; [congruence|split; [congruence|split; [congruence|]]]].
    + intros j d Hd. destruct (Hd1 j d Hd) as (d' & Hd' & Hor1).
      destruct (Hd2 j d' Hd') as (d'' & Hd'' & Hor2). exists d''. split; [done|].
      destruct Hor1 as [->| ->], Hor2 as [->| ->]; auto.
    + intros k. destruct (Hs2 k) as [->|]; auto.
Qed.

Lemma replica_step_told Φ kc s body w d :
  replica_step Φ s body → databases w !! s = Some d → db_id d ≠ kc →
  ∃ w', body w = (Ok tt, w') ∧ told Φ kc w w' ∧
        (has_models w (db_id d) = true →
         Φ (store_of w' (db_id d)) ∨ alive_at w' s = false).
Proof.
  intros Hstep Hd Hkc. destruct (Hstep w d Hd) as (w' & Hrun & Hc & Hm & Hk & Hor).
  exists w'. split; [done|]. split; [split; [|split; [done|split; [done|split]]]|].
  - intros j dj Hj. destruct Hor as [[-> _]|[-> _]]; [eauto|].
    destruct (decide (s = j)) as [->|Hne].
    + rewrite list_lookup_alter_eq, Hj. simpl. eauto.
    + rewrite list_lookup_alter_ne by done. eauto.
  - apply Hk. congruence.
  - intros k. destruct (decide (k = db_id d)) as [->|Hne]; [|left; by apply Hk].
    destruct Hor as [[_ H]|[_ H]]; [|by left].
    destruct (has_models w (db_id d)); [by right | by left].
  - intros Hmod. destruct Hor as [[_ H]|[Hdb _]].
    + rewrite Hmod in H. by left.
    + right. unfold alive_at. rewrite Hdb, list_lookup_alter_eq, Hd. done.
Qed.

Lemma propagate_loop Φ kc body l :
  (∀ s, replica_step Φ s (body s)) →
  ∀ w, (∀ s, s ∈ l → ∃ d, databases w !! s = Some d ∧ db_id d ≠ kc) →
  ∃ w', for_each l body w = (Ok tt, w') ∧ told Φ kc w w' ∧
    ∀ s d, s ∈ l → databases w !! s = Some d → has_models w (db_id d) = true →
           Φ (store_of w' (db_id d)) ∨ alive_at w' s = false.
Proof.
  intros Hstep. induction l as [|s l IH]; intros w Hl.
  - exists w. split; [done|]. split; [reflexivity|]. intros s d Hs.
    by apply elem_of_nil in Hs.
  - destruct (Hl s) as (d & Hd & Hkc); [apply list_elem_of_here|].
    destruct (replica_step_told Φ kc s (body s) w d (Hstep s) Hd Hkc)
      as (w1 & Hrun1 & Ht1 & Hs1).
    destruct (IH w1) as (w2 & Hrun2 & Ht2 & Hs2).
    { intros s' Hs'. destruct (Hl s') as (d' & Hd' & Hkc');
        [by apply list_elem_of_further|].
      destruct Ht1 as (Hdb & _). destruct (Hdb s' d' Hd') as (d'' & Hd'' & Hor).
      exists d''. split; [done|]. by destruct Hor as [->| ->]. }
    exists w2. split; [|split].
    + simpl. by rewrite bind_run, Hrun1.
    + by etrans.
    + intros s' d' Hs' Hd' Hmod.
      assert (Hlater : Φ (store_of w1 (db_id d')) ∨ alive_at w1 s' = false →
                       Φ (store_of w2 (db_id d')) ∨ alive_at w2 s' = false).
      { destruct Ht2 as (Hdb & _ & _ & _ & Hst). intros [HΦ|Hdead].
        - left. by destruct (Hst (db_id d')) as [->|].
        - right. unfold alive_at in *.
          destruct (databases w1 !! s') as [d1|] eqn:Hd1.
          + destruct (Hdb s' d1 Hd1) as (d2 & -> & [->| ->]); done.
          + destruct Ht1 as (Hdb1 & _). destruct (Hdb1 s' d' Hd') as (? & ? & _).
            congruence. }
      apply elem_of_cons in Hs' as [->|Hs'].
      * apply Hlater. assert (d' = d) as -> by congruence. by apply Hs1.
      * destruct Ht1 as (Hdb1 & _ & Hm1 & _).
        destruct (Hdb1 s' d' Hd') as (d1 & Hd1 & Hor).
        assert (Hid : db_id d1 = db_id d') by (by destruct Hor as [->| ->]).
        rewrite <- Hid. apply (Hs2 s' d1 Hs' Hd1).
        rewrite Hid. unfold has_models in *. by rewrite Hm1.
Qed.

Lemma attempt_cases w :
  ∃ o, attempt w = (Ok tt, with_oracle o w) ∨ attempt w = (Throw, with_oracle o w).
Proof.
  unfold attempt. destruct (oracle w) as [|[] o] eqn:Ho.
  - exists []. left. destruct w; simpl in *. by subst.
  - exists o. by left.
  - exists o. by right.
Qed.

Lemma require_models_run k w :
  has_models w k = true → require_models k w = (Ok tt, w).
Proof. intros H. unfold require_models. rewrite bind_run. simpl. by rewrite H. Qed.

Ltac mrun := repeat (progress (rewrite ?bind_run, ?ret_run; cbv beta iota)).

Lemma modify_run f w : modify f w = (Ok tt, f w).
Proof. reflexivity. Qed.

Lemma propagate_write_step doc s :
  replica_step (λ S, doc ∈ Test S) s (propagate_write doc s).
Proof.
  intros w d Hd. unfold propagate_write.
  rewrite bind_run, (get_db_run s w d Hd), bind_run. simpl.
  destruct (has_models w (db_id d)) eqn:Hmod.
  2:{ exists w. rewrite ret_run. repeat split; auto; try (left; by rewrite Hmod). }
  unfold try_catch, Test_save.
  mrun. rewrite (require_models_run _ _ Hmod). mrun.
  destruct (attempt_cases w) as [o [Ho|Ho]]; rewrite Ho; mrun;
    rewrite ?modify_run; mrun; unfold set_alive; rewrite ?modify_run.
  - eexists. split; [reflexivity|]. split; [done|]. split; [done|]. split.
    + intros k Hk. autorewrite with world. by rewrite decide_False by congruence.
    + left. split; [done|]. autorewrite with world.
      rewrite decide_True by done. simpl. apply elem_of_app. right.
      apply list_elem_of_here.
  - eexists. split; [reflexivity|]. split; [done|]. split; [done|]. split.
    + intros k Hk. by autorewrite with world.
    + right. split; [done|]. by autorewrite with world.
Qed.

Lemma update_first_idem i data l :
  update_first i data (update_first i data l) = update_first i data l.
Proof.
  induction l as [|d l IH]; simpl; [done|].
  case_bool_decide as Hd; simpl.
  - by rewrite bool_decide_eq_true_2.
  - rewrite bool_decide_eq_false_2 by done. by rewrite IH.
Qed.

Lemma update_first_absent i data l :
  list_find (λ d, doc_id d = i) l = None → update_first i data l = l.
Proof.
  intros Hf. apply list_find_None in Hf.
  induction l as [|d l IH]; simpl; [done|].
  apply Forall_cons in Hf as [Hd Hl].
  rewrite bool_decide_eq_false_2 by done. by rewrite IH.
Qed.

Lemma propagate_update_step i data s :
  replica_step (has_payload i data) s (propagate_update i data s).
Proof.
  intros w d Hd. unfold propagate_update, try_catch.
  rewrite bind_run, (get_db_run s w d Hd), bind_run. simpl.
  destruct (has_models w (db_id d)) eqn:Hmod.
  2:{ exists w. rewrite ret_run. repeat split; auto; try (left; by rewrite Hmod). }
  unfold Test_findByIdAndUpdate.
  mrun. rewrite (require_models_run _ _ Hmod). mrun.
  destruct (attempt_cases w) as [o [Ho|Ho]]; rewrite Ho; mrun;
    unfold set_alive; rewrite ?modify_run.
  - unfold get at 1. cbv beta iota. autorewrite with world.
    destruct (list_find _ _) as [[j dj]|] eqn:Hfind; mrun; rewrite ?modify_run; mrun.
    + eexists. split; [reflexivity|]. split; [done|]. split; [done|]. split.
      * intros k Hk. autorewrite with world. by rewrite decide_False by congruence.
      * left. split; [done|]. unfold has_payload.
        autorewrite with world. rewrite decide_True by done. simpl.
        apply update_first_idem.
    + eexists. split; [reflexivity|]. split; [done|]. split; [done|]. split.
      * intros k Hk. by autorewrite with world.
      * left. split; [done|]. unfold has_payload.
        autorewrite with world. by apply update_first_absent.
  - eexists. split; [reflexivity|]. split; [done|]. split; [done|]. split.
    + intros k Hk. by autorewrite with world.
    + right. split; [done|]. by autorewrite with world.
Qed.

Lemma elem_of_slaves_of w c s :
  s ∈ slaves_of w c ↔ alive_at w s = true ∧ id_at w s ≠ id_at w c.
Proof.
  unfold slaves_of. rewrite list_elem_of_filter. split; [by intros [? _]|].
  intros [Ha Hid]. split; [done|]. unfold indices. apply elem_of_seq.
  split; [lia|]. simpl. unfold alive_at in Ha.
  destruct (databases w !! s) eqn:Hd; [|done]. by apply lookup_lt_Some in Hd.
Qed.

Lemma slaves_of_quiet w w' c : quiet w w' → slaves_of w' c = slaves_of w c.
Proof.
  intros Hq. unfold slaves_of, indices. rewrite (quiet_length _ _ Hq).
  apply list_filter_iff. intros j.
  by rewrite (quiet_alive_at _ _ _ Hq), !(quiet_id_at _ _ _ Hq).
Qed.

#[global] Instance storage_only_preorder : PreOrder storage_only.
Proof.
  split.
  - intros w. by repeat split.
  - intros w1 w2 w3 (?&?&?&?) (?&?&?&?). repeat split; congruence.
Qed.

Lemma storage_only_attempt : steps storage_only attempt.
Proof. apply steps_attempt; [apply _|]. intros w o. by repeat split. Qed.

Lemma storage_only_fresh_id : steps storage_only fresh_id.
Proof. intros w. by repeat split. Qed.

Lemma storage_only_with_store k f : steps storage_only (modify (with_store k f)).
Proof. intros w. by repeat split. Qed.

Ltac storage_leaf :=
  first [ apply storage_only_attempt | apply storage_only_fresh_id
        | apply storage_only_with_store ].

Lemma storage_only_Test_create k d c : steps storage_only (Test_create k d c).
Proof. unfold Test_create. steps_with storage_leaf. Qed.

Lemma storage_only_Test_findByIdAndUpdate k i d :
  steps storage_only (Test_findByIdAndUpdate k i d).
Proof. unfold Test_findByIdAndUpdate. steps_with storage_leaf. Qed.

Lemma Test_create_ok k d c w w1 doc :
  Test_create k d c w = (Ok doc, w1) →
  doc = mkDoc (nextId w) d c ∧
  Test (store_of w1 k) = Test (store_of w k) ++ [doc].
Proof.
  unfold Test_create. intros H.
  apply bind_ok_inv in H as ([] & w2 & H2 & H).
  apply require_models_ok in H2 as [-> _].
  rewrite bind_run in H. simpl in H.
  apply bind_ok_inv in H as ([] & w3 & H3 & H).
  apply attempt_ok in H3 as [o ->].
  rewrite bind_run, modify_run, ret_run in H. injection H as <- <-.
  split; [done|]. autorewrite with world. by rewrite decide_True.
Qed.

Lemma slaves_of_valid w c cdb s :
  databases w !! c = Some cdb → s ∈ slaves_of w c →
  ∃ d, databases w !! s = Some d ∧ db_id d ≠ db_id cdb.
Proof.
  intros Hc Hs. apply elem_of_slaves_of in Hs as [Ha Hid].
  unfold alive_at, id_at in *. rewrite Hc in Hid.
  destruct (databases w !! s) as [d|]; [eauto | done].
Qed.

(** * C4: the state after a won election *)

#[global] Instance same_nodes_preorder : PreOrder same_nodes.
Proof.
  split.
  - by intros w.
  - intros w1 w2 w3 H1 H2. unfold same_nodes in *. congruence.
Qed.

Lemma same_nodes_lookup w w' i d' :
  same_nodes w w' → databases w' !! i = Some d' →
  ∃ d, databases w !! i = Some d ∧ db_id d = db_id d' ∧ db_alive d = db_alive d'.
Proof.
  intros H Hd.
  assert (Hl : (db_frame <$> databases w) !! i = Some (db_frame d')).
  { rewrite <- H. by rewrite list_lookup_fmap, Hd. }
  rewrite list_lookup_fmap in Hl.
  destruct (databases w !! i) as [d|]; [|done].
  exists d. split; [done|]. simpl in Hl. unfold db_frame in Hl. by simplify_eq.
Qed.

Lemma same_nodes_ids w w' :
  same_nodes w w' → db_id <$> databases w' = db_id <$> databases w.
Proof.
  intros H. apply (f_equal (fmap fst)) in H.
  by rewrite <- !list_fmap_compose in H.
Qed.

Lemma same_nodes_quiet {A} (m : M A) : steps quiet m → steps same_nodes m.
Proof.
  apply steps_mono. intros w w' (_&_&_&H). unfold same_nodes.
  apply (f_equal (fmap (λ p : Z * string * Role * bool, (p.1.1.1, p.2)))) in H.
  by rewrite <- !list_fmap_compose in H.
Qed.

Lemma same_nodes_set_role i r : steps same_nodes (set_role i r).
Proof. intros w. unfold same_nodes. simpl. by apply fmap_alter_same. Qed.

Lemma same_nodes_set_coordinator c : steps same_nodes (modify (with_coordinator c)).
Proof. by intros w. Qed.

Ltac same_nodes_leaf :=
  first [ apply same_nodes_set_role | apply same_nodes_set_coordinator
        | apply same_nodes_quiet; solve [auto with quiet nocore] ].

Lemma same_nodes_demote c j : steps same_nodes (demote c j).
Proof. unfold demote. steps_with same_nodes_leaf. Qed.

Lemma same_nodes_promote l c : steps same_nodes (promote l c).
Proof.
  unfold promote.
  steps_with ltac:(first [apply same_nodes_demote | same_nodes_leaf]).
Qed.

#[global] Instance tracks_preorder c : PreOrder (tracks c).
Proof.
  split.
  - intros w H. exact H.
  - intros w1 w2 w3 H1 H2 H. apply H2, H1, H.
Qed.

Lemma tracks_quiet {A} c (m : M A) : steps quiet m → steps (tracks c) m.
Proof. apply steps_mono. intros w w' (H&_) Hc. congruence. Qed.

Lemma tracks_set_role c i r : steps (tracks c) (set_role i r).
Proof. intros w H. exact H. Qed.

Lemma tracks_demote c x j : steps (tracks c) (demote x j).
Proof.
  unfold demote.
  steps_with ltac:(first [ apply tracks_set_role
                         | apply tracks_quiet; solve [auto with quiet nocore] ]).
Qed.

Lemma promote_coordinator l c w : coordinator (promote l c w).2 = Some c.
Proof.
  set (rest := (set_role c Master;;
                w ← get;
                set_term c (globalTerm w);;
                d ← get_db c;
                Metadata_updateOne (db_id d) (globalTerm w) true;;
                for_each l (demote c)) : M unit).
  assert (Hrun : promote l c w = rest (with_coordinator (Some c) w)) by reflexivity.
  rewrite Hrun.
  assert (Hrest : steps (tracks c) rest).
  { unfold rest.
    steps_with ltac:(first [ apply tracks_demote | apply tracks_set_role
                           | apply tracks_quiet; solve [auto with quiet nocore] ]). }
  by apply Hrest.
Qed.

(** A won election is a quiet prefix, the rejected candidates, followed by
    the promotion of the winner. *)
Lemma elect_loop_ok l cands w w' c :
  elect_loop l cands w = (Ok tt, w') → coordinator w' = Some c →
  ∃ w2, quiet w w2 ∧ promote l c w2 = (Ok tt, w').
Proof.
  revert w. induction cands as [|db rest IH]; intros w Hrun Hc; simpl in Hrun.
  - rewrite modify_run in Hrun. injection Hrun as <-. done.
  - apply bind_ok_inv in Hrun as (ok & w1 & Hcan & Hrun).
    pose proof (quiet_canBecomeMaster db w) as Hq. rewrite Hcan in Hq. simpl in Hq.
    destruct ok.
    + exists w1. split; [done|].
      pose proof (promote_coordinator l db w1) as Hp. rewrite Hrun in Hp. simpl in Hp.
      assert (db = c) as -> by congruence. done.
    + destruct (IH w1 Hrun Hc) as (w2 & Hq2 & Hp). exists w2. split; [by etrans | done].
Qed.

Lemma NoDup_ids_ne (l : list Db) i j d d' :
  NoDup (db_id <$> l) → l !! i = Some d → l !! j = Some d' → i ≠ j →
  db_id d ≠ db_id d'.
Proof.
  intros Hnd Hi Hj Hne Heq. apply Hne.
  apply (NoDup_lookup (db_id <$> l) i j (db_id d)); [done|..].
  - by rewrite list_lookup_fmap, Hi.
  - by rewrite list_lookup_fmap, Hj, Heq.
Qed.

Lemma demote_self c w cdb :
  databases w !! c = Some cdb → demote c c w = (Ok tt, w).
Proof.
  intros Hc. unfold demote. rewrite bind_run, (get_db_run c w cdb Hc).
  rewrite bind_run, (get_db_run c w cdb Hc).
  by rewrite bool_decide_eq_false_2 by (by intros []).
Qed.

Lemma demote_ok c g kc j w w1 :
  NoDup (db_id <$> databases w) → promoted c g kc w → j ≠ c →
  demote c j w = (Ok tt, w1) →
  promoted c g kc w1 ∧ demoted g kc j w1 ∧
  (∀ j', j' ≠ c → j' ≠ j → demoted g kc j' w → demoted g kc j' w1).
Proof.
  intros Hnd (Hco & Hg & (cdb & Hc & Hkc & Hrole & Hterm) & Hmeta & Hmod) Hjc Hrun.
  subst kc g. unfold demote in Hrun.
  apply bind_ok_inv in Hrun as (o & w0 & Hget & Hrun).
  assert (Hj : databases w !! j = Some o ∧ w0 = w).
  { unfold get_db in Hget. rewrite bind_run in Hget. simpl in Hget.
    destruct (databases w !! j); [|discriminate].
    rewrite ret_run in Hget. by injection Hget as -> ->. }
  destruct Hj as [Hj ->].
  rewrite bind_run, (get_db_run c w cdb Hc) in Hrun.
  assert (Hid : db_id o ≠ db_id cdb) by (by apply (NoDup_ids_ne (databases w) j c)).
  rewrite bool_decide_eq_true_2 in Hrun by done.
  rewrite bind_run in Hrun. unfold set_role in Hrun. rewrite modify_run in Hrun.
  rewrite bind_run in Hrun. simpl in Hrun.
  rewrite bind_run in Hrun. unfold set_term in Hrun. rewrite modify_run in Hrun.
  apply bind_ok_inv in Hrun as ([] & wc & Hupd & Hsync).
  apply call_ok in Hupd as (Hmodj & o1 & Hupd). rewrite modify_run in Hupd.
  injection Hupd as <-.
  set (dj := set_term_db (globalTerm w) (set_role_db Slave o)) in *.
  match type of Hsync with syncDataFromMaster j c ?x = _ => set (wc := x) in * end.
  assert (Hjc' : databases wc !! j = Some dj).
  { simpl. rewrite !list_lookup_alter_eq, Hj. done. }
  assert (Hcc' : databases wc !! c = Some cdb).
  { simpl. by rewrite !list_lookup_alter_ne. }
  destruct (sync_ok j c wc w1 dj cdb Hjc' Hcc' Hid Hmodj Hmod Hsync)
    as (Hdb & Hco1 & Hg1 & Hmo1 & Hst & Hproj & Hmeta1).
  assert (Hkc1 : store_of w1 (db_id cdb) = store_of w (db_id cdb)).
  { rewrite Hst by (simpl; congruence). subst wc. autorewrite with world.
    rewrite decide_False; [done | simpl; congruence]. }
  split; [|split].
  - split; [by rewrite Hco1|]. split; [by rewrite Hg1|]. split.
    + exists cdb. split; [|done]. by rewrite Hdb, list_lookup_alter_ne.
    + split; [by rewrite Hkc1|]. unfold has_models in *. by rewrite Hmo1.
  - exists (set_term_db (db_term cdb) dj). split; [|split; [done|split; [simpl; congruence|]]].
    { by rewrite Hdb, list_lookup_alter_eq, Hjc'. }
    split.
    + simpl in *. rewrite Hmeta1. subst wc. autorewrite with world.
      rewrite decide_True by done. simpl.
      destruct (Metadata (store_of w (db_id o))); simpl; congruence.
    + simpl in *. rewrite Hproj, Hkc1. subst wc. autorewrite with world.
      rewrite decide_False; [done | congruence].
  - intros j' Hj'c Hj'j (d' & Hd' & Hr' & Ht' & Hm' & Hp').
    assert (Hid' : db_id d' ≠ db_id o) by (by apply (NoDup_ids_ne (databases w) j' j)).
    assert (Hs' : store_of w1 (db_id d') = store_of w (db_id d')).
    { rewrite Hst by (simpl; congruence). subst wc. autorewrite with world.
      rewrite decide_False; [done | simpl; congruence]. }
    exists d'. split; [|split; [done|split; [done|split]]].
    + rewrite Hdb, list_lookup_alter_ne by done. simpl.
      by rewrite !list_lookup_alter_ne.
    + by rewrite Hs'.
    + by rewrite Hs', Hkc1.
Qed.

Lemma demote_loop_ok c g kc l w w' :
  NoDup (db_id <$> databases w) → promoted c g kc w →
  for_each l (demote c) w = (Ok tt, w') →
  promoted c g kc w' ∧
  ∀ j, j ≠ c → j ∈ l ∨ demoted g kc j w → demoted g kc j w'.
Proof.
  revert w. induction l as [|x l IH]; intros w Hnd Hp Hrun; simpl in Hrun.
  - rewrite ret_run in Hrun. injection Hrun as <-. split; [done|].
    intros j _ [Hj|Hj]; [by apply elem_of_nil in Hj | done].
  - apply bind_ok_inv in Hrun as ([] & w1 & Hstep & Hrun).
    assert (Hnd1 : NoDup (db_id <$> databases w1)).
    { pose proof (same_nodes_demote c x w) as Hs. rewrite Hstep in Hs.
      simpl in Hs. by rewrite (same_nodes_ids _ _ Hs). }
    destruct (decide (x = c)) as [->|Hxc].
    + assert (w1 = w) as ->.
      { destruct Hp as (_ & _ & (cdb & Hc & _) & _).
        rewrite (demote_self c w cdb Hc) in Hstep. by injection Hstep. }
      destruct (IH w Hnd Hp Hrun) as [Hp' Hall].
      split; [done|]. intros j Hjc [Hj|Hj]; apply Hall; auto.
      apply elem_of_cons in Hj as [->|Hj]; [done | by left].
    + destruct (demote_ok c g kc x w w1 Hnd Hp Hxc Hstep) as (Hp1 & Hx & Hkeep).
      destruct (IH w1 Hnd1 Hp1 Hrun) as [Hp' Hall].
      split; [done|]. intros j Hjc Hj. apply Hall; [done|].
      destruct (decide (j = x)) as [->|Hjx]; [by right|].
      destruct Hj as [Hj|Hj].
      * apply elem_of_cons in Hj as [->|Hj]; [done | by left].
      * right. by apply Hkeep.
Qed.

Lemma get_db_ok i w w' d :
  get_db i w = (Ok d, w') → databases w !! i = Some d ∧ w' = w.
Proof.
  unfold get_db. rewrite bind_run. simpl.
  destruct (databases w !! i); [|discriminate].
  rewrite ret_run. by intros [= -> ->].
Qed.

Lemma promote_ok l c w2 w' :
  promote l c w2 = (Ok tt, w') →
  ∃ w3 cdb0, databases w2 !! c = Some cdb0 ∧
    promoted c (globalTerm w2) (db_id cdb0) w3 ∧
    db_id <$> databases w3 = db_id <$> databases w2 ∧
    for_each l (demote c) w3 = (Ok tt, w').
Proof.
  unfold promote. intros Hrun.
  rewrite bind_run, modify_run in Hrun. cbv beta iota in Hrun.
  rewrite bind_run in Hrun. unfold set_role in Hrun. rewrite modify_run in Hrun.
  cbv beta iota in Hrun. rewrite bind_run in Hrun. simpl in Hrun.
  rewrite bind_run in Hrun. unfold set_term in Hrun. rewrite modify_run in Hrun.
  cbv beta iota in Hrun.
  apply bind_ok_inv in Hrun as (d & wd & Hget & Hrun).
  apply get_db_ok in Hget as [Hd ->]. simpl in Hd.
  rewrite !list_lookup_alter_eq in Hd.
  destruct (databases w2 !! c) as [cdb0|] eqn:Hc; [|done]. simpl in Hd.
  injection Hd as <-. simpl in Hrun.
  apply bind_ok_inv in Hrun as ([] & w3 & Hupd & Hloop).
  apply call_ok in Hupd as (Hmod & o & Hupd). rewrite modify_run in Hupd.
  injection Hupd as <-.
  eexists _, cdb0. split; [done|]. split; [|split; [|exact Hloop]].
  - split; [done|]. split; [done|]. split.
    + eexists. split; [simpl; by rewrite !list_lookup_alter_eq, Hc | done].
    + split; [|done]. autorewrite with world. rewrite decide_True by done.
      by destruct (Metadata (store_of w2 (db_id cdb0))).
  - simpl. by rewrite !fmap_alter_same.
Qed.

Lemma elect_loop_winner l cands w w' c :
  elect_loop l cands w = (Ok tt, w') → coordinator w' = Some c → c ∈ cands.
Proof.
  revert w. induction cands as [|db rest IH]; intros w Hrun Hc; simpl in Hrun.
  - rewrite modify_run in Hrun. injection Hrun as <-. done.
  - apply bind_ok_inv in Hrun as (ok & w1 & Hcan & Hrun). destruct ok.
    + pose proof (promote_coordinator l db w1) as Hp. rewrite Hrun in Hp. simpl in Hp.
      assert (db = c) as -> by congruence. apply list_elem_of_here.
    + apply list_elem_of_further. by apply (IH w1).
Qed.

Lemma quiet_ids w w' : quiet w w' → db_id <$> databases w' = db_id <$> databases w.
Proof.
  intros (_&_&_&H).
  apply (f_equal (fmap (λ p : Z * string * Role * bool, p.1.1.1))) in H.
  by rewrite <- !list_fmap_compose in H.
Qed.

(** C4: after an election that returns normally with a winner, [globalTerm]
    is one more than before; the winner is alive, has role master and term
    [globalTerm], persisted in its database; and every other alive node has
    role slave and term [globalTerm], persisted, and holds copies of the
    winner's records (same payloads and creation times, in the same order) —
    so every alive node's term is the coordinator's term. *)
Theorem C4_election_postcondition (w w' : World) (c : nat) :
  NoDup (db_id <$> databases w) →
  electCoordinator w = (Ok tt, w') → coordinator w' = Some c →
  globalTerm w' = globalTerm w + 1 ∧
  ∃ cdb, databases w' !! c = Some cdb ∧ db_alive cdb = true ∧
    db_role cdb = Master ∧ db_term cdb = globalTerm w' ∧
    Metadata (store_of w' (db_id cdb)) = Some (globalTerm w') ∧
    ∀ j d, j ≠ c → databases w' !! j = Some d → db_alive d = true →
      db_role d = Slave ∧ db_term d = globalTerm w' ∧ db_term d = db_term cdb ∧
      Metadata (store_of w' (db_id d)) = Some (globalTerm w') ∧
      projection <$> Test (store_of w' (db_id d)) =
        projection <$> Test (store_of w' (db_id cdb)).
Proof.
  intros Hnd Hrun Hc. unfold electCoordinator in Hrun.
  rewrite bind_run, modify_run in Hrun. cbv beta iota in Hrun.
  rewrite bind_run in Hrun. cbn -[aliveDbs_of elect_loop] in Hrun.
  set (w1 := with_globalTerm (globalTerm w + 1) w) in *.
  pose proof (elect_loop_winner _ _ _ _ _ Hrun Hc) as Hin.
  apply elem_of_aliveDbs in Hin.
  destruct (elect_loop_ok _ _ _ _ _ Hrun Hc) as (w2 & Hq & Hprom).
  pose proof (same_nodes_promote (aliveDbs_of w1) c w2) as Hsn.
  rewrite Hprom in Hsn. simpl in Hsn.
  destruct (promote_ok _ _ _ _ Hprom) as (w3 & cdb0 & Hc0 & Hp3 & Hids3 & Hloop).
  assert (Hnd3 : NoDup (db_id <$> databases w3)).
  { by rewrite Hids3, (quiet_ids _ _ Hq). }
  destruct (demote_loop_ok c _ _ _ w3 w' Hnd3 Hp3 Hloop)
    as [(_ & Hg & (cdb & Hcdb & Hkc & Hrole & Hterm) & Hmeta & _) Hall].
  assert (Hgw : globalTerm w' = globalTerm w + 1).
  { rewrite Hg. by destruct Hq as (_ & -> & _). }
  split; [done|]. exists cdb.
  split; [done|]. split.
  { destruct (same_nodes_lookup _ _ _ _ Hsn Hcdb) as (d2 & Hd2 & _ & <-).
    rewrite <- (quiet_alive_at _ _ c Hq) in Hin. unfold alive_at in Hin.
    by rewrite Hd2 in Hin. }
  split; [done|]. split; [congruence|]. split; [by rewrite Hkc, Hmeta, Hg|].
  intros j d Hjc Hd Ha.
  destruct (Hall j Hjc) as (d' & Hd' & Hr' & Ht' & Hm' & Hp').
  { left. apply elem_of_aliveDbs. rewrite <- (quiet_alive_at _ _ j Hq).
    destruct (same_nodes_lookup _ _ _ _ Hsn Hd) as (d2 & Hd2 & _ & Ha2).
    unfold alive_at. rewrite Hd2. congruence. }
  assert (d' = d) as -> by congruence.
  split; [done|]. split; [congruence|]. split; [congruence|].
  split; [by rewrite Hm', Hg|]. by rewrite Hp', Hkc.
Qed.

Lemma C4_witness : globalTerm (electCoordinator w_connected).2 = 1.
Proof.
  apply (C4_election_postcondition w_connected (electCoordinator w_connected).2 0).
  - vm_compute. apply NoDup_cons. split; [|apply NoDup_singleton].
    intros H. apply list_elem_of_singleton in H. discriminate.
  - vm_compute. reflexivity.
  - vm_compute. reflexivity.
Defined.

(** ** The election never changes liveness *)

Lemma same_nodes_elect_loop l cands : steps same_nodes (elect_loop l cands).
Proof.
  induction cands as [|db rest IH]; simpl.
  - same_nodes_leaf.
  - steps_with ltac:(first [apply same_nodes_promote | apply IH | same_nodes_leaf]).
Qed.

Lemma same_nodes_set_globalTerm (f : World → Z) :
  steps same_nodes (modify (λ w, with_globalTerm (f w) w)).
Proof. by intros w. Qed.

(** Whatever fails during an election, no node is marked not alive by it. *)
Lemma election_keeps_liveness w i :
  alive_at (electCoordinator w).2 i = alive_at w i.
Proof.
  assert (Hs : steps same_nodes electCoordinator).
  { unfold electCoordinator.
    steps_with ltac:(first [ apply same_nodes_elect_loop
                           | apply same_nodes_set_globalTerm | same_nodes_leaf ]). }
  specialize (Hs w). unfold alive_at.
  destruct (databases (electCoordinator w).2 !! i) as [d'|] eqn:Hd'.
  - destruct (same_nodes_lookup _ _ _ _ Hs Hd') as (d & -> & _ & ->). done.
  - destruct (databases w !! i) as [d|] eqn:Hd; [|done].
    apply lookup_ge_None in Hd'. apply lookup_lt_Some in Hd.
    apply (f_equal length) in Hs. rewrite !length_fmap in Hs. lia.
Qed.

(** * Alive nodes have their models defined *)

#[global] Instance revives_preorder i : PreOrder (revives i).
Proof.
  split.
  - intros w. by repeat split.
  - intros w1 w2 w3 (E1 & S1 & A1) (E2 & S2 & A2).
    split; [congruence|]. split; [set_solver|]. auto.
Qed.

Lemma revives_quiet {A} i (m : M A) : steps quiet m → steps (revives i) m.
Proof.
  apply steps_mono. intros w w' Hq. split; [by apply quiet_ids|].
  split; [destruct Hq as (_ & _ & -> & _); done|].
  intros j _. by rewrite (quiet_alive_at _ _ j Hq).
Qed.

Lemma alive_at_alter f i j w :
  alive_at (with_databases (alter f i) w) j =
  match databases w !! j with
  | Some d => db_alive (if decide (i = j) then f d else d)
  | None => false
  end.
Proof.
  unfold alive_at. simpl. destruct (decide (i = j)) as [->|Hij].
  - rewrite list_lookup_alter_eq. by destruct (databases w !! j).
  - by rewrite list_lookup_alter_ne.
Qed.

Lemma revives_set_alive i j b :
  b = false ∨ i = Some j → steps (revives i) (set_alive j b).
Proof.
  intros Hb w. split; [simpl; by apply fmap_alter_same|]. split; [done|].
  intros j' Hj'. simpl. rewrite alive_at_alter. unfold alive_at.
  destruct (databases w !! j') as [d|]; [|done].
  case_decide as Hjj; [|done]. subst j'.
  destruct Hb as [->| ->]; [done | by destruct Hj'].
Qed.

Lemma revives_set_role i j r : steps (revives i) (set_role j r).
Proof.
  intros w. split; [simpl; by apply fmap_alter_same|]. split; [done|].
  intros j' _. simpl. rewrite alive_at_alter. unfold alive_at.
  destruct (databases w !! j') as [d|]; [|done]. by case_decide.
Qed.

Lemma revives_set_models i k : steps (revives i) (set_models k).
Proof. intros w. split; [done|]. split; [simpl; set_solver | done]. Qed.

Lemma revives_modify_registry i (f : World → World) :
  (∀ w, databases (f w) = databases w ∧ models (f w) = models w) →
  steps (revives i) (modify f).
Proof.
  intros Hf w. destruct (Hf w) as [Hd Hm]. unfold revives, alive_at. simpl.
  rewrite Hd, Hm. by repeat split.
Qed.

Ltac revives_leaf :=
  first [ apply revives_set_alive; solve [auto]
        | apply revives_set_role | apply revives_set_models
        | apply revives_modify_registry; intros ?; by split
        | apply revives_quiet; solve [auto with quiet nocore] ].

Lemma revives_alive_have_models w w' :
  revives None w w' → alive_have_models w → alive_have_models w'.
Proof.
  intros (Hids & Hsub & Hal) HA i d' Hd' Ha'.
  assert (Hl : (db_id <$> databases w) !! i = Some (db_id d')).
  { rewrite <- Hids. by rewrite list_lookup_fmap, Hd'. }
  rewrite list_lookup_fmap in Hl.
  destruct (databases w !! i) as [d|] eqn:Hd; [|done]. simpl in Hl.
  injection Hl as Hid.
  assert (Ha : db_alive d = true).
  { specialize (Hal i). unfold alive_at in Hal. rewrite Hd, Hd' in Hal. by apply Hal. }
  specialize (HA i d Hd Ha). unfold has_models in *.
  apply bool_decide_eq_true. apply bool_decide_eq_true in HA.
  rewrite <- Hid. set_solver.
Qed.

Lemma revives_demote i c j : steps (revives i) (demote c j).
Proof. unfold demote. steps_with revives_leaf. Qed.

Lemma revives_promote i l c : steps (revives i) (promote l c).
Proof.
  unfold promote. steps_with ltac:(first [apply revives_demote | revives_leaf]).
Qed.

Lemma revives_elect_loop i l cands : steps (revives i) (elect_loop l cands).
Proof.
  induction cands as [|db rest IH]; simpl.
  - revives_leaf.
  - steps_with ltac:(first [apply revives_promote | apply IH | revives_leaf]).
Qed.

Lemma revives_electCoordinator i : steps (revives i) electCoordinator.
Proof.
  unfold electCoordinator.
  steps_with ltac:(first [apply revives_elect_loop | revives_leaf]).
Qed.

Lemma revives_check_connection i j : steps (revives i) (check_connection j).
Proof. unfold check_connection. steps_with revives_leaf. Qed.

Lemma revives_fresh_connect i : steps (revives (Some i)) (fresh_connect i).
Proof. unfold fresh_connect. steps_with revives_leaf. Qed.

Lemma revives_reconnect_and_sync i m : steps (revives (Some i)) (reconnect_and_sync i m).
Proof. unfold reconnect_and_sync. steps_with revives_leaf. Qed.

Lemma revives_write data now : steps (revives None) (write data now).
Proof.
  unfold write, propagate_write. steps_with revives_leaf.
Qed.

Lemma revives_update i data : steps (revives None) (update i data).
Proof.
  unfold update, propagate_update. steps_with revives_leaf.
Qed.

(** A node revived by [connectDBs] has passed [models[db.id] = ...]. *)
Lemma revived_has_models (i : nat) (rest : Db → M unit) (handler : M unit) w :
  (∀ d, steps (revives (Some i)) (rest d)) →
  (∀ w1, alive_at (handler w1).2 i = false) →
  let w' := (try_catch (db ← get_db i; connect i;; set_models (db_id db);; rest db)
                       handler w).2 in
  alive_at w' i = true → has_models w' (id_at w i) = true.
Proof.
  intros Hrest Hh w'. subst w'. unfold try_catch.
  destruct ((db ← get_db i; connect i;; set_models (db_id db);; rest db) w)
    as [[[]|] w1] eqn:Hrun; simpl; [|by rewrite Hh].
  intros _.
  apply bind_ok_inv in Hrun as (d & w0 & Hget & Hrun).
  apply get_db_ok in Hget as [Hd ->].
  apply bind_ok_inv in Hrun as ([] & wa & Hconn & Hrun).
  apply bind_ok_inv in Hrun as ([] & wb & Hset & Hrun).
  unfold set_models in Hset. rewrite modify_run in Hset. injection Hset as <-.
  pose proof (Hrest d (with_models ({[db_id d]} ∪ models wa) wa)) as (_ & Hsub & _).
  rewrite Hrun in Hsub. simpl in Hsub.
  unfold has_models, id_at. rewrite Hd. apply bool_decide_eq_true. set_solver.
Qed.

Lemma alive_have_models_connect (f : nat → M unit) i w :
  steps (revives (Some i)) (f i) →
  (alive_at (f i w).2 i = true → has_models (f i w).2 (id_at w i) = true) →
  alive_have_models w → alive_have_models (f i w).2.
Proof.
  intros Hs Hi HA j d' Hd' Ha'. destruct (Hs w) as (Hids & Hsub & Hal).
  assert (Hl : (db_id <$> databases w) !! j = Some (db_id d')).
  { rewrite <- Hids. by rewrite list_lookup_fmap, Hd'. }
  rewrite list_lookup_fmap in Hl.
  destruct (databases w !! j) as [d|] eqn:Hd; [|done]. simpl in Hl.
  injection Hl as Hid.
  destruct (decide (j = i)) as [->|Hji].
  - rewrite <- Hid. unfold id_at in Hi. rewrite Hd in Hi. apply Hi.
    unfold alive_at. by rewrite Hd'.
  - assert (Ha : db_alive d = true).
    { specialize (Hal j). unfold alive_at in Hal. rewrite Hd, Hd' in Hal.
      apply Hal; [congruence | done]. }
    specialize (HA j d Hd Ha). unfold has_models in *.
    apply bool_decide_eq_true. apply bool_decide_eq_true in HA.
    rewrite <- Hid. set_solver.
Qed.

Lemma alive_have_models_fresh_connect i w :
  alive_have_models w → alive_have_models (fresh_connect i w).2.
Proof.
  apply (alive_have_models_connect fresh_connect); [apply revives_fresh_connect|].
  unfold fresh_connect. apply revived_has_models.
  - intros d. steps_with revives_leaf.
  - intros w1. rewrite catch_unknown_run. unfold alive_at. simpl.
    rewrite list_lookup_alter_eq. by destruct (databases w1 !! i).
Qed.

Lemma alive_have_models_reconnect i m w :
  alive_have_models w → alive_have_models (reconnect_and_sync i m w).2.
Proof.
  apply (alive_have_models_connect (λ i, reconnect_and_sync i m));
    [apply revives_reconnect_and_sync|].
  unfold reconnect_and_sync. apply revived_has_models.
  - intros d. steps_with revives_leaf.
  - intros w1. rewrite catch_dead_run. unfold alive_at. simpl.
    rewrite list_lookup_alter_eq. by destruct (databases w1 !! i).
Qed.

Lemma alive_have_models_for_each (l : list nat) (body : nat → M unit) w :
  (∀ i w, alive_have_models w → alive_have_models (body i w).2) →
  alive_have_models w → alive_have_models (for_each l body w).2.
Proof.
  intros Hb. revert w. induction l as [|x l IH]; intros w HA; simpl; [done|].
  rewrite bind_run. specialize (Hb x w HA).
  destruct (body x w) as [[[]|] w1]; simpl in *; auto.
Qed.

Lemma alive_have_models_connectDBs w :
  alive_have_models w → alive_have_models (connectDBs w).2.
Proof.
  intros HA. unfold connectDBs. rewrite bind_run. simpl.
  destruct (list_find _ _) as [[m dm]|].
  - apply alive_have_models_for_each; [|done]. intros i w1 HA1.
    rewrite bind_run. unfold get_db. rewrite bind_run. simpl.
    destruct (databases w1 !! i) as [d|]; simpl; [|done].
    destruct (db_alive d).
    + eapply revives_alive_have_models; [apply revives_check_connection | done].
    + by apply alive_have_models_reconnect.
  - apply alive_have_models_for_each; [|done]. intros i w1.
    apply alive_have_models_fresh_connect.
Qed.

Lemma alive_have_models_tick w : alive_have_models w → alive_have_models (tick w).2.
Proof.
  intros HA. unfold tick. rewrite bind_run.
  apply alive_have_models_connectDBs in HA.
  destruct (connectDBs w) as [[[]|] w1]; simpl in *; [|done].
  rewrite bind_run. simpl. destruct (coordinator_alive w1); simpl; [done|].
  eapply revives_alive_have_models; [apply revives_electCoordinator | done].
Qed.

Lemma reachable_alive_have_models dbs w : reachable dbs w → alive_have_models w.
Proof.
  induction 1 as [st n o | w o Hw IH | w r Hw IH].
  - unfold boot. rewrite bind_run.
    assert (HA : alive_have_models (connectDBs (initial dbs st n o)).2).
    { apply alive_have_models_connectDBs. intros i d Hd Ha. simpl in Hd.
      rewrite list_lookup_fmap in Hd. destruct (dbs !! i); simplify_eq/=. }
    destruct (connectDBs _) as [[[]|] w1]; simpl in *; [|done].
    eapply revives_alive_have_models; [apply revives_electCoordinator | done].
  - exact IH.
  - rename IH into HA. destruct r; simpl.
    + by apply alive_have_models_tick.
    + eapply revives_alive_have_models; [apply revives_write | done].
    + eapply revives_alive_have_models; [apply revives_update | done].
    + eapply revives_alive_have_models; [|done].
      apply (revives_quiet None), quiet_read.
Qed.

(** * C7: every replica is told *)



(** * Further properties of the program *)

(** * Further properties of the code *)

(** ** [getHighestTerm] *)

Lemma foldl_max_le (l : list Z) (a : Z) : a ≤ foldl Z.max a l.
Proof.
  revert a. induction l as [|x l IH]; intros a; simpl; [lia|].
  etrans; [|apply IH]. lia.
Qed.

Lemma foldl_max_upper (l : list Z) (a x : Z) : x ∈ l → x ≤ foldl Z.max a l.
Proof.
  revert a. induction l as [|y l IH]; intros a Hx; simpl.
  - by apply elem_of_nil in Hx.
  - apply elem_of_cons in Hx as [->|Hx]; [|by apply IH].
    etrans; [|apply foldl_max_le]. lia.
Qed.

Lemma foldl_max_attained (l : list Z) (a : Z) :
  foldl Z.max a l = a ∨ foldl Z.max a l ∈ l.
Proof.
  revert a. induction l as [|y l IH]; intros a; simpl; [by left|].
  destruct (IH (Z.max a y)) as [->|Hin].
  - destruct (Z.max_spec a y) as [[_ ->]|[_ ->]]; [right; apply list_elem_of_here | by left].
  - right. by apply list_elem_of_further.
Qed.

Lemma getHighestTerm_max (w : World) :
  ((∀ d, d ∈ databases w → db_alive d = false) → getHighestTerm w = 0) ∧
  (∀ d, d ∈ databases w → db_alive d = true →
     db_term d ≤ getHighestTerm w ∧
     ∃ d', d' ∈ databases w ∧ db_alive d' = true ∧ db_term d' = getHighestTerm w).
Proof.
  unfold getHighestTerm. split.
  - intros Hall.
    assert (Hnil : filter (λ d, db_alive d = true) (databases w) = []).
    { apply elem_of_nil_inv. intros d Hd. apply list_elem_of_filter in Hd as [Ha Hd].
      rewrite (Hall d Hd) in Ha. discriminate. }
    by rewrite Hnil.
  - intros d Hd Ha.
    assert (Hin : db_term d ∈ db_term <$> filter (λ d, db_alive d = true) (databases w)).
    { apply list_elem_of_fmap. exists d. split; [done|]. by apply list_elem_of_filter. }
    destruct (db_term <$> filter (λ d, db_alive d = true) (databases w))
      as [|t ts] eqn:Hl; [by apply elem_of_nil in Hin|].
    simpl. split.
    + apply elem_of_cons in Hin as [->|Hin]; [apply foldl_max_le | by apply foldl_max_upper].
    + assert (Hmax : foldl Z.max t ts ∈ t :: ts).
      { destruct (foldl_max_attained ts t) as [->|Hin'];
          [apply list_elem_of_here | by apply list_elem_of_further]. }
      rewrite <- Hl in Hmax. apply list_elem_of_fmap in Hmax as (d' & Heq & Hd').
      apply list_elem_of_filter in Hd' as [Ha' Hd']. eauto.
Qed.

(** X1: [getHighestTerm] is 0 when no node is alive; otherwise it is the term of
    an alive node and no alive node has a higher term. *)
Theorem getHighestTerm_is_max (w : World) :
  ((∀ d, d ∈ databases w → db_alive d = false) → getHighestTerm w = 0) ∧
  (∀ d, d ∈ databases w → db_alive d = true →
     db_term d ≤ getHighestTerm w ∧
     ∃ d', d' ∈ databases w ∧ db_alive d' = true ∧ db_term d' = getHighestTerm w).
Proof. exact (getHighestTerm_max w). Qed.

(** ** The order in which an election scans the candidates *)

Lemma insert_desc_sorted (key : nat → Z) (x : nat) (l : list nat) :
  StronglySorted (λ i j, key j ≤ key i) l →
  StronglySorted (λ i j, key j ≤ key i) (insert_desc key x l).
Proof.
  induction l as [|y l IH]; intros Hs; simpl.
  - repeat constructor.
  - apply StronglySorted_cons in Hs as [Hy Hs].
    case_bool_decide as Hxy.
    + apply StronglySorted_cons. split; [|by apply IH].
      rewrite insert_desc_perm. constructor; [lia | done].
    + apply StronglySorted_cons. split; [|by apply StronglySorted_cons].
      constructor; [lia|]. eapply Forall_impl; [exact Hy|]. simpl. intros z Hz. lia.
Qed.

Lemma sort_desc_sorted (key : nat → Z) (l : list nat) :
  StronglySorted (λ i j, key j ≤ key i) (sort_desc key l).
Proof.
  induction l as [|x l IH]; simpl; [constructor|]. by apply insert_desc_sorted.
Qed.

Lemma aliveDbs_sorted (w : World) :
  aliveDbs_of w ≡ₚ filter (λ i, alive_at w i = true) (indices w) ∧
  NoDup (aliveDbs_of w) ∧
  StronglySorted (λ i j, id_at w j ≤ id_at w i) (aliveDbs_of w).
Proof.
  split; [apply sort_desc_perm|]. split; [apply NoDup_aliveDbs|].
  apply sort_desc_sorted.
Qed.

(** X2: the candidates of an election are the alive nodes, each once, in
    descending order of their ids. *)
Theorem aliveDbs_sorted_permutation (w : World) :
  aliveDbs_of w ≡ₚ filter (λ i, alive_at w i = true) (indices w) ∧
  NoDup (aliveDbs_of w) ∧
  StronglySorted (λ i j, id_at w j ≤ id_at w i) (aliveDbs_of w).
Proof. exact (aliveDbs_sorted w). Qed.

(** ** [globalTerm] *)

#[global] Instance same_globalTerm_preorder : PreOrder same_globalTerm.
Proof.
  split.
  - by intros w.
  - intros w1 w2 w3 H1 H2. unfold same_globalTerm in *. congruence.
Qed.

Lemma same_globalTerm_quiet {A} (m : M A) : steps quiet m → steps same_globalTerm m.
Proof. apply steps_mono. by intros w w' (_ & H & _). Qed.

Lemma same_globalTerm_modify (f : World → World) :
  (∀ w, globalTerm (f w) = globalTerm w) → steps same_globalTerm (modify f).
Proof. intros Hf w. apply Hf. Qed.

Ltac same_globalTerm_leaf :=
  first [ apply same_globalTerm_modify; intros ?; reflexivity
        | apply same_globalTerm_quiet; solve [auto with quiet nocore] ].

Lemma same_globalTerm_set_role i r : steps same_globalTerm (set_role i r).
Proof. by intros w. Qed.

Lemma same_globalTerm_set_alive i b : steps same_globalTerm (set_alive i b).
Proof. by intros w. Qed.

Lemma same_globalTerm_set_models k : steps same_globalTerm (set_models k).
Proof. by intros w. Qed.

Ltac same_globalTerm_reg :=
  first [ apply same_globalTerm_set_role | apply same_globalTerm_set_alive
        | apply same_globalTerm_set_models | same_globalTerm_leaf ].

Lemma same_globalTerm_demote c j : steps same_globalTerm (demote c j).
Proof. unfold demote. steps_with same_globalTerm_reg. Qed.

Lemma same_globalTerm_promote l c : steps same_globalTerm (promote l c).
Proof.
  unfold promote.
  steps_with ltac:(first [apply same_globalTerm_demote | same_globalTerm_reg]).
Qed.

Lemma same_globalTerm_elect_loop l cands : steps same_globalTerm (elect_loop l cands).
Proof.
  induction cands as [|db rest IH]; simpl.
  - same_globalTerm_reg.
  - steps_with ltac:(first [apply same_globalTerm_promote | apply IH | same_globalTerm_reg]).
Qed.

Lemma same_globalTerm_connectDBs : steps same_globalTerm connectDBs.
Proof.
  unfold connectDBs, check_connection, reconnect_and_sync, fresh_connect.
  steps_with same_globalTerm_reg.
Qed.

Lemma electCoordinator_globalTerm (w : World) :
  globalTerm (electCoordinator w).2 = globalTerm w + 1.
Proof.
  unfold electCoordinator. rewrite bind_run, modify_run. cbv beta iota.
  rewrite bind_run. cbn -[aliveDbs_of elect_loop].
  pose proof (same_globalTerm_elect_loop
                (aliveDbs_of (with_globalTerm (globalTerm w + 1) w))
                (aliveDbs_of (with_globalTerm (globalTerm w + 1) w))
                (with_globalTerm (globalTerm w + 1) w)) as H.
  unfold same_globalTerm in H.
  destruct (elect_loop _ _ _) as [[[]|] w1]; simpl in *; exact H.
Qed.

(** X3: an election attempt raises [globalTerm] by exactly one, whether it finds
    a winner, finds none, or is aborted by a storage failure. *)
Theorem election_increments_globalTerm_once (w : World) :
  globalTerm (electCoordinator w).2 = globalTerm w + 1.
Proof. exact (electCoordinator_globalTerm w). Qed.

(** ** What is caught *)

Lemma try_catch_returns {A} (body handler : M A) w :
  (∀ w1, ∃ a, (handler w1).1 = Ok a) → ∃ a, (try_catch body handler w).1 = Ok a.
Proof.
  intros Hh. unfold try_catch. destruct (body w) as [[a|] w1]; [by exists a | apply Hh].
Qed.

Lemma for_each_returns {A} (P : World → Prop) (l : list A) (body : A → M unit) w :
  (∀ x w, x ∈ l → P w → (body x w).1 = Ok tt ∧ P (body x w).2) →
  P w → (for_each l body w).1 = Ok tt ∧ P (for_each l body w).2.
Proof.
  revert w. induction l as [|x l IH]; intros w Hb HP; simpl; [done|].
  rewrite bind_run. destruct (Hb x w) as [Hok HP1]; [apply list_elem_of_here | done |].
  destruct (body x w) as [[[]|] w1]; simpl in *; [|done].
  apply IH; [|done]. intros y w2 Hy. apply Hb. by apply list_elem_of_further.
Qed.

Lemma revives_length i w w' :
  revives i w w' → length (databases w') = length (databases w).
Proof.
  intros (H & _). apply (f_equal length) in H. by rewrite !length_fmap in H.
Qed.

Lemma check_connection_returns i w : (check_connection i w).1 = Ok tt.
Proof.
  unfold check_connection, try_catch.
  destruct (connect i w) as [[[]|] w1]; [done|]. by rewrite catch_unknown_run.
Qed.

Lemma fresh_connect_returns i w : (fresh_connect i w).1 = Ok tt.
Proof.
  unfold fresh_connect, try_catch.
  match goal with |- (match ?b w with _ => _ end).1 = _ =>
    destruct (b w) as [[[]|] w1] end; [done|].
  by rewrite catch_unknown_run.
Qed.

Lemma connectDBs_returns (w : World) :
  (connectDBs w).1 = Ok tt ∧
  length (databases (connectDBs w).2) = length (databases w).
Proof.
  unfold connectDBs. rewrite bind_run. simpl.
  destruct (list_find _ _) as [[m dm]|].
  - apply (for_each_returns (λ w', length (databases w') = length (databases w)));
      [|done].
    intros i w1 Hi Hlen. apply elem_of_seq in Hi as [_ Hi]. simpl in Hi.
    destruct (lookup_lt_is_Some_2 (databases w1) i) as [d Hd]; [lia|].
    rewrite bind_run, (get_db_run i w1 d Hd). destruct (db_alive d).
    + split; [apply check_connection_returns|].
      by rewrite (revives_length _ _ _ (revives_check_connection None i w1)).
    + split; [apply reconnect_and_sync_returns|].
      by rewrite (revives_length _ _ _ (revives_reconnect_and_sync i m w1)).
  - apply (for_each_returns (λ w', length (databases w') = length (databases w)));
      [|done].
    intros i w1 _ Hlen. split; [apply fresh_connect_returns|].
    by rewrite (revives_length _ _ _ (revives_fresh_connect i w1)).
Qed.

(** X4: [connectDBs] catches every failure: it always returns normally, and it
    neither adds nor removes a descriptor. *)
Theorem connectDBs_always_returns (w : World) :
  (connectDBs w).1 = Ok tt ∧
  length (databases (connectDBs w).2) = length (databases w).
Proof. exact (connectDBs_returns w). Qed.


(** X6: a tick of the coordination loop leaves [globalTerm] as it is when the
    tracked coordinator is alive after the health refresh, and raises it by
    exactly one otherwise; the health refresh itself never changes it. *)
Theorem tick_globalTerm (w : World) :
  globalTerm (connectDBs w).2 = globalTerm w ∧
  globalTerm (tick w).2 =
    globalTerm w + (if coordinator_alive (connectDBs w).2 then 0 else 1).
Proof.
  pose proof (same_globalTerm_connectDBs w) as Hc. unfold same_globalTerm in Hc.
  split; [exact Hc|]. unfold tick. rewrite bind_run.
  destruct (connectDBs_returns w) as [Hok _].
  destruct (connectDBs w) as [[[]|] w1] eqn:Hrun; simpl in *; [|done].
  rewrite bind_run. simpl. destruct (coordinator_alive w1); simpl.
  - lia.
  - rewrite electCoordinator_globalTerm. lia.
Qed.

(** ** Who wins an election *)

Lemma canBecomeMaster_no_coordinator i d w :
  find_coordinator w = None → databases w !! i = Some d →
  canBecomeMaster i w = (Ok (negb (bool_decide (db_term d < getHighestTerm w))), w).
Proof.
  intros Hc Hd. unfold canBecomeMaster. rewrite bind_run. simpl.
  rewrite bind_run, (get_db_run i w d Hd), Hc.
  by case_bool_decide.
Qed.

Lemma elect_loop_no_coordinator l cands w :
  find_coordinator w = None → (∀ c, c ∈ cands → is_Some (databases w !! c)) →
  (∃ pre c post, cands = pre ++ c :: post ∧
     (∀ x, x ∈ pre → term_at w x < getHighestTerm w) ∧
     ¬ term_at w c < getHighestTerm w ∧
     elect_loop l cands w = promote l c w) ∨
  ((∀ x, x ∈ cands → term_at w x < getHighestTerm w) ∧
   elect_loop l cands w = (Ok tt, with_coordinator None w)).
Proof.
  intros Hc. induction cands as [|db rest IH]; intros Hvalid.
  - right. split; [|done]. intros x Hx. by apply elem_of_nil in Hx.
  - destruct (Hvalid db) as [d Hd]; [apply list_elem_of_here|].
    assert (Hterm : term_at w db = db_term d) by (unfold term_at; by rewrite Hd).
    simpl. rewrite bind_run, (canBecomeMaster_no_coordinator db d w Hc Hd).
    case_bool_decide as Hlt; simpl.
    + destruct IH as [(pre & c & post & -> & Hpre & Hwin & Hrun)|[Hall Hrun]].
      { intros c Hin. apply Hvalid. by apply list_elem_of_further. }
      * left. exists (db :: pre), c, post. split; [done|]. split; [|done].
        intros x Hx. apply elem_of_cons in Hx as [->|Hx]; [by rewrite Hterm | by apply Hpre].
      * right. split; [|done].
        intros x Hx. apply elem_of_cons in Hx as [->|Hx]; [by rewrite Hterm | by apply Hall].
    + left. exists [], db, rest. split; [done|]. split.
      * intros x Hx. by apply elem_of_nil in Hx.
      * split; [by rewrite Hterm | done].
Qed.

Lemma election_winner (w : World) :
  find_coordinator w = None →
  (∃ d, d ∈ databases w ∧ db_alive d = true) →
  ∃ c d, coordinator (electCoordinator w).2 = Some c ∧
    databases w !! c = Some d ∧ db_alive d = true ∧
    db_term d = getHighestTerm w ∧
    ∀ j dj, databases w !! j = Some dj → db_alive dj = true →
            db_id d < db_id dj → db_term dj < db_term d.
Proof.
  intros Hc (d0 & Hd0 & Ha0).
  set (w1 := with_globalTerm (globalTerm w + 1) w).
  assert (Hrun : electCoordinator w = elect_loop (aliveDbs_of w1) (aliveDbs_of w1) w1).
  { unfold electCoordinator. rewrite bind_run, modify_run. cbv beta iota.
    by rewrite bind_run. }
  assert (Hvalid : ∀ c, c ∈ aliveDbs_of w1 → is_Some (databases w !! c)).
  { intros c Hin. apply elem_of_aliveDbs in Hin. unfold alive_at in Hin. simpl in Hin.
    destruct (databases w !! c); [eauto | done]. }
  destruct (getHighestTerm_max w) as [_ Hmax].
  destruct (elect_loop_no_coordinator (aliveDbs_of w1) (aliveDbs_of w1) w1 Hc Hvalid)
    as [(pre & c & post & Hsplit & Hpre & Hwin & Hloop)|[Hall _]].
  - assert (Hin : c ∈ aliveDbs_of w1).
    { rewrite Hsplit. apply elem_of_app. right. apply list_elem_of_here. }
    destruct (Hvalid c Hin) as [d Hd].
    apply elem_of_aliveDbs in Hin. unfold alive_at in Hin. simpl in Hin.
    rewrite Hd in Hin.
    assert (Htc : term_at w1 c = db_term d) by (unfold term_at; simpl; by rewrite Hd).
    change (getHighestTerm w1) with (getHighestTerm w) in *.
    destruct (Hmax d) as [Hle _]; [by eapply list_elem_of_lookup_2 | done |].
    exists c, d. split; [|split; [done|split; [done|split; [lia|]]]].
    { rewrite Hrun, Hloop. apply promote_coordinator. }
    intros j dj Hj Haj Hid.
    assert (Hjin : j ∈ aliveDbs_of w1).
    { apply elem_of_aliveDbs. unfold alive_at. simpl. by rewrite Hj. }
    destruct (aliveDbs_sorted w1) as (_ & _ & Hsorted).
    rewrite Hsplit in Hjin, Hsorted.
    assert (Htj : term_at w1 j = db_term dj) by (unfold term_at; simpl; by rewrite Hj).
    apply elem_of_app in Hjin as [Hjpre|Hjpost].
    + specialize (Hpre j Hjpre). lia.
    + exfalso. apply StronglySorted_app_1_r, StronglySorted_cons in Hsorted as [Hpost _].
      apply elem_of_cons in Hjpost as [->|Hjpost].
      * assert (dj = d) by congruence. subst. lia.
      * rewrite Forall_forall in Hpost. specialize (Hpost j Hjpost).
        unfold id_at in Hpost. simpl in Hpost. rewrite Hj, Hd in Hpost. lia.
  - exfalso. destruct (Hmax d0 Hd0 Ha0) as (_ & d' & Hd' & Ha' & Ht').
    apply list_elem_of_lookup in Hd' as [j Hj].
    assert (Hjin : j ∈ aliveDbs_of w1).
    { apply elem_of_aliveDbs. unfold alive_at. simpl. by rewrite Hj. }
    specialize (Hall j Hjin). unfold term_at in Hall. simpl in Hall.
    rewrite Hj in Hall. change (getHighestTerm w1) with (getHighestTerm w) in Hall. lia.
Qed.

(** X7: with no coordinator tracked and some node alive, an election makes
    coordinator the alive node that has the highest term and, among those, the
    highest id - whatever storage failures occur after the choice. *)
Theorem election_picks_highest_id_at_highest_term (w : World) :
  coordinator w = None →
  (∃ d, d ∈ databases w ∧ db_alive d = true) →
  ∃ c d, coordinator (electCoordinator w).2 = Some c ∧
    databases w !! c = Some d ∧ db_alive d = true ∧
    db_term d = getHighestTerm w ∧
    ∀ j dj, databases w !! j = Some dj → db_alive dj = true →
            db_id d < db_id dj → db_term dj < db_term d.
Proof.
  intros Hc. apply election_winner. unfold find_coordinator. by rewrite Hc.
Qed.

Lemma election_picks_highest_id_at_highest_term_witness :
  ∃ c d, coordinator (electCoordinator w_connected).2 = Some c ∧
    databases w_connected !! c = Some d ∧ db_alive d = true ∧
    db_term d = getHighestTerm w_connected ∧
    ∀ j dj, databases w_connected !! j = Some dj → db_alive dj = true →
            db_id d < db_id dj → db_term dj < db_term d.
Proof.
  apply (election_picks_highest_id_at_highest_term w_connected).
  - reflexivity.
  - exists (mkDb 2 "db3" Unknown true true 0). split; [|reflexivity].
    apply (list_elem_of_lookup_2 _ 0%nat). vm_compute. reflexivity.
Defined.

(** ** [read] and [status] *)

#[global] Instance only_oracle_preorder : PreOrder only_oracle.
Proof.
  split.
  - intros w. unfold only_oracle. by destruct w.
  - intros w1 w2 w3 H1 H2. unfold only_oracle in *. rewrite H2 at 1. rewrite H1 at 1.
    reflexivity.
Qed.

Lemma only_oracle_attempt : steps only_oracle attempt.
Proof. apply steps_attempt; [apply _|]. intros w o. reflexivity. Qed.

(** X8: a read changes nothing: not the registry, not the coordinator, not a
    store; it only consumes one answer of the server when it asks it. *)
Theorem read_changes_nothing (dbId : Z) (w : World) :
  (read dbId w).2 = with_oracle (oracle (read dbId w).2) w.
Proof.
  assert (H : steps only_oracle (read dbId)).
  { unfold read, Test_find_limit. steps_with ltac:(apply only_oracle_attempt). }
  apply H.
Qed.





(** ** What [connectDBs] does to roles *)

#[global] Instance resets_roles_preorder : PreOrder resets_roles.
Proof.
  split.
  - intros w i. by left.
  - intros w1 w2 w3 H1 H2 i. destruct (H2 i) as [->|]; [apply H1 | by right].
Qed.

Lemma resets_roles_quiet {A} (m : M A) : steps quiet m → steps resets_roles m.
Proof. apply steps_mono. intros w w' Hq i. left. by apply quiet_role_at. Qed.

Lemma resets_roles_alter (f : Db → Db) j :
  (∀ d, db_role (f d) = db_role d ∨ db_role (f d) = Unknown) →
  steps resets_roles (modify (with_databases (alter f j))).
Proof.
  intros Hf w i. simpl. unfold role_at. simpl.
  destruct (decide (j = i)) as [->|Hne].
  - rewrite list_lookup_alter_eq. destruct (databases w !! i) as [d|]; simpl; [apply Hf | by left].
  - rewrite list_lookup_alter_ne by done. by left.
Qed.

Lemma resets_roles_set_models k : steps resets_roles (set_models k).
Proof. intros w i. by left. Qed.

Ltac resets_roles_leaf :=
  first [ apply resets_roles_set_models
        | apply resets_roles_alter; intros ?; simpl; solve [auto]
        | apply resets_roles_quiet; solve [auto with quiet nocore] ].

(** X11: the health refresh never promotes or demotes: it leaves the
    coordinator as it is, and every role is as before or reset to unknown. *)
Theorem connectDBs_only_resets_roles (w : World) (i : nat) :
  coordinator (connectDBs w).2 = coordinator w ∧
  (role_at (connectDBs w).2 i = role_at w i ∨ role_at (connectDBs w).2 i = Unknown).
Proof.
  split; [apply keepsI_connectDBs|].
  assert (H : steps resets_roles connectDBs).
  { unfold connectDBs, check_connection, reconnect_and_sync, fresh_connect,
      set_alive, set_role, set_connection.
    steps_with resets_roles_leaf. }
  apply H.
Qed.

(** ** What a synchronisation leaves alone *)

#[global] Instance touches_only_preorder k : PreOrder (touches_only k).
Proof.
  split.
  - by intros w k'.
  - intros w1 w2 w3 H1 H2 k' Hk. rewrite H2, H1; done.
Qed.

Lemma touches_only_registry k (f : World → World) :
  (∀ w, stores (f w) = stores w) → steps (touches_only k) (modify f).
Proof. intros Hf w k' _. simpl. unfold store_of. by rewrite Hf. Qed.

Lemma touches_only_attempt k : steps (touches_only k) attempt.
Proof. apply steps_attempt; [apply _|]. by intros w o k'. Qed.

Lemma touches_only_fresh_id k : steps (touches_only k) fresh_id.
Proof. by intros w k'. Qed.

Lemma touches_only_with_store k f : steps (touches_only k) (modify (with_store k f)).
Proof.
  intros w k' Hk. simpl. autorewrite with world. by rewrite decide_False by congruence.
Qed.

Lemma touches_only_new_docs k l : steps (touches_only k) (new_docs l).
Proof.
  induction l as [|[d c] l IH]; simpl;
    steps_with ltac:(first [apply IH | apply touches_only_fresh_id]).
Qed.

Ltac touches_only_leaf :=
  first [ apply touches_only_attempt | apply touches_only_fresh_id
        | apply touches_only_with_store | apply touches_only_new_docs
        | apply touches_only_registry; intros ?; reflexivity ].

(** X12: whatever its outcome, a synchronisation changes no database but the
    target's: the source and every third node keep their records and their
    term document. *)
Theorem sync_touches_only_target (i m : nat) (w : World) (db : Db) (k : Z) :
  databases w !! i = Some db → k ≠ db_id db →
  store_of (syncDataFromMaster i m w).2 k = store_of w k.
Proof.
  intros Hi Hk. unfold syncDataFromMaster.
  rewrite bind_run, (get_db_run i w db Hi).
  match goal with |- store_of (?rest w).2 k = _ =>
    assert (Hs : steps (touches_only (db_id db)) rest) end.
  { unfold Test_find, Test_deleteMany, Test_insertMany, Metadata_updateOne, set_term.
    steps_with touches_only_leaf. }
  by apply Hs.
Qed.

Lemma sync_touches_only_target_witness :
  store_of (syncDataFromMaster 1 0 w_rejoin).2 2 = store_of w_rejoin 2.
Proof.
  apply (sync_touches_only_target 1 0 w_rejoin (mkDb 1 "db2" Unknown true true 0));
    [reflexivity | discriminate].
Defined.

(** ** A synchronisation that fails *)

#[global] Instance keeps_terms_preorder k : PreOrder (keeps_terms k).
Proof.
  split.
  - by intros w.
  - intros w1 w2 w3 [? ?] [? ?]. split; congruence.
Qed.

Lemma keeps_terms_attempt k : steps (keeps_terms k) attempt.
Proof. apply steps_attempt; [apply _|]. by intros w o. Qed.

Lemma keeps_terms_fresh_id k : steps (keeps_terms k) fresh_id.
Proof. by intros w. Qed.

Lemma keeps_terms_with_store k k' f :
  (∀ s, Metadata (f s) = Metadata s) → steps (keeps_terms k) (modify (with_store k' f)).
Proof.
  intros Hf w. split; [done|]. simpl. autorewrite with world.
  case_decide; [subst; apply Hf | done].
Qed.

Lemma keeps_terms_new_docs k l : steps (keeps_terms k) (new_docs l).
Proof.
  induction l as [|[d c] l IH]; simpl;
    steps_with ltac:(first [apply IH | apply keeps_terms_fresh_id]).
Qed.

Ltac keeps_terms_leaf :=
  first [ apply keeps_terms_attempt | apply keeps_terms_fresh_id
        | apply keeps_terms_new_docs
        | apply keeps_terms_with_store; intros ?; reflexivity ].

Lemma keeps_terms_Test_find k k' : steps (keeps_terms k) (Test_find k').
Proof. unfold Test_find. steps_with keeps_terms_leaf. Qed.

Lemma keeps_terms_Test_deleteMany k k' : steps (keeps_terms k) (Test_deleteMany k').
Proof. unfold Test_deleteMany. steps_with keeps_terms_leaf. Qed.

Lemma keeps_terms_Test_insertMany k k' l : steps (keeps_terms k) (Test_insertMany k' l).
Proof. unfold Test_insertMany. steps_with keeps_terms_leaf. Qed.

(** A storage call that throws has changed nothing but the oracle. *)
Lemma call_throw {A} k (f : World → World) (a : A) w w' :
  (require_models k;; attempt;; modify f;; mret a) w = (Throw, w') →
  databases w' = databases w ∧ stores w' = stores w.
Proof.
  rewrite bind_run. unfold require_models at 1. rewrite bind_run. simpl.
  destruct (has_models w k); simpl; [|by intros [= <-]].
  rewrite bind_run. destruct (attempt_cases w) as [o [Ho|Ho]]; rewrite Ho.
  - rewrite bind_run, modify_run, ret_run. discriminate.
  - by intros [= <-].
Qed.

Lemma Metadata_updateOne_throw k t u w w' :
  Metadata_updateOne k t u w = (Throw, w') →
  databases w' = databases w ∧ stores w' = stores w.
Proof.
  unfold Metadata_updateOne. rewrite bind_run. unfold require_models at 1.
  rewrite bind_run. simpl.
  destruct (has_models w k); simpl; [|by intros [= <-]].
  rewrite bind_run. destruct (attempt_cases w) as [o [Ho|Ho]]; rewrite Ho.
  - rewrite modify_run. discriminate.
  - by intros [= <-].
Qed.

(** The three data steps of a synchronisation, when all succeed. *)
Lemma sync_copy_ok km kd w md w1 w2 w3 :
  kd ≠ km →
  Test_find km w = (Ok md, w1) →
  Test_deleteMany kd w1 = (Ok tt, w2) →
  match md with
  | [] => mret tt
  | _ :: _ => Test_insertMany kd (projection <$> md)
  end w2 = (Ok tt, w3) →
  databases w3 = databases w ∧
  Metadata (store_of w3 kd) = Metadata (store_of w kd) ∧
  projection <$> Test (store_of w3 kd) = projection <$> Test (store_of w km).
Proof.
  intros Hne H1 H2 H3.
  apply call_ok in H1 as (_ & o1 & H1). rewrite bind_run in H1. simpl in H1.
  injection H1 as <- <-.
  apply call_ok in H2 as (_ & o2 & H2). injection H2 as <-.
  change (store_of (with_oracle o1 w) km) with (store_of w km) in H3.
  destruct (Test (store_of w km)) as [|d0 l0] eqn:Hl.
  - rewrite ret_run in H3. injection H3 as <-. autorewrite with world.
    by rewrite decide_True by done.
  - unfold Test_insertMany in H3.
    apply bind_ok_inv in H3 as ([] & w4 & H4 & H3).
    apply require_models_ok in H4 as [-> _].
    apply bind_ok_inv in H3 as (ds & w5 & H5 & H3).
    destruct (new_docs_run (projection <$> (d0 :: l0))
                (with_store kd (λ s, mkStore [] (Metadata s))
                   (with_oracle o2 (with_oracle o1 w)))) as (ds' & Hrun & Hp & _).
    rewrite Hrun in H5. injection H5 as <- <-.
    apply bind_ok_inv in H3 as ([] & w6 & H6 & H3).
    apply attempt_ok in H6 as [o ->]. injection H3 as <-.
    autorewrite with world. rewrite !decide_True by done. simpl.
    by rewrite Hp.
Qed.

(** X13: a synchronisation that throws has not persisted a new term for the
    target; and it has changed the target's in-memory term only if all the
    records had already been copied (then only the last call, the write of
    the term, has failed). *)
Theorem sync_failure_keeps_persisted_term (i m : nat) (w w' : World) (db : Db) :
  databases w !! i = Some db →
  syncDataFromMaster i m w = (Throw, w') →
  Metadata (store_of w' (db_id db)) = Metadata (store_of w (db_id db)) ∧
  (databases w' = databases w ∨
   projection <$> Test (store_of w' (db_id db)) =
     projection <$> Test (store_of w (id_at w m))).
Proof.
  intros Hi. unfold syncDataFromMaster.
  rewrite bind_run, (get_db_run i w db Hi), bind_run. unfold get_db at 1.
  rewrite bind_run. simpl.
  destruct (databases w !! m) as [master|] eqn:Hm; simpl; [|by intros [= <-]; auto].
  case_bool_decide as Hid; [discriminate|].
  rewrite bind_run. simpl.
  destruct (negb (has_models w (db_id db)) || negb (has_models w (db_id master)));
    [discriminate|].
  unfold id_at. rewrite Hm.
  rewrite bind_run.
  pose proof (keeps_terms_Test_find (db_id db) (db_id master) w) as K1.
  destruct (Test_find (db_id master) w) as [[md|] w1] eqn:H1; simpl in K1;
    [|intros [= <-]; destruct K1; auto].
  rewrite bind_run.
  pose proof (keeps_terms_Test_deleteMany (db_id db) (db_id db) w1) as K2.
  destruct (Test_deleteMany (db_id db) w1) as [[[]|] w2] eqn:H2; simpl in K2;
    [|intros [= <-]; destruct K1, K2; split; [|left]; congruence].
  rewrite bind_run.
  destruct (match md with
            | [] => mret tt
            | _ :: _ => Test_insertMany (db_id db) (projection <$> md)
            end w2) as [[[]|] w3] eqn:H3.
  2:{ intros [= <-]. destruct K1 as [D1 M1], K2 as [D2 M2].
      assert (K3 : keeps_terms (db_id db) w2 w3).
      { destruct md as [|d0 l0].
        - rewrite ret_run in H3. discriminate.
        - pose proof (keeps_terms_Test_insertMany (db_id db) (db_id db)
                        (projection <$> (d0 :: l0)) w2) as K.
          by rewrite H3 in K. }
      destruct K3 as [D3 M3]. split; [|left]; congruence. }
  destruct (sync_copy_ok _ _ _ _ _ _ _ Hid H1 H2 H3) as (D3 & M3 & P3).
  unfold get_db. rewrite !bind_run. simpl. rewrite D3, Hm, ret_run.
  rewrite bind_run. unfold set_term. rewrite modify_run.
  intros Hupd. apply Metadata_updateOne_throw in Hupd as [_ Hst].
  unfold store_of in *. rewrite Hst. simpl. split; [done | by right].
Qed.

Lemma sync_failure_keeps_persisted_term_witness :
  Metadata (store_of (syncDataFromMaster 1 0 (with_oracle [true; false] w_rejoin)).2 1) =
  Metadata (store_of (with_oracle [true; false] w_rejoin) 1).
Proof.
  apply (sync_failure_keeps_persisted_term 1 0 (with_oracle [true; false] w_rejoin)
           (syncDataFromMaster 1 0 (with_oracle [true; false] w_rejoin)).2
           (mkDb 1 "db2" Unknown true true 0));
    vm_compute; reflexivity.
Defined.

(** ** Requests that are not acknowledged *)

Lemma Test_create_throw k d c w w1 :
  Test_create k d c w = (Throw, w1) →
  databases w1 = databases w ∧ stores w1 = stores w ∧ coordinator w1 = coordinator w.
Proof.
  unfold Test_create. rewrite bind_run. unfold require_models at 1.
  rewrite bind_run. simpl.
  destruct (has_models w k); simpl; [|by intros [= <-]].
  rewrite bind_run. simpl. rewrite bind_run.
  destruct (attempt_cases (with_nextId (nextId w + 1) w)) as [o [Ho|Ho]]; rewrite Ho.
  - rewrite bind_run, modify_run, ret_run. discriminate.
  - by intros [= <-].
Qed.

Lemma Test_findByIdAndUpdate_unchanged k i data w w1 r :
  Test_findByIdAndUpdate k i data w = (r, w1) → r ≠ Ok None ∧ r ≠ Throw ∨
  (databases w1 = databases w ∧ stores w1 = stores w ∧ coordinator w1 = coordinator w).
Proof.
  unfold Test_findByIdAndUpdate. rewrite bind_run. unfold require_models at 1.
  rewrite bind_run. simpl.
  destruct (has_models w k); simpl; [|intros [= <- <-]; by right].
  rewrite bind_run. destruct (attempt_cases w) as [o [Ho|Ho]]; rewrite Ho.
  - rewrite bind_run. simpl.
    destruct (list_find _ _) as [[j d]|].
    + rewrite bind_run, modify_run, ret_run. intros [= <- <-]. left. by split.
    + rewrite ret_run. intros [= <- <-]. by right.
  - intros [= <- <-]. by right.
Qed.

Lemma coordinator_alive_true w :
  coordinator_alive w = true →
  ∃ c cdb, coordinator w = Some c ∧ databases w !! c = Some cdb ∧ db_alive cdb = true.
Proof.
  unfold coordinator_alive, alive_at. destruct (coordinator w) as [c|]; [|done].
  destruct (databases w !! c) as [cdb|] eqn:Hd; [|done]. eauto.
Qed.

(** After a successful commit the propagation loop of [write] returns
    normally and the answer is 201. *)
Lemma write_committed_is_created data now w c cdb doc w1 :
  falsy data = false → coordinator w = Some c → databases w !! c = Some cdb →
  db_alive cdb = true →
  Test_create (db_id cdb) (payload data) now w = (Ok doc, w1) →
  ∃ n t, (write data now w).1 = Ok (Created n t).
Proof.
  intros Hf Hc Hd Ha Hcreate.
  rewrite (write_run data now w c cdb Hf Hc Hd Ha), Hcreate.
  pose proof (storage_only_Test_create (db_id cdb) (payload data) now w) as Hso.
  rewrite Hcreate in Hso. destruct Hso as (Hdb & _). simpl in Hdb.
  destruct (propagate_loop (λ S, doc ∈ Test S) (db_id cdb) (propagate_write doc)
              (slaves_of w1 c) (propagate_write_step doc) w1)
    as (w2 & Hrun & Ht & _).
  { intros s. apply slaves_of_valid. by rewrite Hdb. }
  rewrite Hrun. destruct Ht as (Hdb2 & _).
  destruct (Hdb2 c cdb) as (cdb' & Hc' & _); [by rewrite Hdb|].
  rewrite Hc'. simpl. eauto.
Qed.

(** X14: unless [write] answers 201, nothing has been written: every database and
    every descriptor is as before. *)
Theorem write_unacknowledged_changes_nothing
    (data : option string) (now : Z) (w : World) (r : Response) :
  (write data now w).1 = Ok r → (∀ n t, r ≠ Created n t) →
  databases (write data now w).2 = databases w ∧
  stores (write data now w).2 = stores w ∧
  coordinator (write data now w).2 = coordinator w.
Proof.
  intros Hr Hno.
  destruct (falsy data) eqn:Hf; [unfold write; by rewrite Hf|].
  destruct (coordinator_alive w) eqn:Hca.
  2:{ unfold write. rewrite Hf, bind_run. simpl. by rewrite Hca. }
  destruct (coordinator_alive_true w Hca) as (c & cdb & Hc & Hd & Ha).
  destruct (Test_create (db_id cdb) (payload data) now w) as [[doc|] w1] eqn:Hcreate.
  - destruct (write_committed_is_created data now w c cdb doc w1 Hf Hc Hd Ha Hcreate)
      as (n & t & Hcr).
    rewrite Hcr in Hr. injection Hr as <-. by destruct (Hno n t).
  - rewrite (write_run data now w c cdb Hf Hc Hd Ha), Hcreate. simpl.
    by apply Test_create_throw in Hcreate.
Qed.

Lemma write_unacknowledged_changes_nothing_witness :
  databases (write (Some "r") 9 (with_oracle [false] w_settled)).2 =
    databases (with_oracle [false] w_settled) ∧
  stores (write (Some "r") 9 (with_oracle [false] w_settled)).2 =
    stores (with_oracle [false] w_settled) ∧
  coordinator (write (Some "r") 9 (with_oracle [false] w_settled)).2 =
    coordinator (with_oracle [false] w_settled).
Proof.
  apply (write_unacknowledged_changes_nothing (Some "r") 9
           (with_oracle [false] w_settled) ServerError).
  - vm_compute. reflexivity.
  - intros n t. discriminate.
Defined.

Lemma update_committed_is_updated i data w c cdb u w1 :
  falsy data = false → coordinator w = Some c → databases w !! c = Some cdb →
  db_alive cdb = true →
  Test_findByIdAndUpdate (db_id cdb) i (payload data) w = (Ok (Some u), w1) →
  (update i data w).1 = Ok (Updated u).
Proof.
  intros Hf Hc Hd Ha Hupd.
  rewrite (update_run i data w c cdb Hf Hc Hd Ha), Hupd.
  pose proof (storage_only_Test_findByIdAndUpdate (db_id cdb) i (payload data) w) as Hso.
  rewrite Hupd in Hso. destruct Hso as (Hdb & _). simpl in Hdb.
  destruct (propagate_loop (has_payload i (payload data)) (db_id cdb)
              (propagate_update i (payload data))
              (slaves_of w1 c) (propagate_update_step i (payload data)) w1)
    as (w2 & Hrun & _).
  { intros s. apply slaves_of_valid. by rewrite Hdb. }
  by rewrite Hrun.
Qed.

(** X15: unless [update] answers 200, nothing has been written. *)
Theorem update_unacknowledged_changes_nothing
    (i : Z) (data : option string) (w : World) (r : Response) :
  (update i data w).1 = Ok r → (∀ u, r ≠ Updated u) →
  databases (update i data w).2 = databases w ∧
  stores (update i data w).2 = stores w ∧
  coordinator (update i data w).2 = coordinator w.
Proof.
  intros Hr Hno.
  destruct (falsy data) eqn:Hf; [unfold update; by rewrite Hf|].
  destruct (coordinator_alive w) eqn:Hca.
  2:{ unfold update. rewrite Hf, bind_run. simpl. by rewrite Hca. }
  destruct (coordinator_alive_true w Hca) as (c & cdb & Hc & Hd & Ha).
  destruct (Test_findByIdAndUpdate (db_id cdb) i (payload data) w) as [res w1] eqn:Hupd.
  destruct (Test_findByIdAndUpdate_unchanged _ _ _ _ _ _ Hupd) as [[Hn Ht]|Hsame].
  - destruct res as [[u|]|]; [|done..].
    rewrite (update_committed_is_updated i data w c cdb u w1 Hf Hc Hd Ha Hupd) in Hr.
    injection Hr as <-. by destruct (Hno u).
  - rewrite (update_run i data w c cdb Hf Hc Hd Ha), Hupd.
    destruct res as [[u|]|]; [|done..].
    rewrite (update_committed_is_updated i data w c cdb u w1 Hf Hc Hd Ha Hupd) in Hr.
    injection Hr as <-. by destruct (Hno u).
Qed.

Lemma update_unacknowledged_changes_nothing_witness :
  databases (update 7 (Some "r") w_settled).2 = databases w_settled ∧
  stores (update 7 (Some "r") w_settled).2 = stores w_settled ∧
  coordinator (update 7 (Some "r") w_settled).2 = coordinator w_settled.
Proof.
  apply (update_unacknowledged_changes_nothing 7 (Some "r") w_settled NotFound).
  - vm_compute. reflexivity.
  - intros u. discriminate.
Defined.

(** X16: an update of a record the coordinator does not hold is never
    acknowledged: the answer is "not found", or the error of a failed call. *)
Theorem update_missing_record (i : Z) (data : option string) (w : World) (c : nat) (cdb : Db) :
  falsy data = false → coordinator w = Some c → databases w !! c = Some cdb →
  db_alive cdb = true →
  (∀ d, d ∈ Test (store_of w (db_id cdb)) → doc_id d ≠ i) →
  (update i data w).1 = Ok NotFound ∨ (update i data w).1 = Ok ServerError.
Proof.
  intros Hf Hc Hd Ha Hmiss.
  rewrite (update_run i data w c cdb Hf Hc Hd Ha).
  destruct (Test_findByIdAndUpdate (db_id cdb) i (payload data) w)
    as [[[u|]|] w1] eqn:Hupd; [|by left|by right].
  exfalso. apply call_ok in Hupd as (_ & o & Hupd).
  rewrite bind_run in Hupd. simpl in Hupd. autorewrite with world in Hupd.
  destruct (list_find _ _) as [[j d]|] eqn:Hfind; [|by rewrite ret_run in Hupd].
  apply list_find_Some in Hfind as (Hj & Hid & _).
  destruct (Hmiss d); [by eapply list_elem_of_lookup_2 | done].
Qed.

Lemma update_missing_record_witness :
  (update 7 (Some "r") w_settled).1 = Ok NotFound ∨
  (update 7 (Some "r") w_settled).1 = Ok ServerError.
Proof.
  apply (update_missing_record 7 (Some "r") w_settled 0 (mkDb 2 "db3" Master true true 1));
    try (vm_compute; reflexivity).
  intros d Hd. vm_compute in Hd. by apply elem_of_nil in Hd.
Defined.

(** ** Reading back what was written *)

#[global] Instance keeps_node_preorder c : PreOrder (keeps_node c).
Proof.
  split.
  - by intros w.
  - intros w1 w2 w3 H1 H2. unfold keeps_node in *. congruence.
Qed.

Lemma steps_for_each_in (R : relation World) `{!PreOrder R} {A}
    (l : list A) (body : A → M unit) :
  (∀ x, x ∈ l → steps R (body x)) → steps R (for_each l body).
Proof.
  induction l as [|x l IH]; intros Hb; simpl.
  - apply steps_ret, _.
  - apply steps_bind; [apply _ | apply Hb, list_elem_of_here |].
    intros _. apply IH. intros y Hy. by apply Hb, list_elem_of_further.
Qed.

Lemma keeps_node_registry c (f : World → World) :
  (∀ w, databases (f w) = databases w) → steps (keeps_node c) (modify f).
Proof. intros Hf w. unfold keeps_node. simpl. by rewrite Hf. Qed.

Lemma keeps_node_attempt c : steps (keeps_node c) attempt.
Proof. apply steps_attempt; [apply _|]. by intros w o. Qed.

Lemma keeps_node_set_alive c s b : s ≠ c → steps (keeps_node c) (set_alive s b).
Proof. intros Hs w. unfold keeps_node. simpl. by rewrite list_lookup_alter_ne. Qed.

Lemma keeps_node_propagate_write c doc s :
  s ≠ c → steps (keeps_node c) (propagate_write doc s).
Proof.
  intros Hs. unfold propagate_write, Test_save.
  steps_with ltac:(first [ apply keeps_node_attempt
                         | apply keeps_node_set_alive; assumption
                         | apply keeps_node_registry; intros ?; reflexivity ]).
Qed.

(** X17: with distinct ids, a [read] of the coordinator right after an
    acknowledged write returns, when the server answers, the first ten of the
    records held before followed by the new one: the new record is visible
    only if fewer than ten records were there. *)
Theorem read_after_write (data : option string) (now : Z) (w w' : World)
    (c : nat) (cdb : Db) (n : string) (t : Z) :
  NoDup (db_id <$> databases w) →
  coordinator w = Some c → databases w !! c = Some cdb →
  write data now w = (Ok (Created n t), w') →
  (read (db_id cdb) (with_oracle [] w')).1 =
    Ok (ReadOk (db_name cdb) (db_role cdb) (db_term cdb)
          (take 10 ((projection <$> Test (store_of w (db_id cdb))) ++
                    [(payload data, now)]))).
Proof.
  intros Hnd Hc Hd Hw.
  destruct (falsy data) eqn:Hf; [unfold write in Hw; by rewrite Hf in Hw|].
  assert (Ha : db_alive cdb = true).
  { destruct (db_alive cdb) eqn:Ha; [done|]. unfold write in Hw.
    rewrite Hf, bind_run in Hw. simpl in Hw.
    by rewrite (coordinator_alive_lookup w c cdb Hc Hd), Ha in Hw. }
  pose proof (revives_write data now w) as (Hids & Hmodels & _).
  rewrite Hw in Hids, Hmodels. simpl in Hids, Hmodels.
  rewrite (write_run data now w c cdb Hf Hc Hd Ha) in Hw.
  destruct (Test_create (db_id cdb) (payload data) now w) as [[doc|] w1] eqn:Hcreate;
    [|discriminate].
  pose proof (storage_only_Test_create (db_id cdb) (payload data) now w) as Hso.
  rewrite Hcreate in Hso. destruct Hso as (Hdb & _). simpl in Hdb.
  assert (Hmod : has_models w (db_id cdb) = true).
  { unfold Test_create in Hcreate.
    apply bind_ok_inv in Hcreate as ([] & w2 & H2 & _).
    by apply require_models_ok in H2 as [_ ?]. }
  apply Test_create_ok in Hcreate as [-> Hdocs].
  destruct (propagate_loop (λ S, mkDoc (nextId w) (payload data) now ∈ Test S)
              (db_id cdb) (propagate_write (mkDoc (nextId w) (payload data) now))
              (slaves_of w1 c) (propagate_write_step _) w1)
    as (w2 & Hrun & Ht & _).
  { intros s. apply slaves_of_valid. by rewrite Hdb. }
  assert (Hnode : databases w2 !! c = Some cdb).
  { pose proof (steps_for_each_in (keeps_node c) (slaves_of w1 c)
                  (propagate_write (mkDoc (nextId w) (payload data) now))) as Hk.
    specialize (Hk (λ s Hs, keeps_node_propagate_write c _ s (slaves_of_ne _ _ _ Hs)) w1).
    rewrite Hrun in Hk. unfold keeps_node in Hk. simpl in Hk. by rewrite Hk, Hdb. }
  rewrite Hrun, Hnode in Hw. injection Hw as _ _ <-.
  destruct Ht as (_ & _ & Hmo2 & Hkc & _).
  unfold read. rewrite bind_run. simpl.
  destruct (list_find (λ d, db_id d = db_id cdb) (databases w2)) as [[j dj]|] eqn:Hfind.
  2:{ apply list_find_None in Hfind. rewrite Forall_forall in Hfind.
      destruct (Hfind cdb); [by eapply list_elem_of_lookup_2 | done]. }
  apply list_find_Some in Hfind as (Hj & Hid & _).
  assert (j = c) as ->.
  { destruct (decide (j = c)) as [|Hne]; [done|].
    rewrite <- Hids in Hnd.
    by destruct (NoDup_ids_ne (databases w2) j c dj cdb Hnd Hj Hnode Hne). }
  assert (dj = cdb) as -> by congruence.
  rewrite Ha. simpl. unfold try_catch, Test_find_limit.
  assert (Hmod2 : has_models (with_oracle [] w2) (db_id cdb) = true).
  { unfold has_models in *. simpl. apply bool_decide_eq_true.
    apply bool_decide_eq_true in Hmod. by apply Hmodels. }
  rewrite !bind_run, (require_models_run _ _ Hmod2).
  rewrite bind_run. simpl. rewrite ?bind_run, ?ret_run. simpl.
  autorewrite with world. rewrite Hkc, Hdocs.
  by rewrite fmap_take, fmap_app.
Qed.

Lemma read_after_write_witness :
  (read 2 (with_oracle [] (write (Some "r") 9 w_settled).2)).1 =
    Ok (ReadOk "db3" Master 1 (take 10 ((projection <$> Test (store_of w_settled 2)) ++
                                        [(payload (Some "r"), 9)]))).
Proof.
  apply (read_after_write (Some "r") 9 w_settled (write (Some "r") 9 w_settled).2
           0 (mkDb 2 "db3" Master true true 1) "db3" 1).
  - vm_compute. apply NoDup_cons. split; [|apply NoDup_singleton].
    intros H. apply list_elem_of_singleton in H. discriminate.
  - vm_compute. reflexivity.
  - vm_compute. reflexivity.
  - vm_compute. reflexivity.
Defined.

(** ** The write handler of the earlier server *)

Lemma storage_only_server1_propagate doc s :
  steps storage_only (Server1.propagate_write doc s).
Proof.
  unfold Server1.propagate_write, Test_save. steps_with storage_leaf.
Qed.

(** X18: the write handler of [server_1.js] never changes the registry, the
    coordinator, the global term or the models, whatever the servers answer:
    a replica whose copy failed stays alive. *)
Theorem server1_write_keeps_registry (data : option string) (now : Z) (w : World) :
  storage_only w (Server1.write data now w).2.
Proof.
  revert w. change (steps storage_only (Server1.write data now)).
  unfold Server1.write, Test_create.
  steps_with ltac:(first [ storage_leaf
                         | apply storage_only_server1_propagate ]).
Qed.

Lemma same_but_liveness_refl w : same_but_liveness w w.
Proof. by repeat split. Qed.

Lemma same_but_liveness_lookup wa wb s :
  same_but_liveness wa wb →
  but_alive <$> (databases wb !! s) = but_alive <$> (databases wa !! s).
Proof. intros (Hd & _). by rewrite <- !list_lookup_fmap, Hd. Qed.

Lemma same_but_liveness_set_alive wa wb s b :
  same_but_liveness wa wb →
  same_but_liveness wa (with_databases (alter (set_alive_db b) s) wb).
Proof.
  intros (Hd & Hrest). split; [|done]. simpl. rewrite <- Hd.
  by apply fmap_alter_same.
Qed.

Lemma same_but_liveness_with_store wa wb k f :
  same_but_liveness wa wb →
  same_but_liveness (with_store k f wa) (with_store k f wb).
Proof.
  intros (Hd & Hc & Hg & Hm & Hs & Hn & Ho).
  repeat split; simpl; try done. unfold store_of. by rewrite Hs.
Qed.

Lemma same_but_liveness_with_oracle wa wb o :
  same_but_liveness wa wb →
  same_but_liveness (with_oracle o wa) (with_oracle o wb).
Proof. intros (Hd & Hc & Hg & Hm & Hs & Hn & Ho). by repeat split. Qed.

(** One turn of the loop: both servers make the same storage call. *)
Lemma propagate_write_same_but_liveness doc s wa wb :
  same_but_liveness wa wb →
  (Server1.propagate_write doc s wa).1 = (propagate_write doc s wb).1 ∧
  same_but_liveness (Server1.propagate_write doc s wa).2 (propagate_write doc s wb).2.
Proof.
  intros Hsim. pose proof (same_but_liveness_lookup wa wb s Hsim) as Hl.
  pose proof Hsim as (_ & _ & _ & Hm & _ & _ & Ho).
  unfold Server1.propagate_write, propagate_write, get_db.
  rewrite !bind_run. simpl.
  destruct (databases wa !! s) as [da|], (databases wb !! s) as [db|];
    simpl in Hl; try discriminate; [|done].
  assert (Hid : db_id db = db_id da) by (unfold but_alive in Hl; congruence).
  rewrite !ret_run, !bind_run. simpl. rewrite Hid.
  unfold has_models. rewrite Hm.
  destruct (bool_decide (db_id da ∈ models wa)) eqn:Hmod; [|by rewrite !ret_run].
  unfold try_catch, Test_save, require_models, set_alive.
  rewrite !bind_run. simpl. unfold has_models. rewrite Hm, Hmod, !ret_run.
  rewrite !bind_run. unfold attempt. rewrite Ho.
  destruct (oracle wa) as [|[] o]; rewrite ?bind_run, ?modify_run, ?ret_run; simpl;
    (split; [done|]).
  - by apply same_but_liveness_with_store.
  - by apply same_but_liveness_with_store, same_but_liveness_with_oracle.
  - by apply (same_but_liveness_set_alive (with_oracle o wa) (with_oracle o wb)),
             same_but_liveness_with_oracle.
Qed.

Lemma for_each_same_but_liveness doc l :
  ∀ wa wb, same_but_liveness wa wb →
  (for_each l (Server1.propagate_write doc) wa).1 =
    (for_each l (propagate_write doc) wb).1 ∧
  same_but_liveness (for_each l (Server1.propagate_write doc) wa).2
                    (for_each l (propagate_write doc) wb).2.
Proof.
  induction l as [|s l IH]; intros wa wb Hsim; simpl; [done|].
  destruct (propagate_write_same_but_liveness doc s wa wb Hsim) as [Hr Hw].
  rewrite !bind_run.
  destruct (Server1.propagate_write doc s wa) as [[[]|] wa'],
           (propagate_write doc s wb) as [[[]|] wb']; simpl in *;
    try discriminate; [by apply IH | done].
Qed.

(** X19: the two write handlers answer alike and leave the same stores, whatever
    the servers answer: after [write] of [server.js] the state differs from
    the one after [write] of [server_1.js] at most in liveness flags. *)
Theorem server1_write_differs_in_liveness (data : option string) (now : Z) (w : World) :
  (Server1.write data now w).1 = (write data now w).1 ∧
  same_but_liveness (Server1.write data now w).2 (write data now w).2.
Proof.
  unfold Server1.write, write.
  destruct (falsy data); [split; [done | apply same_but_liveness_refl]|].
  rewrite !bind_run. simpl.
  destruct (negb (coordinator_alive w)); [split; [done | apply same_but_liveness_refl]|].
  unfold try_catch. rewrite !bind_run.
  destruct (get_db (default 0%nat (coordinator w)) w) as [[cdb|] w0];
    [|split; [done | apply same_but_liveness_refl]].
  rewrite !bind_run.
  destruct (Test_create (db_id cdb) (payload data) now w0) as [[doc|] w1];
    [|split; [done | apply same_but_liveness_refl]].
  rewrite !bind_run. simpl. rewrite !bind_run.
  destruct (for_each_same_but_liveness doc
              (slaves_of w1 (default 0%nat (coordinator w))) w1 w1
              (same_but_liveness_refl w1)) as [Hr Hw].
  destruct (for_each _ (Server1.propagate_write doc) w1) as [[[]|] wa],
           (for_each _ (propagate_write doc) w1) as [[[]|] wb]; simpl in *;
    try discriminate; [|split; [reflexivity | exact Hw]].
  pose proof (same_but_liveness_lookup wa wb (default 0%nat (coordinator w)) Hw) as Hl.
  unfold get_db. rewrite !bind_run. simpl.
  destruct (databases wa !! _) as [da|], (databases wb !! _) as [db|];
    simpl in Hl; try discriminate; rewrite ?ret_run; simpl; [|done].
  split; [|done]. unfold but_alive in Hl.
  injection Hl as _ Hname _ _ Hterm. by rewrite Hname, Hterm.
Qed.

(** ** Terms read at a fresh start *)

#[global] Instance only_node_preorder j : PreOrder (only_node j).
Proof.
  split.
  - by intros w.
  - intros w1 w2 w3 [H1 I1] [H2 I2]. split; [|congruence].
    intros i Hi. by rewrite H2, H1.
Qed.

#[global] Instance meta_grows_preorder : PreOrder meta_grows.
Proof.
  split.
  - by intros w k t.
  - intros w1 w2 w3 H1 H2 k t Hk. by apply H2, H1.
Qed.

Lemma only_node_alter j f :
  (∀ d, db_id (f d) = db_id d) →
  steps (only_node j) (modify (with_databases (alter f j))).
Proof.
  intros Hf w. split; simpl.
  - intros i Hi. by rewrite list_lookup_alter_ne.
  - unfold id_at. simpl. rewrite list_lookup_alter_eq.
    destruct (databases w !! j); simpl; [apply Hf | done].
Qed.

Lemma only_node_registry j (f : World → World) :
  (∀ w, databases (f w) = databases w) → steps (only_node j) (modify f).
Proof. intros Hf w. unfold only_node, id_at. simpl. by rewrite Hf. Qed.

Lemma only_node_attempt j : steps (only_node j) attempt.
Proof. apply steps_attempt; [apply _|]. by intros w o. Qed.

Ltac only_node_leaf :=
  first [ apply only_node_attempt
        | apply only_node_alter; intros []; reflexivity
        | apply only_node_registry; intros ?; reflexivity ].

Lemma only_node_fresh_connect j : steps (only_node j) (fresh_connect j).
Proof.
  unfold fresh_connect, connect, set_models, Metadata_findOne, Metadata_save,
    set_alive, set_connection, set_role, set_term.
  steps_with only_node_leaf.
Qed.

Lemma meta_grows_stores (f : World → World) :
  (∀ w, stores (f w) = stores w) → steps meta_grows (modify f).
Proof. intros Hf w k t. unfold store_of. simpl. by rewrite Hf. Qed.

Lemma meta_grows_attempt : steps meta_grows attempt.
Proof. apply steps_attempt; [apply _|]. by intros w o k t. Qed.

Ltac meta_grows_leaf :=
  first [ apply meta_grows_attempt
        | apply meta_grows_stores; intros ?; reflexivity ].

Lemma meta_grows_findOne k : steps meta_grows (Metadata_findOne k).
Proof. unfold Metadata_findOne. steps_with meta_grows_leaf. Qed.

Lemma findOne_ok k w w' meta :
  Metadata_findOne k w = (Ok meta, w') →
  meta = Metadata (store_of w k) ∧ stores w' = stores w ∧
  databases w' = databases w.
Proof.
  intros H. apply call_ok in H as (_ & o & H).
  rewrite bind_run in H. simpl in H. rewrite ret_run in H.
  by injection H as <- <-.
Qed.

Lemma Metadata_save_ok k t w w' :
  Metadata_save k t w = (Ok tt, w') →
  Metadata (store_of w' k) = Some t ∧ databases w' = databases w ∧
  ∀ k', k' ≠ k → store_of w' k' = store_of w k'.
Proof.
  intros H. apply call_ok in H as (_ & o & H).
  rewrite modify_run in H. injection H as <-.
  split; [|split; [done|]].
  - autorewrite with world. by rewrite decide_True.
  - intros k' Hk. autorewrite with world. by rewrite decide_False.
Qed.

Lemma Metadata_save_throw k t w w' :
  Metadata_save k t w = (Throw, w') → stores w' = stores w.
Proof.
  unfold Metadata_save. rewrite bind_run. unfold require_models at 1.
  rewrite bind_run. simpl.
  destruct (has_models w k); simpl; [|by intros [= <-]].
  rewrite bind_run. destruct (attempt_cases w) as [o [Ho|Ho]]; rewrite Ho.
  - rewrite modify_run. discriminate.
  - by intros [= <-].
Qed.

(** The term document is written only where there is none. *)
Lemma meta_grows_read_term i k : steps meta_grows (read_term i k).
Proof.
  intros w. unfold read_term. rewrite bind_run.
  pose proof (meta_grows_findOne k w) as Hg.
  destruct (Metadata_findOne k w) as [[meta|] w1] eqn:Hfind; [|exact Hg].
  apply findOne_ok in Hfind as (-> & Hs & _). simpl in Hg.
  destruct (Metadata (store_of w k)) as [t|] eqn:Hmeta.
  - rewrite bind_run, ret_run. unfold set_term. rewrite modify_run.
    intros k' t' Hk'. simpl. autorewrite with world. by apply Hg.
  - rewrite bind_run, bind_run.
    destruct (Metadata_save k 0 w1) as [[[]|] w2] eqn:Hsave.
    + apply Metadata_save_ok in Hsave as (_ & _ & Hother).
      rewrite ret_run. unfold set_term. rewrite modify_run.
      intros k' t' Hk'. simpl. autorewrite with world.
      rewrite Hother; [by apply Hg|]. intros ->. congruence.
    + apply Metadata_save_throw in Hsave. simpl.
      intros k' t' Hk'. unfold store_of. rewrite Hsave. by apply Hg.
Qed.

Lemma read_term_ok i k w w' :
  read_term i k w = (Ok tt, w') →
  ∃ t w1, Metadata (store_of w1 k) = Some t ∧
          w' = with_databases (alter (set_term_db t) i) w1.
Proof.
  unfold read_term. intros H.
  apply bind_ok_inv in H as (meta & w1 & Hfind & H).
  apply findOne_ok in Hfind as (-> & Hs & _).
  apply bind_ok_inv in H as (t & w2 & Ht & H).
  unfold set_term in H. rewrite modify_run in H. injection H as <-.
  exists t, w2. split; [|done].
  destruct (Metadata (store_of w k)) as [t0|] eqn:Hmeta.
  - rewrite ret_run in Ht. injection Ht as <- <-.
    unfold store_of in *. by rewrite Hs.
  - apply bind_ok_inv in Ht as ([] & w3 & Hsave & Ht).
    rewrite ret_run in Ht. injection Ht as <- <-.
    by apply Metadata_save_ok in Hsave as (? & _).
Qed.

Lemma fresh_connect_unfold i :
  fresh_connect i =
  try_catch
    (db ← get_db i;
     connect i;; set_models (db_id db);; Metadata_findOne (db_id db);;
     set_alive i true;; read_term i (db_id db))
    (set_alive i false;; set_connection i false;; set_role i Unknown).
Proof. reflexivity. Qed.

Lemma meta_grows_fresh_connect j : steps meta_grows (fresh_connect j).
Proof.
  rewrite fresh_connect_unfold.
  unfold connect, set_models, set_alive, set_connection, set_role.
  steps_with ltac:(first [ apply meta_grows_read_term | apply meta_grows_findOne
                         | meta_grows_leaf ]).
Qed.

Lemma catch_unknown_dead i w :
  alive_at ((set_alive i false;; set_connection i false;; set_role i Unknown) w).2 i
  = false.
Proof.
  unfold set_alive, set_connection, set_role.
  rewrite bind_run, modify_run, bind_run, modify_run, modify_run.
  unfold alive_at. simpl. rewrite !list_lookup_alter_eq.
  by destruct (databases w !! i).
Qed.

(** One turn of the loop: a node left alive holds the term of its term
    document. *)
Lemma fresh_connect_term_persisted j w : term_persisted (fresh_connect j w).2 j.
Proof.
  intros Ha. pose proof (only_node_fresh_connect j w) as [_ Hid].
  rewrite fresh_connect_unfold in *. unfold try_catch in *.
  match type of Ha with context [match ?b w with _ => _ end] =>
    destruct (b w) as [[[]|] w'] eqn:Hbody end.
  2:{ by rewrite catch_unknown_dead in Ha. }
  simpl in *.
  apply bind_ok_inv in Hbody as (d & w1 & Hd & Hbody).
  apply get_db_ok in Hd as [Hd ->].
  apply bind_ok_inv in Hbody as ([] & w2 & _ & Hbody).
  apply bind_ok_inv in Hbody as ([] & w3 & _ & Hbody).
  apply bind_ok_inv in Hbody as (m & w4 & _ & Hbody).
  apply bind_ok_inv in Hbody as ([] & w5 & _ & Hbody).
  apply read_term_ok in Hbody as (t & w6 & Hmeta & ->).
  rewrite Hid. unfold id_at at 1. rewrite Hd.
  unfold term_at, alive_at in *. simpl in *.
  rewrite list_lookup_alter_eq in *.
  destruct (databases w6 !! j) as [d6|]; [|done]. simpl.
  by autorewrite with world.
Qed.

Lemma term_persisted_transfer w w' i :
  databases w' !! i = databases w !! i → meta_grows w w' →
  term_persisted w i → term_persisted w' i.
Proof.
  intros Hd Hg Hp. unfold term_persisted, alive_at, id_at, term_at in *.
  rewrite Hd. intros Ha. by apply Hg, Hp.
Qed.

Lemma fresh_loop l :
  NoDup l → ∀ w,
  (∀ i, i ∉ l → databases (for_each l fresh_connect w).2 !! i = databases w !! i) ∧
  meta_grows w (for_each l fresh_connect w).2 ∧
  ∀ i, i ∈ l → term_persisted (for_each l fresh_connect w).2 i.
Proof.
  induction 1 as [|j l Hj Hnd IH]; intros w; simpl.
  - split; [done|]. split; [reflexivity|]. intros i Hi. by apply elem_of_nil in Hi.
  - rewrite bind_run.
    pose proof (fresh_connect_returns j w) as Hret.
    pose proof (only_node_fresh_connect j w) as [Hothers _].
    pose proof (meta_grows_fresh_connect j w) as Hg.
    pose proof (fresh_connect_term_persisted j w) as Hp.
    destruct (fresh_connect j w) as [[[]|] w1]; simpl in *; [|discriminate].
    destruct (IH w1) as (Hout & Hg1 & Hin).
    split; [|split].
    + intros i Hi. apply not_elem_of_cons in Hi as [Hij Hil].
      by rewrite Hout, Hothers.
    + by etrans.
    + intros i Hi. apply elem_of_cons in Hi as [->|Hi]; [|by apply Hin].
      by apply (term_persisted_transfer w1); [apply Hout | |].
Qed.

(** X20: when no descriptor has role master, every node that [connectDBs] leaves
    alive holds in memory exactly the term of its term document. *)
Theorem connectDBs_fresh_terms_are_persisted (w : World) (i : nat) :
  list_find (λ d, db_role d = Master) (databases w) = None →
  alive_at (connectDBs w).2 i = true →
  Metadata (store_of (connectDBs w).2 (id_at (connectDBs w).2 i)) =
    Some (term_at (connectDBs w).2 i).
Proof.
  intros Hnone. unfold connectDBs. rewrite bind_run. simpl. rewrite Hnone.
  destruct (fresh_loop (indices w) (NoDup_seq _ _) w) as (Hout & _ & Hin).
  destruct (decide (i ∈ indices w)) as [Hi|Hi]; [by apply Hin|].
  intros Ha. unfold alive_at in Ha. rewrite (Hout i Hi) in Ha.
  unfold indices in Hi. rewrite elem_of_seq in Hi.
  rewrite lookup_ge_None_2 in Ha by lia. done.
Qed.

Lemma connectDBs_fresh_terms_are_persisted_witness :
  let w := initial cfg0 ∅ 0 [] in
  list_find (λ d, db_role d = Master) (databases w) = None ∧
  alive_at (connectDBs w).2 0 = true ∧
  Metadata (store_of (connectDBs w).2 (id_at (connectDBs w).2 0)) =
    Some (term_at (connectDBs w).2 0).
Proof.
  split; [reflexivity|]. split; [reflexivity|].
  apply (connectDBs_fresh_terms_are_persisted (initial cfg0 ∅ 0 []) 0); reflexivity.
Defined.

(** ** What the handlers do to the stores *)

#[global] Instance only_appends_preorder : PreOrder only_appends.
Proof.
  split.
  - by intros w k.
  - intros w1 w2 w3 H1 H2 k. destruct (H1 k) as [P1 M1], (H2 k) as [P2 M2].
    split; [by etrans | congruence].
Qed.

#[global] Instance keeps_records_preorder : PreOrder keeps_records.
Proof.
  split.
  - by intros w k.
  - intros w1 w2 w3 H1 H2 k. destruct (H1 k) as [P1 M1], (H2 k) as [P2 M2].
    split; congruence.
Qed.

Lemma only_appends_stores (f : World → World) :
  (∀ w, stores (f w) = stores w) → steps only_appends (modify f).
Proof. intros Hf w k. unfold store_of. simpl. by rewrite Hf. Qed.

Lemma only_appends_attempt : steps only_appends attempt.
Proof. apply steps_attempt; [apply _|]. by intros w o k. Qed.

Lemma only_appends_fresh_id : steps only_appends fresh_id.
Proof. by intros w k. Qed.

Lemma only_appends_append k ds :
  steps only_appends
    (modify (with_store k (λ s, mkStore (Test s ++ ds) (Metadata s)))).
Proof.
  intros w k'. rewrite modify_run. simpl. autorewrite with world.
  case_decide as Hk; [subst; simpl | done]. split; [by apply prefix_app_r | done].
Qed.

Ltac only_appends_leaf :=
  first [ apply only_appends_attempt | apply only_appends_fresh_id
        | apply only_appends_append
        | apply only_appends_stores; intros ?; reflexivity ].

(** X21: whatever its outcome, [write] only appends: in every database the
    records held before are still there, unchanged and in front, and no term
    document has changed. *)
Theorem write_only_appends (data : option string) (now : Z) (w : World) (k : Z) :
  Test (store_of w k) `prefix_of` Test (store_of (write data now w).2 k) ∧
  Metadata (store_of (write data now w).2 k) = Metadata (store_of w k).
Proof.
  assert (H : steps only_appends (write data now)).
  { unfold write, propagate_write, Test_create, Test_save, set_alive.
    steps_with only_appends_leaf. }
  apply H.
Qed.

Lemma identity_update_first i data l :
  identity <$> update_first i data l = identity <$> l.
Proof.
  induction l as [|d l IH]; simpl; [done|].
  case_bool_decide; csimpl; [done | by rewrite IH].
Qed.

Lemma keeps_records_stores (f : World → World) :
  (∀ w, stores (f w) = stores w) → steps keeps_records (modify f).
Proof. intros Hf w k. unfold store_of. simpl. by rewrite Hf. Qed.

Lemma keeps_records_attempt : steps keeps_records attempt.
Proof. apply steps_attempt; [apply _|]. by intros w o k. Qed.

Lemma keeps_records_update k i data :
  steps keeps_records
    (modify (with_store k (λ s, mkStore (update_first i data (Test s)) (Metadata s)))).
Proof.
  intros w k'. rewrite modify_run. simpl. autorewrite with world.
  case_decide as Hk; [subst; simpl | done]. split; [apply identity_update_first | done].
Qed.

Ltac keeps_records_leaf :=
  first [ apply keeps_records_attempt | apply keeps_records_update
        | apply keeps_records_stores; intros ?; reflexivity ].

(** X22: whatever its outcome, [update] neither adds, removes nor reorders a
    record: every database keeps its records in place with their ids and
    creation times, and no term document has changed. *)
Theorem update_keeps_records (i : Z) (data : option string) (w : World) (k : Z) :
  identity <$> Test (store_of (update i data w).2 k) = identity <$> Test (store_of w k) ∧
  Metadata (store_of (update i data w).2 k) = Metadata (store_of w k).
Proof.
  assert (H : steps keeps_records (update i data)).
  { unfold update, propagate_update, Test_findByIdAndUpdate, set_alive.
    steps_with keeps_records_leaf. }
  apply H.
Qed.

(** ** The configuration *)

#[global] Instance same_config_preorder : PreOrder same_config.
Proof.
  split.
  - by intros w.
  - intros w1 w2 w3 H1 H2. unfold same_config in *. congruence.
Qed.

Lemma same_config_quiet {A} (m : M A) : steps quiet m → steps same_config m.
Proof.
  apply steps_mono. intros w w' (_ & _ & _ & H). unfold same_config.
  apply (f_equal (fmap (λ p : Z * string * Role * bool, (p.1.1.1, p.1.1.2)))) in H.
  by rewrite <- !list_fmap_compose in H.
Qed.

Lemma same_config_alter f i :
  (∀ d, config (f d) = config d) →
  steps same_config (modify (with_databases (alter f i))).
Proof. intros Hf w. unfold same_config. simpl. by apply fmap_alter_same. Qed.

Lemma same_config_registry (f : World → World) :
  (∀ w, databases (f w) = databases w) → steps same_config (modify f).
Proof. intros Hf w. unfold same_config. simpl. by rewrite Hf. Qed.

Ltac same_config_leaf :=
  first [ apply same_config_alter; intros []; reflexivity
        | apply same_config_registry; intros ?; reflexivity
        | apply same_config_quiet; solve [auto with quiet nocore] ].

Lemma same_config_demote c j : steps same_config (demote c j).
Proof.
  unfold demote, set_role, set_term. steps_with same_config_leaf.
Qed.

Lemma same_config_promote l c : steps same_config (promote l c).
Proof.
  unfold promote, set_role, set_term.
  steps_with ltac:(first [apply same_config_demote | same_config_leaf]).
Qed.

Lemma same_config_elect_loop l cands : steps same_config (elect_loop l cands).
Proof.
  induction cands as [|db rest IH]; simpl.
  - same_config_leaf.
  - steps_with ltac:(first [apply same_config_promote | apply IH | same_config_leaf]).
Qed.

Lemma same_config_electCoordinator : steps same_config electCoordinator.
Proof.
  unfold electCoordinator.
  steps_with ltac:(first [apply same_config_elect_loop | same_config_leaf]).
Qed.

Lemma same_config_connectDBs : steps same_config connectDBs.
Proof.
  unfold connectDBs, check_connection, reconnect_and_sync, fresh_connect,
    connect, set_models, set_alive, set_connection, set_role, set_term.
  steps_with same_config_leaf.
Qed.

Lemma same_config_handle r : ∀ w, same_config w (handle r w).
Proof.
  destruct r as [|data now|i data|dbId]; simpl.
  - change (steps same_config tick). unfold tick.
    steps_with ltac:(first [ apply same_config_connectDBs
                           | apply same_config_electCoordinator ]).
  - change (steps same_config (write data now)).
    unfold write, propagate_write, set_alive. steps_with same_config_leaf.
  - change (steps same_config (update i data)).
    unfold update, propagate_update, set_alive. steps_with same_config_leaf.
  - change (steps same_config (read dbId)).
    unfold read. steps_with same_config_leaf.
Qed.

Lemma reachable_config (dbs : list (Z * string)) (w : World) :
  reachable dbs w → config <$> databases w = dbs.
Proof.
  induction 1 as [st n o|w o _ IH|w r _ IH].
  - assert (Hb : steps same_config boot).
    { unfold boot.
      steps_with ltac:(first [ apply same_config_connectDBs
                             | apply same_config_electCoordinator ]). }
    rewrite (Hb (initial dbs st n o)). simpl.
    rewrite <- list_fmap_compose. rewrite <- (list_fmap_id dbs) at 2.
    apply list_fmap_ext. by intros _ [k nm] _.
  - exact IH.
  - by rewrite (same_config_handle r w).
Qed.

(** X23: in every state of a running system the registry is the configured list:
    the same nodes with the same ids and names in the same order. *)
Theorem registry_is_the_configuration (dbs : list (Z * string)) (w : World) :
  reachable dbs w → config <$> databases w = dbs.
Proof. exact (reachable_config dbs w). Qed.

Lemma registry_is_the_configuration_witness :
  config <$> databases w_settled = cfg0.
Proof. apply (registry_is_the_configuration cfg0 w_settled), reach_boot. Defined.

(** ** Who revives a node *)

(** X24: only the health refresh brings a node back: a node that is alive after a
    write, an update, a read or an election was alive before it. *)
Theorem only_connectDBs_revives
    (w : World) (j : nat) (data : option string) (now i dbId : Z) :
  (alive_at (write data now w).2 j = true → alive_at w j = true) ∧
  (alive_at (update i data w).2 j = true → alive_at w j = true) ∧
  (alive_at (read dbId w).2 j = true → alive_at w j = true) ∧
  (alive_at (electCoordinator w).2 j = true → alive_at w j = true).
Proof.
  split; [|split; [|split]].
  - by apply (revives_write data now w).
  - by apply (revives_update i data w).
  - by rewrite (quiet_alive_at _ _ j (quiet_read dbId w)).
  - by apply (revives_electCoordinator None w).
Qed.

(** ** Reads in a running system *)

Lemma attempt_answered w :
  head (oracle w) ≠ Some false → ∃ o, attempt w = (Ok tt, with_oracle o w).
Proof.
  intros Ho. destruct (attempt_cases w) as [o [H|H]]; [by exists o|].
  unfold attempt in H. destruct (oracle w) as [|[] o']; simplify_eq/=.
Qed.

(** X25: in a running system, reading an alive node whose server answers returns
    its first ten records; the models of an alive node are always defined. *)
Theorem read_alive_node_answers
    (dbs : list (Z * string)) (w : World) (dbId : Z) (j : nat) (d : Db) :
  reachable dbs w →
  list_find (λ d, db_id d = dbId) (databases w) = Some (j, d) →
  db_alive d = true → head (oracle w) ≠ Some false →
  (read dbId w).1 =
    Ok (ReadOk (db_name d) (db_role d) (db_term d)
               (projection <$> take 10 (Test (store_of w dbId)))).
Proof.
  intros Hw Hfind Ha Ho.
  pose proof (reachable_alive_have_models dbs w Hw) as HA.
  pose proof Hfind as (Hj & Hid & _)%list_find_Some.
  unfold read. rewrite bind_run. simpl. rewrite Hfind, Ha. simpl.
  unfold try_catch, Test_find_limit.
  rewrite !bind_run, (require_models_run _ _ (HA j d Hj Ha)).
  rewrite bind_run. destruct (attempt_answered w Ho) as [o ->].
  rewrite bind_run. simpl. rewrite ?ret_run. simpl.
  autorewrite with world. by rewrite Hid.
Qed.

Lemma read_alive_node_answers_witness :
  (read 1 w_settled).1 =
    Ok (ReadOk "db2" Slave 1 (projection <$> take 10 (Test (store_of w_settled 1)))).
Proof.
  apply (read_alive_node_answers cfg0 w_settled 1 1 (mkDb 1 "db2" Slave true true 1)).
  - apply reach_boot.
  - vm_compute. reflexivity.
  - reflexivity.
  - vm_compute. discriminate.
Defined.

(** ** When every server answers *)

Section Returns.
Context (P : World → Prop).

Lemma returns_ret {A} (a : A) : returns P (mret a).
Proof. intros w HP. by exists a, w. Qed.

Lemma returns_get : returns P get.
Proof. intros w HP. by exists w, w. Qed.

Lemma returns_bind {A B} (m : M A) (f : A → M B) :
  returns P m → (∀ a, returns P (f a)) → returns P (m ≫= f).
Proof.
  intros Hm Hf w HP. destruct (Hm w HP) as (a & w1 & Hrun & HP1).
  rewrite bind_run, Hrun. by apply Hf.
Qed.

Lemma returns_try {A} (body h : M A) :
  returns P body → returns P (try_catch body h).
Proof.
  intros Hb w HP. destruct (Hb w HP) as (a & w1 & Hrun & HP1).
  exists a, w1. unfold try_catch. by rewrite Hrun.
Qed.

Lemma returns_for_each {A} (l : list A) (body : A → M unit) :
  (∀ x, x ∈ l → returns P (body x)) → returns P (for_each l body).
Proof.
  induction l as [|x l IH]; intros Hb; simpl; [apply returns_ret|].
  apply returns_bind; [apply Hb, list_elem_of_here|].
  intros _. apply IH. intros y Hy. by apply Hb, list_elem_of_further.
Qed.

Lemma returns_modify (f : World → World) :
  (∀ w, P w → P (f w)) → returns P (modify f).
Proof. intros Hf w HP. exists tt, (f w). split; [reflexivity | by apply Hf]. Qed.

End Returns.

Lemma returns_at {A} (P : World → Prop) (m : M A) w :
  returns P m → P w → ∃ a w', m w = (Ok a, w') ∧ P w'.
Proof. intros H. apply H. Qed.

Section Calm.
Context (S : gset Z) (ids : list Z).

Lemma calm_attempt : returns (calm S ids) attempt.
Proof.
  intros w (Ho & Hm & Hd). exists tt, w. split; [|done].
  unfold attempt. by rewrite Ho.
Qed.

Lemma calm_fresh_id : returns (calm S ids) fresh_id.
Proof. intros w Hw. by exists (nextId w), (with_nextId (nextId w + 1) w). Qed.

Lemma calm_require_models k : k ∈ S → returns (calm S ids) (require_models k).
Proof.
  intros Hk w Hw. exists tt, w. split; [|done].
  apply require_models_run, bool_decide_eq_true. destruct Hw as (_ & Hm & _).
  by apply Hm.
Qed.

Lemma calm_lookup w i k :
  calm S ids w → ids !! i = Some k →
  ∃ d, databases w !! i = Some d ∧ db_id d = k.
Proof.
  intros (_ & _ & Hd) Hi. rewrite <- Hd, list_lookup_fmap in Hi.
  destruct (databases w !! i) as [d|]; simplify_eq/=. by exists d.
Qed.

(** Reading a descriptor that exists: what follows may use its id. *)
Lemma calm_bind_get_db {B} i (f : Db → M B) :
  is_Some (ids !! i) →
  (∀ d, ids !! i = Some (db_id d) → returns (calm S ids) (f d)) →
  returns (calm S ids) (get_db i ≫= f).
Proof.
  intros [k Hi] Hf w Hw. destruct (calm_lookup w i k Hw Hi) as (d & Hd & <-).
  rewrite bind_run, (get_db_run i w d Hd). by apply Hf.
Qed.

Lemma calm_alter f i :
  (∀ d, db_id (f d) = db_id d) →
  returns (calm S ids) (modify (with_databases (alter f i))).
Proof.
  intros Hf. apply returns_modify. intros w (Ho & Hm & Hd).
  split; [done|]. split; [done|]. simpl. rewrite <- Hd. by apply fmap_alter_same.
Qed.

Lemma calm_modify (f : World → World) :
  (∀ w, oracle (f w) = oracle w ∧ models w ⊆ models (f w) ∧
        databases (f w) = databases w) →
  returns (calm S ids) (modify f).
Proof.
  intros Hf. apply returns_modify. intros w (Ho & Hm & Hd).
  destruct (Hf w) as (Ho' & Hm' & Hd').
  split; [congruence|]. split; [by etrans | congruence].
Qed.

End Calm.

Lemma calm_weaken S S' ids w : S ⊆ S' → calm S' ids w → calm S ids w.
Proof. intros HS (Ho & Hm & Hd). split; [done|]. split; [by etrans | done]. Qed.

Ltac calm_leaf :=
  first [ apply calm_attempt | apply calm_fresh_id
        | apply calm_require_models; solve [eauto | set_solver]
        | apply calm_alter; intros []; reflexivity
        | apply calm_modify; intros ?;
          (split; [reflexivity | split; [set_solver | reflexivity]]) ].

Ltac calm_with leaf :=
  repeat first
    [ solve [leaf]
    | solve [calm_leaf]
    | simple apply returns_ret | simple apply returns_get
    | simple apply returns_try
    | simple apply returns_for_each; intros ? ?
    | simple apply calm_bind_get_db; [solve [eauto] | intros ? ?]
    | simple apply returns_bind; [| intros ?]
    | progress cbv zeta
    | match goal with
      | |- returns _ (if ?b then _ else _) => destruct b
      | |- returns _ (match ?x with _ => _ end) => destruct x
      end ].

Lemma calm_new_docs S ids l : returns (calm S ids) (new_docs l).
Proof.
  induction l as [|[d c] l IH]; simpl; calm_with ltac:(apply IH).
Qed.

(** The body of [syncDataFromMaster] once both models are known to exist. *)
Lemma calm_sync_copy S ids i m db master :
  db_id db ∈ S → db_id master ∈ S → is_Some (ids !! m) →
  returns (calm S ids)
    (masterData ← Test_find (db_id master);
     Test_deleteMany (db_id db);;
     match masterData with
     | [] => mret tt
     | _ :: _ => Test_insertMany (db_id db) (projection <$> masterData)
     end;;
     master' ← get_db m;
     set_term i (db_term master');;
     Metadata_updateOne (db_id db) (db_term master') false).
Proof.
  intros Hdb Hmaster Hm.
  unfold Test_find, Test_deleteMany, Test_insertMany, Metadata_updateOne, set_term.
  calm_with ltac:(apply calm_new_docs).
Qed.

(** [syncDataFromMaster] checks the models itself: when the servers answer
    it returns normally. *)
Lemma calm_syncDataFromMaster S ids i m :
  is_Some (ids !! i) → is_Some (ids !! m) →
  returns (calm S ids) (syncDataFromMaster i m).
Proof.
  intros [ki Hi] [km Hm] w Hw.
  destruct (calm_lookup S ids w i ki Hw Hi) as (db & Hdb & <-).
  destruct (calm_lookup S ids w m km Hw Hm) as (master & Hmaster & <-).
  unfold syncDataFromMaster.
  rewrite bind_run, (get_db_run i w db Hdb), bind_run, (get_db_run m w master Hmaster).
  case_bool_decide; [by exists tt, w|].
  rewrite bind_run. simpl.
  destruct (has_models w (db_id db)) eqn:H1; simpl; [|by exists tt, w].
  destruct (has_models w (db_id master)) eqn:H2; simpl; [|by exists tt, w].
  apply bool_decide_eq_true in H1, H2.
  destruct (calm_sync_copy (S ∪ {[db_id db; db_id master]}) ids i m db master)
    with (w := w) as (a & w' & Hrun & Hw').
  - apply elem_of_union_r, elem_of_union_l. by apply elem_of_singleton.
  - apply elem_of_union_r, elem_of_union_r. by apply elem_of_singleton.
  - by eexists.
  - destruct Hw as (Ho & HS & Hd). split; [done|]. split; [|done].
    apply union_least; [done|]. apply union_least; by apply singleton_subseteq_l.
  - exists a, w'. split; [done|]. eapply calm_weaken; [|done]. apply union_subseteq_l.
Qed.

Lemma find_coordinator_valid w m :
  find_coordinator w = Some m → is_Some (databases w !! m).
Proof.
  unfold find_coordinator. destruct (coordinator w) as [c|]; [|done]. simpl.
  destruct (databases w !! c) as [cdb|]; [|done]. simpl.
  destruct (list_find _ _) as [[j d]|] eqn:Hfind; [|done].
  intros [= <-]. apply list_find_Some in Hfind as (Hj & _). by eexists.
Qed.

Lemma calm_canBecomeMaster S ids i :
  is_Some (ids !! i) → returns (calm S ids) (canBecomeMaster i).
Proof.
  intros Hi w Hw. unfold canBecomeMaster. rewrite bind_run. simpl.
  revert Hw.
  match goal with |- _ → ∃ a w', ?t w = _ ∧ _ =>
    intros Hw; cut (returns (calm S ids) t); [intros Ht; exact (Ht w Hw)|] end.
  destruct (find_coordinator w) as [m|] eqn:Hfc.
  - apply find_coordinator_valid in Hfc as [dm Hdm].
    assert (Hm : is_Some (ids !! m)).
    { destruct Hw as (_ & _ & <-). rewrite list_lookup_fmap, Hdm. by eexists. }
    calm_with ltac:(apply calm_syncDataFromMaster; solve [eauto]).
  - calm_with fail.
Qed.

Lemma calm_demote S ids c other :
  covered S ids [c; other] → returns (calm S ids) (demote c other).
Proof.
  intros Hcov.
  destruct (Hcov c) as (kc & Hc & _); [set_solver|].
  destruct (Hcov other) as (ko & Ho & HS); [set_solver|].
  unfold demote, set_role, set_term, Metadata_updateOne.
  apply calm_bind_get_db; [by eexists|]. intros o Hido.
  assert (db_id o ∈ S) by (rewrite Ho in Hido; by injection Hido as <-).
  calm_with ltac:(apply calm_syncDataFromMaster; solve [eauto]).
Qed.

Lemma calm_promote S ids l c :
  covered S ids (c :: l) → returns (calm S ids) (promote l c).
Proof.
  intros Hcov.
  destruct (Hcov c) as (kc & Hc & HS); [set_solver|].
  unfold promote, set_role, set_term.
  apply returns_bind; [calm_leaf|]. intros _.
  apply returns_bind; [calm_leaf|]. intros _.
  apply returns_bind; [apply returns_get|]. intros w.
  apply returns_bind; [calm_leaf|]. intros _.
  apply calm_bind_get_db; [by eexists|]. intros d Hd.
  assert (db_id d ∈ S) by (rewrite Hc in Hd; by injection Hd as <-).
  apply returns_bind.
  - unfold Metadata_updateOne. calm_with fail.
  - intros _. apply returns_for_each. intros j Hj. apply calm_demote.
    intros x Hx. apply Hcov. apply elem_of_cons in Hx as [->|Hx]; [by left|].
    apply list_elem_of_singleton in Hx as ->. by right.
Qed.

Lemma calm_elect_loop S ids l cands :
  covered S ids l → covered S ids cands →
  returns (calm S ids) (elect_loop l cands).
Proof.
  intros Hl. induction cands as [|db rest IH]; intros Hc; simpl.
  - calm_leaf.
  - apply returns_bind.
    + apply calm_canBecomeMaster. destruct (Hc db) as (k & Hk & _); [set_solver|].
      by eexists.
    + intros [].
      * apply calm_promote. intros x Hx. apply elem_of_cons in Hx as [->|Hx].
        -- apply Hc. set_solver.
        -- by apply Hl.
      * apply IH. intros x Hx. apply Hc. set_solver.
Qed.

Lemma electCoordinator_calm (w : World) :
  oracle w = [] → alive_have_models w →
  (electCoordinator w).1 = Ok tt ∧ oracle (electCoordinator w).2 = [].
Proof.
  intros Ho HA. unfold electCoordinator.
  rewrite bind_run, modify_run. cbv beta iota.
  rewrite bind_run. cbn -[aliveDbs_of elect_loop].
  set (w1 := with_globalTerm (globalTerm w + 1) w).
  assert (Hcov : covered (models w) (db_id <$> databases w) (aliveDbs_of w1)).
  { intros j Hj. apply elem_of_aliveDbs in Hj. unfold alive_at in Hj. simpl in Hj.
    destruct (databases w !! j) as [d|] eqn:Hd; [|done].
    exists (db_id d). rewrite list_lookup_fmap, Hd. split; [done|].
    pose proof (HA j d Hd Hj) as Hm. by apply bool_decide_eq_true in Hm. }
  destruct (calm_elect_loop (models w) (db_id <$> databases w)
              (aliveDbs_of w1) (aliveDbs_of w1) Hcov Hcov w1)
    as ([] & w' & Hrun & Ho' & _); [by repeat split|].
  by rewrite Hrun.
Qed.

(** X26: when every server answers, an election returns normally (the models of
    every alive node being defined, as they are in a running system). *)
Theorem election_without_failures_returns (w : World) :
  oracle w = [] → alive_have_models w →
  (electCoordinator w).1 = Ok tt ∧ oracle (electCoordinator w).2 = [].
Proof. exact (electCoordinator_calm w). Qed.

Lemma election_without_failures_returns_witness :
  (electCoordinator w_connected).1 = Ok tt ∧
  oracle (electCoordinator w_connected).2 = [].
Proof.
  apply (election_without_failures_returns w_connected); [reflexivity|].
  intros i d Hd Ha. vm_compute in Hd.
  destruct i as [|[|i]]; simplify_eq/=; reflexivity.
Defined.

(** *** The health refresh *)

Lemma attempt_calm w : oracle w = [] → attempt w = (Ok tt, w).
Proof. intros Ho. unfold attempt. by rewrite Ho. Qed.

Lemma connect_calm i w :
  oracle w = [] →
  connect i w = (Ok tt, with_databases (alter (set_connection_db true) i) w).
Proof.
  intros Ho. unfold connect. by rewrite bind_run, (attempt_calm w Ho).
Qed.

Lemma Metadata_findOne_calm k w :
  oracle w = [] → has_models w k = true →
  Metadata_findOne k w = (Ok (Metadata (store_of w k)), w).
Proof.
  intros Ho Hm. unfold Metadata_findOne.
  rewrite bind_run, (require_models_run k w Hm), bind_run, (attempt_calm w Ho).
  by rewrite bind_run.
Qed.

(** A connection gone well: models assigned, the test query answered, the
    node marked alive, then [rest]. *)
Lemma connect_phase_calm i w d (rest : Db → M unit) (h : M unit) :
  oracle w = [] → databases w !! i = Some d →
  steps quiet (rest d) →
  returns (calm {[db_id d]} (db_id <$> databases w)) (rest d) →
  ∃ w', try_catch
          (db ← get_db i;
           connect i;; set_models (db_id db);; Metadata_findOne (db_id db);;
           set_alive i true;; rest db) h w = (Ok tt, w') ∧
        oracle w' = [] ∧ alive_at w' i = true.
Proof.
  intros Ho Hd Hq Hr. unfold try_catch.
  rewrite bind_run, (get_db_run i w d Hd), bind_run, (connect_calm i w Ho).
  set (w1 := with_databases (alter (set_connection_db true) i) w).
  rewrite bind_run. unfold set_models at 1. rewrite modify_run.
  set (w2 := with_models ({[db_id d]} ∪ models w1) w1).
  rewrite bind_run, (Metadata_findOne_calm (db_id d) w2); [|done|].
  2:{ apply bool_decide_eq_true. simpl. apply elem_of_union_l. by apply elem_of_singleton. }
  rewrite bind_run. unfold set_alive at 1. rewrite modify_run.
  set (w3 := with_databases (alter (set_alive_db true) i) w2).
  destruct (Hr w3) as ([] & w' & Hrun & Ho' & _).
  { split; [done|]. split; [apply union_subseteq_l|]. simpl.
    by rewrite !fmap_alter_same. }
  pose proof (Hq w3) as Hq3. rewrite Hrun in *. simpl in Hq3.
  exists w'. split; [done|]. split; [done|].
  rewrite (quiet_alive_at w3 w' i Hq3). unfold alive_at. simpl.
  by rewrite !list_lookup_alter_eq, Hd.
Qed.

Lemma quiet_read_term i k : steps quiet (read_term i k).
Proof. unfold read_term. steps_go. Qed.

Lemma calm_read_term S ids i k : k ∈ S → returns (calm S ids) (read_term i k).
Proof.
  intros Hk. unfold read_term, Metadata_findOne, Metadata_save, set_term.
  calm_with fail.
Qed.

Lemma fresh_connect_calm i w :
  oracle w = [] → (i < length (databases w))%nat →
  ∃ w', fresh_connect i w = (Ok tt, w') ∧ oracle w' = [] ∧ alive_at w' i = true.
Proof.
  intros Ho Hi. destruct (lookup_lt_is_Some_2 _ _ Hi) as [d Hd].
  apply (connect_phase_calm i w d (λ db, read_term i (db_id db))); [done..| |].
  - apply quiet_read_term.
  - apply calm_read_term. by apply elem_of_singleton.
Qed.

Lemma reconnect_and_sync_calm i m w :
  oracle w = [] → (i < length (databases w))%nat → (m < length (databases w))%nat →
  ∃ w', reconnect_and_sync i m w = (Ok tt, w') ∧ oracle w' = [] ∧
        alive_at w' i = true.
Proof.
  intros Ho Hi Hm. destruct (lookup_lt_is_Some_2 _ _ Hi) as [d Hd].
  apply (connect_phase_calm i w d (λ _, syncDataFromMaster i m)); [done..| |].
  - apply quiet_syncDataFromMaster.
  - apply calm_syncDataFromMaster; apply lookup_lt_is_Some_2; by rewrite length_fmap.
Qed.

Lemma check_connection_calm i w :
  oracle w = [] → alive_at w i = true →
  ∃ w', check_connection i w = (Ok tt, w') ∧ oracle w' = [] ∧ alive_at w' i = true.
Proof.
  intros Ho Ha. unfold check_connection, try_catch. rewrite (connect_calm i w Ho).
  eexists. split; [done|]. split; [done|].
  unfold alive_at in *. simpl. rewrite list_lookup_alter_eq.
  by destruct (databases w !! i).
Qed.

Lemma only_node_new_docs j l : steps (only_node j) (new_docs l).
Proof.
  induction l as [|[d c] l IH]; simpl;
    steps_with ltac:(first [apply IH | only_node_leaf]).
Qed.

Lemma only_node_check_connection j : steps (only_node j) (check_connection j).
Proof.
  unfold check_connection, connect, set_alive, set_connection, set_role.
  steps_with only_node_leaf.
Qed.

Lemma only_node_reconnect_and_sync j m : steps (only_node j) (reconnect_and_sync j m).
Proof.
  unfold reconnect_and_sync, connect, set_models, Metadata_findOne,
    syncDataFromMaster, Test_find, Test_deleteMany, Test_insertMany,
    Metadata_updateOne, set_alive, set_connection, set_term.
  steps_with ltac:(first [apply only_node_new_docs | only_node_leaf]).
Qed.

Lemma only_node_alive j i w w' :
  only_node j w w' → i ≠ j → alive_at w' i = alive_at w i.
Proof. intros [H _] Hi. unfold alive_at. by rewrite H. Qed.

(** A loop that revives one node per turn revives them all. *)
Lemma revive_loop (body : nat → M unit) (n : nat) l :
  NoDup l →
  (∀ i, steps (only_node i) (body i)) →
  (∀ i w, i ∈ l → oracle w = [] → length (databases w) = n →
     ∃ w', body i w = (Ok tt, w') ∧ oracle w' = [] ∧
           length (databases w') = n ∧ alive_at w' i = true) →
  ∀ w, oracle w = [] → length (databases w) = n →
  ∃ w', for_each l body w = (Ok tt, w') ∧ oracle w' = [] ∧
        length (databases w') = n ∧
        (∀ i, i ∈ l → alive_at w' i = true) ∧
        (∀ i, i ∉ l → alive_at w' i = alive_at w i).
Proof.
  intros Hnd Hon. induction Hnd as [|j l Hj Hnd IH]; intros Hb w Ho Hn; simpl.
  - exists w. rewrite ret_run. repeat split; try done.
    intros i Hi. by apply elem_of_nil in Hi.
  - destruct (Hb j w) as (w1 & Hrun & Ho1 & Hn1 & Ha1); [by left|done..|].
    pose proof (Hon j w) as Hnode. rewrite Hrun in Hnode. simpl in Hnode.
    destruct IH with (w := w1) as (w' & Hloop & Ho' & Hn' & Hin & Hout); [|done..|].
    { intros i w2 Hi. apply Hb. by right. }
    exists w'. rewrite bind_run, Hrun. split; [done|]. split; [done|]. split; [done|].
    split.
    + intros i Hi. apply elem_of_cons in Hi as [->|Hi]; [|by apply Hin].
      by rewrite (Hout j Hj).
    + intros i Hi. apply not_elem_of_cons in Hi as [Hij Hil].
      by rewrite (Hout i Hil), (only_node_alive j i w w1 Hnode Hij).
Qed.

Lemma connectDBs_calm w :
  oracle w = [] →
  oracle (connectDBs w).2 = [] ∧
  length (databases (connectDBs w).2) = length (databases w) ∧
  ∀ i, (i < length (databases w))%nat → alive_at (connectDBs w).2 i = true.
Proof.
  intros Ho. unfold connectDBs. rewrite bind_run. simpl.
  destruct (list_find _ _) as [[m dm]|] eqn:Hfind.
  - apply list_find_Some in Hfind as (Hm%lookup_lt_Some & _).
    destruct (revive_loop
      (λ i, db ← get_db i;
            if db_alive db then check_connection i else reconnect_and_sync i m)
      (length (databases w)) (indices w) (NoDup_seq _ _))
      with (w := w) as (w' & Hrun & Ho' & Hn' & Hin & _); [| |done..|].
    + intros i. unfold check_connection, connect, set_alive, set_connection, set_role.
      apply steps_bind; [apply _ | apply steps_get_db, _ |]. intros db.
      destruct (db_alive db);
        [apply only_node_check_connection | apply only_node_reconnect_and_sync].
    + intros i w1 Hi Ho1 Hn1. apply elem_of_seq in Hi as [_ Hi]. simpl in Hi.
      destruct (lookup_lt_is_Some_2 (databases w1) i) as [d Hd]; [lia|].
      rewrite bind_run, (get_db_run i w1 d Hd).
      destruct (db_alive d) eqn:Ha.
      * destruct (check_connection_calm i w1 Ho1) as (w2 & Hrun & Ho2 & Ha2).
        { unfold alive_at. by rewrite Hd. }
        exists w2. split; [done|]. split; [done|]. split; [|done].
        pose proof (revives_check_connection None i w1) as Hr. rewrite Hrun in Hr.
        simpl in Hr. by rewrite (revives_length _ _ _ Hr).
      * destruct (reconnect_and_sync_calm i m w1 Ho1) as (w2 & Hrun & Ho2 & Ha2);
          [lia..|].
        exists w2. split; [done|]. split; [done|]. split; [|done].
        pose proof (revives_reconnect_and_sync i m w1) as Hr. rewrite Hrun in Hr.
        simpl in Hr. by rewrite (revives_length _ _ _ Hr).
    + rewrite Hrun. simpl. split; [done|]. split; [done|].
      intros i Hi. apply Hin, elem_of_seq. simpl. lia.
  - destruct (revive_loop fresh_connect (length (databases w)) (indices w)
                (NoDup_seq _ _) only_node_fresh_connect)
      with (w := w) as (w' & Hrun & Ho' & Hn' & Hin & _); [|done..|].
    + intros i w1 Hi Ho1 Hn1. apply elem_of_seq in Hi as [_ Hi]. simpl in Hi.
      destruct (fresh_connect_calm i w1 Ho1) as (w2 & Hrun & Ho2 & Ha2); [lia|].
      exists w2. split; [done|]. split; [done|]. split; [|done].
      pose proof (revives_fresh_connect i w1) as Hr. rewrite Hrun in Hr.
      simpl in Hr. by rewrite (revives_length _ _ _ Hr).
    + rewrite Hrun. simpl. split; [done|]. split; [done|].
      intros i Hi. apply Hin, elem_of_seq. simpl. lia.
Qed.

Lemma all_alive w :
  (∀ i, (i < length (databases w))%nat → alive_at w i = true) →
  ∀ d, d ∈ databases w → db_alive d = true.
Proof.
  intros H d Hd. apply list_elem_of_lookup in Hd as [i Hi].
  specialize (H i (lookup_lt_Some _ _ _ Hi)). unfold alive_at in H. by rewrite Hi in H.
Qed.

(** X27: when every server answers, the health refresh leaves every node alive:
    the alive ones stay so, the others are reconnected (and resynchronised
    if a master is known). *)
Theorem connectDBs_without_failures (w : World) :
  oracle w = [] →
  (∀ d, d ∈ databases (connectDBs w).2 → db_alive d = true) ∧
  oracle (connectDBs w).2 = [].
Proof.
  intros Ho. destruct (connectDBs_calm w Ho) as (Ho' & Hn & Ha).
  split; [|done]. apply all_alive. intros i Hi. apply Ha. by rewrite <- Hn.
Qed.

Lemma connectDBs_without_failures_witness :
  (∀ d, d ∈ databases (connectDBs w_idle).2 → db_alive d = true) ∧
  oracle (connectDBs w_idle).2 = [].
Proof. apply (connectDBs_without_failures w_idle). reflexivity. Defined.

(** X28: in a running system with at least one node, a tick during which every
    server answers returns normally, leaves every node alive and a
    coordinator tracked. *)
Theorem tick_without_failures (dbs : list (Z * string)) (w : World) :
  reachable dbs w → dbs ≠ [] → oracle w = [] →
  (tick w).1 = Ok tt ∧
  (∀ d, d ∈ databases (tick w).2 → db_alive d = true) ∧
  is_Some (coordinator (tick w).2).
Proof.
  intros Hw Hdbs Ho.
  pose proof (reachable_config dbs w Hw) as Hcfg.
  pose proof (alive_have_models_connectDBs w (reachable_alive_have_models dbs w Hw)) as HA.
  destruct (connectDBs_calm w Ho) as (Ho1 & Hn1 & Ha1).
  destruct (connectDBs_returns w) as [Hok _].
  unfold tick. rewrite bind_run.
  destruct (connectDBs w) as [[[]|] w1]; simpl in *; [|done].
  assert (Hall : ∀ i, (i < length (databases w1))%nat → alive_at w1 i = true).
  { intros i Hi. apply Ha1. by rewrite <- Hn1. }
  rewrite bind_run. simpl.
  destruct (coordinator_alive w1) eqn:Hca; simpl.
  - split; [done|]. split; [by apply all_alive|].
    unfold coordinator_alive in Hca. by destruct (coordinator w1).
  - destruct (electCoordinator_calm w1 Ho1 HA) as [Hret _].
    split; [done|]. split.
    + apply all_alive. intros i Hi. rewrite election_keeps_liveness. apply Hall.
      pose proof (revives_electCoordinator None w1) as Hr.
      by rewrite <- (revives_length _ _ _ Hr).
    + destruct (election_winner w1) as (c & _ & Hc & _).
      * unfold find_coordinator. destruct (coordinator w1) as [c|] eqn:Hc; [|done].
        simpl. destruct (databases w1 !! c) as [cdb|] eqn:Hcdb; [|done].
        unfold coordinator_alive in Hca. rewrite Hc in Hca.
        rewrite Hall in Hca; [done | by eapply lookup_lt_Some].
      * destruct (databases w1) as [|d0 l] eqn:Hd1.
        { exfalso. apply Hdbs. rewrite <- Hcfg.
          apply (f_equal length) in Hd1. simpl in Hd1.
          destruct (databases w); [done | simpl in *; lia]. }
        exists d0. split; [by left|].
        specialize (Hall 0%nat). unfold alive_at in Hall. rewrite Hd1 in Hall.
        simpl in Hall. apply Hall. lia.
      * by rewrite Hc.
Qed.

Lemma tick_without_failures_witness :
  (tick w_settled).1 = Ok tt ∧
  (∀ d, d ∈ databases (tick w_settled).2 → db_alive d = true) ∧
  is_Some (coordinator (tick w_settled).2).
Proof.
  apply (tick_without_failures cfg0 w_settled); [apply reach_boot | done | reflexivity].
Defined.
